(** * WatCon: water networks from dynamical data

    A shallow embedding of [WatCon/generate_dynamic_networks.py]: the atom
    catalogue ([WaterAtom], [WaterMolecule], [OtherAtom], [WaterNetwork]),
    the active-site selection, the two connection finders, the two graph
    builders and the graph metrics [get_density] and [get_CPL].

    Conventions of the embedding.
    - Coordinates are points of an integer grid (a fixed length unit, say
      1/1000 of an Angstrom).  A Euclidean distance is represented by its
      square, so that the comparisons the program makes on distances
      ([d <= cutoff], [d < bound], sorting by distance) are exact:
      for [0 <= c], [sqrt s <= c] iff [s <= c * c].
    - A Python exception is a value [Raise e] of the type [result].
    - The array and spatial-index operations of numpy and scipy that the
      program calls ([np.array], [reshape], [cKDTree], [cKDTree.query],
      [np.min]) and the graph operations of networkx are written out as
      functions on lists, with the failures they have on the shapes that the
      program can pass to them. *)

From Stdlib Require Import String Ascii.
From Stdlib Require Import ZArith QArith Bool List Permutation Lia.
Import ListNotations.
Local Open Scope string_scope.
Local Open Scope list_scope.
Local Open Scope Z_scope.

Set Implicit Arguments.

(** ** Exceptions *)

Inductive exn : Type :=
| ValueError
| TypeError
| IndexError
| UnboundLocalError
| AttributeError
| ZeroDivisionError
| NetworkXError
| NetworkXPointlessConcept.

Inductive result (A : Type) : Type :=
| Ok (a : A)
| Raise (e : exn).

Arguments Ok {A} a.
Arguments Raise {A} e.

Definition bind {A B : Type} (m : result A) (f : A -> result B) : result B :=
  match m with
  | Ok a => f a
  | Raise e => Raise e
  end.

Notation "x <- m ;; k" := (bind m (fun x => k))
  (at level 61, m at next level, right associativity).
Notation "' p <- m ;; k" := (bind m (fun x => let p := x in k))
  (at level 61, p pattern, m at next level, right associativity).

(** A [for] loop whose body appends to one output list and may raise. *)
Fixpoint for_each {A B : Type} (body : A -> result (list B)) (l : list A)
  : result (list B) :=
  match l with
  | [] => Ok []
  | a :: l' =>
      out <- body a ;;
      rest <- for_each body l' ;;
      Ok (out ++ rest)
  end.

(** [seq[i]] for a non-negative [i]: [IndexError] out of range. *)
Definition getitem {A : Type} (l : list A) (i : nat) : result A :=
  match nth_error l i with
  | Some a => Ok a
  | None => Raise IndexError
  end.

(** [seq[i]] for a Python integer [i]: a negative index counts from the
    end. *)
Definition getitem_Z {A : Type} (l : list A) (i : Z) : result A :=
  let n := Z.of_nat (length l) in
  if (0 <=? i) && (i <? n) then getitem l (Z.to_nat i)
  else if (- n <=? i) && (i <? 0) then getitem l (Z.to_nat (n + i))
  else Raise IndexError.

Definition enumerate {A : Type} (l : list A) : list (nat * A) :=
  combine (seq 0 (length l)) l.

(** ** Geometry *)

Definition coord : Type := (Z * Z * Z)%type.

Definition vsub (a b : coord) : coord :=
  let '(ax, ay, az) := a in
  let '(bx, by_, bz) := b in
  (ax - bx, ay - by_, az - bz).

Definition sqnorm (v : coord) : Z :=
  let '(x, y, z) := v in x * x + y * y + z * z.

(** Square of the Euclidean distance. *)
Definition sqdist (a b : coord) : Z := sqnorm (vsub a b).

(** [sqrt s <= c] and [sqrt s < c] for a squared distance [s]. *)
Definition le_len (s c : Z) : bool := (0 <=? c) && (s <=? c * c).
Definition lt_len (s c : Z) : bool := (0 <? c) && (s <? c * c).

(** A distance as [cKDTree.query] reports it: finite, or [inf] in a slot
    that has no neighbour. *)
Inductive edist : Type :=
| Fin (s : Z)
| Inf.

(** [distance <= dist_cutoff] *)
Definition edist_le (d : edist) (c : Z) : bool :=
  match d with
  | Fin s => le_len s c
  | Inf => false
  end.

(** ** numpy arrays of points and the k-d tree *)

Record ndarray : Type := mk_ndarray { ndim : nat; rows : list coord }.

(** [np.array([... for ...])] of a list of coordinate triples: shape
    [(n, 3)], and shape [(0,)] when the list is empty. *)
Definition np_array (l : list coord) : ndarray :=
  mk_ndarray (match l with [] => 1 | _ => 2 end) l.

(** [a.reshape(-1, 3)] *)
Definition reshape_3 (a : ndarray) : ndarray := mk_ndarray 2 (rows a).

Record cKDTree_t : Type := mk_tree { data : list coord }.

(** [cKDTree(data)]: the data must be two-dimensional. *)
Definition cKDTree (a : ndarray) : result cKDTree_t :=
  if Nat.eqb (ndim a) 2 then Ok (mk_tree (rows a)) else Raise ValueError.

(** Insertion in a list sorted by increasing distance.  Points at equal
    distances come out by increasing position; the library leaves their
    order open, and no statement below depends on it. *)
Fixpoint insert_by_dist (x : Z * nat) (l : list (Z * nat)) : list (Z * nat) :=
  match l with
  | [] => [x]
  | y :: l' =>
      if fst x <=? fst y then x :: l else y :: insert_by_dist x l'
  end.

Definition sort_by_dist (l : list (Z * nat)) : list (Z * nat) :=
  fold_right insert_by_dist [] l.

(** The points of the tree closer to [q] than the upper bound, each with its
    squared distance and its position in the data. *)
Definition candidates (t : cKDTree_t) (q : coord) (ub : Z) : list (Z * nat) :=
  filter (fun c => lt_len (fst c) ub)
         (map (fun jp => (sqdist q (snd jp), fst jp)) (enumerate (data t))).

Definition pad_row (k : nat) (n : nat) (l : list (edist * nat))
  : list (edist * nat) :=
  l ++ repeat (Inf, n) (k - length l).

(** One row of [tree.query(x, k, distance_upper_bound)]: the [k] nearest
    points closer than the bound (the search keeps a point when its
    distance is less than the bound), by increasing distance; a slot
    without a neighbour holds distance [inf] and index [n], the size of the
    tree. *)
Definition query_point (t : cKDTree_t) (k : nat) (ub : Z) (q : coord)
  : list (edist * nat) :=
  pad_row k (length (data t))
          (map (fun c => (Fin (fst c), snd c))
               (firstn k (sort_by_dist (candidates t q ub)))).

(** [dist, indices = tree.query(x, k=k, distance_upper_bound=ub)]; slot
    [j] of row [i] holds the pair [(dist[i, j], indices[i][j])]. *)
Definition query (t : cKDTree_t) (x : list coord) (k : nat) (ub : Z)
  : list (list (edist * nat)) :=
  map (query_point t k ub) x.

(** ** The atom catalogue *)

Module WaterAtom.
Record t : Type := mk
  { index : Z;
    coordinates : coord;
    resname : string;
    name : string;
    resid : Z }.
End WaterAtom.

(** [WaterAtom(index, atom_name, residue_number, x, y, z)] *)
Definition WaterAtom_init (index : Z) (atom_name : string)
  (residue_number : Z) (xyz : coord) : WaterAtom.t :=
  WaterAtom.mk index xyz "WAT" atom_name residue_number.

Module WaterMolecule.
Record t : Type := mk
  { index : Z;
    H1 : WaterAtom.t;
    H2 : WaterAtom.t;
    O : WaterAtom.t;
    resname : string;
    resid : Z }.
End WaterMolecule.

Definition WaterMolecule_init (index : Z) (o h1 h2 : WaterAtom.t)
  (residue_number : Z) : WaterMolecule.t :=
  WaterMolecule.mk index h1 h2 o "WAT" residue_number.

Module OtherAtom.
Record t : Type := mk
  { index : Z;
    coordinates : coord;
    resname : string;
    msa_resid : option Z;
    resid : Z;
    name : string;
    hbonding : bool }.
End OtherAtom.

(** An element of [self.active_site], which mixes the two classes. *)
Inductive member : Type :=
| Atom (a : OtherAtom.t)
| Water (w : WaterMolecule.t).

Definition member_resid (f : member) : Z :=
  match f with
  | Atom a => OtherAtom.resid a
  | Water w => WaterMolecule.resid w
  end.

Definition member_index (f : member) : Z :=
  match f with
  | Atom a => OtherAtom.index a
  | Water w => WaterMolecule.index w
  end.

(** A connection tuple: [(index1, index2, name, type, site_status)], with a
    sixth component for the water-protein tuples of [find_connections]. *)
Record connection : Type := mk_connection
  { index1 : Z;
    index2 : Z;
    atom_name : string;
    connection_type : string;
    site_status : string;
    classification : option string }.

(** ** The graph (networkx [Graph] and [DiGraph])

    Nodes and edges are kept in insertion order, as the dictionaries of
    networkx keep them.  A node added by [add_edge] alone has no
    attribute. *)

Inductive pyval : Type :=
| PyInt (z : Z)
| PyStr (s : string).

Record node_data : Type := mk_node_data
  { pos : coord;
    atom_category : string;
    MSA : option pyval }.

Record edge_data : Type := mk_edge_data
  { edge_connection_type : string;
    edge_active_site : string }.

Record Graph : Type := mk_Graph
  { is_directed : bool;
    nodes : list (Z * option node_data);
    edges : list (Z * Z * edge_data) }.

(** [nx.Graph()] and [nx.DiGraph()] *)
Definition nx_Graph : Graph := mk_Graph false [] [].
Definition nx_DiGraph : Graph := mk_Graph true [] [].

Definition has_node (G : Graph) (n : Z) : bool :=
  existsb (fun na => fst na =? n) (nodes G).

Fixpoint update_node (n : Z) (d : option node_data)
  (l : list (Z * option node_data)) : list (Z * option node_data) :=
  match l with
  | [] => [(n, d)]
  | (m, e) :: l' =>
      if m =? n then (m, d) :: l' else (m, e) :: update_node n d l'
  end.

(** [G.add_node(n, pos=.., atom_category=.., MSA=..)]: a new node, or new
    attributes on the node that is there. *)
Definition add_node (G : Graph) (n : Z) (d : node_data) : Graph :=
  mk_Graph (is_directed G) (update_node n (Some d) (nodes G)) (edges G).

Definition touch_node (n : Z) (l : list (Z * option node_data))
  : list (Z * option node_data) :=
  if existsb (fun na => fst na =? n) l then l else l ++ [(n, None)].

Definition same_edge (dir : bool) (u v : Z) (e : Z * Z * edge_data) : bool :=
  let '(a, b, _) := e in
  ((a =? u) && (b =? v)) || (negb dir && (a =? v) && (b =? u)).

Fixpoint update_edge (dir : bool) (u v : Z) (d : edge_data)
  (l : list (Z * Z * edge_data)) : list (Z * Z * edge_data) :=
  match l with
  | [] => [(u, v, d)]
  | e :: l' =>
      if same_edge dir u v e then (fst (fst e), snd (fst e), d) :: l'
      else e :: update_edge dir u v d l'
  end.

(** [G.add_edge(u, v, connection_type=.., active_site=..)]: both end points
    become nodes if they are not; an edge that is there gets the new
    attributes. *)
Definition add_edge (G : Graph) (u v : Z) (d : edge_data) : Graph :=
  mk_Graph (is_directed G)
           (touch_node v (touch_node u (nodes G)))
           (update_edge (is_directed G) u v d (edges G)).

Definition number_of_nodes (G : Graph) : nat := length (nodes G).
Definition number_of_edges (G : Graph) : nat := length (edges G).

(** ** The network object *)

Record WaterNetwork : Type := mk_WaterNetwork
  { water_molecules : list WaterMolecule.t;
    protein_atoms : list OtherAtom.t;
    protein_subset : list OtherAtom.t;
    molecules : list member;
    connections : option (list connection);
    active_site : option (list member);
    graph : option Graph }.

(** [WaterNetwork()] *)
Definition WaterNetwork_init : WaterNetwork :=
  mk_WaterNetwork [] [] [] [] None None None.

Definition set_active_site (self : WaterNetwork) (a : option (list member))
  : WaterNetwork :=
  mk_WaterNetwork (water_molecules self) (protein_atoms self)
    (protein_subset self) (molecules self) (connections self) a (graph self).

Definition set_connections (self : WaterNetwork) (c : option (list connection))
  : WaterNetwork :=
  mk_WaterNetwork (water_molecules self) (protein_atoms self)
    (protein_subset self) (molecules self) c (active_site self) (graph self).

Definition set_graph (self : WaterNetwork) (g : option Graph) : WaterNetwork :=
  mk_WaterNetwork (water_molecules self) (protein_atoms self)
    (protein_subset self) (molecules self) (connections self)
    (active_site self) g.

(** ['c' in s] for a one-character string. *)
Fixpoint contains (c : ascii) (s : string) : bool :=
  match s with
  | EmptyString => false
  | String a s' => Ascii.eqb a c || contains c s'
  end.

(** An atom as the trajectory reader hands it to [add_water]. *)
Module TrajectoryAtom.
Record t : Type := mk { index : Z; position : coord }.
End TrajectoryAtom.

(** [self.add_atom(index, atom_name, residue_name, x, y, z, residue_number,
    msa_residue_number)] for a protein or other atom.  Under one of the
    three water residue names the call appends to [water_molecules] a
    [WaterMolecule] whose fields hold the atom name and the three
    coordinates in place of the three atoms; such an object is not a value
    of this model, and the result is [None]. *)
Definition add_atom (self : WaterNetwork) (index : Z)
  (atom_name residue_name : string) (xyz : coord) (residue_number : Z)
  (msa_residue_number : option Z) : option WaterNetwork :=
  if String.eqb residue_name "WAT" || String.eqb residue_name "HOH"
     || String.eqb residue_name "SOL" then
    None
  else
    let hbonding :=
      contains "O" atom_name || contains "N" atom_name
      || contains "S" atom_name || contains "P" atom_name in
    let mol := OtherAtom.mk index xyz residue_name msa_residue_number
                            residue_number atom_name hbonding in
    Some (mk_WaterNetwork (water_molecules self)
            (protein_atoms self ++ [mol]) (protein_subset self)
            (molecules self) (connections self) (active_site self)
            (graph self)).

(** [self.add_water(index, o, h1, h2, residue_number)] *)
Definition add_water (self : WaterNetwork) (index : Z)
  (o h1 h2 : TrajectoryAtom.t) (residue_number : Z) : WaterNetwork :=
  let o := WaterAtom_init (TrajectoryAtom.index o) "O" residue_number
                          (TrajectoryAtom.position o) in
  let h1 := WaterAtom_init (TrajectoryAtom.index h1) "H1" residue_number
                           (TrajectoryAtom.position h1) in
  let h2 := WaterAtom_init (TrajectoryAtom.index h2) "H2" residue_number
                           (TrajectoryAtom.position h2) in
  let water := WaterMolecule_init index o h1 h2 residue_number in
  mk_WaterNetwork (water_molecules self ++ [water]) (protein_atoms self)
    (protein_subset self) (molecules self) (connections self)
    (active_site self) (graph self).

(** Iterating over an argument whose default is [None]. *)
Definition iter {A : Type} (o : option (list A)) : result (list A) :=
  match o with
  | Some l => Ok l
  | None => Raise TypeError
  end.

Definition O_coordinates (mol : WaterMolecule.t) : coord :=
  WaterAtom.coordinates (WaterMolecule.O mol).
Definition H1_coordinates (mol : WaterMolecule.t) : coord :=
  WaterAtom.coordinates (WaterMolecule.H1 mol).
Definition H2_coordinates (mol : WaterMolecule.t) : coord :=
  WaterAtom.coordinates (WaterMolecule.H2 mol).
Definition O_index (mol : WaterMolecule.t) : Z :=
  WaterAtom.index (WaterMolecule.O mol).

(** ** [WaterNetwork.find_connections] *)

(** The body of the water-water loop, for slot [(d, neighbor)] of row [i]. *)
Definition ww_slot (self : WaterNetwork) (dist_cutoff : Z)
  (waters : list WaterMolecule.t) (water_indices : list Z)
  (water_names : list string) (i : nat) (slot : edist * nat)
  : result (list connection) :=
  let '(d, neighbor) := slot in
  if negb (Nat.eqb neighbor i) && edist_le d dist_cutoff then
    status <-
      match active_site self with
      | None => Ok "None"
      | Some act =>
          wi <- getitem waters i ;;
          Ok (if existsb (fun f => WaterMolecule.resid wi =? member_resid f) act
              then "active_site" else "not_active_site")
      end ;;
    a <- getitem water_indices i ;;
    b <- getitem water_indices neighbor ;;
    if a <? b then
      nm <- getitem water_names i ;;
      Ok [mk_connection a b nm "WAT-WAT" status None]
    else Ok []
  else Ok [].

(** The body of the water-protein loop. *)
Definition wp_slot (self : WaterNetwork) (dist_cutoff : Z)
  (waters : list WaterMolecule.t) (water_indices : list Z)
  (protein : list OtherAtom.t) (protein_indices : list Z)
  (protein_names : list string) (i : nat) (slot : edist * nat)
  : result (list connection) :=
  let '(d, neighbor) := slot in
  if edist_le d dist_cutoff then
    status <-
      match active_site self with
      | None => Ok "None"
      | Some act =>
          wi <- getitem waters i ;;
          pn <- getitem protein neighbor ;;
          Ok (if existsb (fun f =>
                            (WaterMolecule.resid wi =? member_resid f)
                            || (OtherAtom.resid pn =? member_resid f)) act
              then "active_site" else "not_active_site")
      end ;;
    nm <- getitem protein_names neighbor ;;
    let classification :=
      if String.eqb nm "O" || String.eqb nm "N" then "backbone"
      else "side-chain" in
    a <- getitem protein_indices neighbor ;;
    b <- getitem water_indices i ;;
    Ok [mk_connection a b nm "WAT-PROT" status (Some classification)]
  else Ok [].

(** The nested loop over the rows and slots of a query result. *)
Definition scan (body : nat -> edist * nat -> result (list connection))
  (res : list (list (edist * nat))) : result (list connection) :=
  for_each (fun row => for_each (body (fst row)) (snd row)) (enumerate res).

Definition find_connections (self : WaterNetwork) (dist_cutoff : Z)
  (water_active : option (list WaterMolecule.t))
  (protein_active : option (list OtherAtom.t))
  (active_site_only water_only : bool) : result (list connection) :=
  let waters := if active_site_only then water_active
                else Some (water_molecules self) in
  let protein := if active_site_only then protein_active
                 else Some (protein_atoms self) in
  waters <- iter waters ;;
  let water_coords := np_array (map O_coordinates waters) in
  let water_indices := map O_index waters in
  let water_names := map (fun _ => "O") waters in
  tree <- cKDTree water_coords ;;
  ww <- scan (ww_slot self dist_cutoff waters water_indices water_names)
             (query tree (rows water_coords) 10 dist_cutoff) ;;
  wp <- (if negb water_only then
           protein <- iter protein ;;
           let protein_coords := np_array (map OtherAtom.coordinates protein) in
           let protein_indices := map OtherAtom.index protein in
           let protein_names := map OtherAtom.name protein in
           tree <- cKDTree protein_coords ;;
           scan (wp_slot self dist_cutoff waters water_indices
                         protein protein_indices protein_names)
                (query tree (rows water_coords) 10 dist_cutoff)
         else Ok []) ;;
  Ok (ww ++ wp).

(** ** [WaterNetwork.select_active_site] *)

(** An atom of the reference group handed over by the trajectory reader. *)
Module Reference.
Record t : Type := mk { position : coord; resid : Z }.
End Reference.

(** The periodic box, for an orthorhombic cell: the three edge lengths. *)
Record Box : Type := mk_Box { box_x : Z; box_y : Z; box_z : Z }.

(** Length of the minimum image of a displacement along one axis. *)
Definition min_image (L d : Z) : Z :=
  if L <=? 0 then Z.abs d
  else let r := d mod L in Z.min r (L - r).

(** Squared distance between two points, by the minimum-image convention
    when a box is given. *)
Definition sqdist_box (box : option Box) (a b : coord) : Z :=
  match box with
  | None => sqdist a b
  | Some bx =>
      let '(x, y, z) := vsub a b in
      sqnorm (min_image (box_x bx) x, min_image (box_y bx) y,
              min_image (box_z bx) z)
  end.

(** [distances.distance_array(reference, configuration, box=box)]: one row
    per point of its first argument. *)
Definition distance_array (reference configuration : list coord)
  (box : option Box) : list (list Z) :=
  map (fun a => map (sqdist_box box a) configuration) reference.

(** [np.min(a)] over all the entries; it raises on an array without
    entries. *)
Definition np_min (a : list (list Z)) : result Z :=
  match concat a with
  | [] => Raise ValueError
  | x :: l => Ok (fold_left Z.min l x)
  end.

(** A [for] loop threading a state. *)
Fixpoint for_loop {S A : Type} (body : S -> A -> result S) (l : list A)
  (s : S) : result S :=
  match l with
  | [] => Ok s
  | a :: l' => s' <- body s a ;; for_loop body l' s'
  end.

(** The body of the loop over the protein atoms: the state is
    [(active_site_atoms, protein_active)]. *)
Definition select_protein (reference_positions : list coord)
  (reference_resids : list Z) (box : option Box) (active_site_radius : Z)
  (st : list member * list OtherAtom.t) (atm : OtherAtom.t)
  : result (list member * list OtherAtom.t) :=
  let '(active_site_atoms, protein_active) := st in
  if existsb (Z.eqb (OtherAtom.resid atm)) reference_resids then
    Ok (active_site_atoms ++ [Atom atm], protein_active)
  else
    dist <- np_min (distance_array [OtherAtom.coordinates atm]
                                   reference_positions box) ;;
    if le_len dist active_site_radius then
      Ok (active_site_atoms ++ [Atom atm], protein_active ++ [atm])
    else Ok st.

(** The body of the loop over the waters: the state is
    [(active_site_atoms, water_active)]. *)
Definition select_water (reference_positions : list coord)
  (active_site_radius : Z)
  (st : list member * list WaterMolecule.t) (mol : WaterMolecule.t)
  : result (list member * list WaterMolecule.t) :=
  let '(active_site_atoms, water_active) := st in
  let water_positions :=
    [O_coordinates mol; H1_coordinates mol; H2_coordinates mol] in
  dist <- np_min (distance_array water_positions reference_positions None) ;;
  if le_len dist active_site_radius then
    Ok (active_site_atoms ++ [Water mol], water_active ++ [mol])
  else Ok st.

Definition select_active_site (self : WaterNetwork)
  (reference : list Reference.t) (box : option Box) (active_site_radius : Z)
  : result (WaterNetwork
            * (list member * list OtherAtom.t * list WaterMolecule.t)) :=
  let reference_positions := map Reference.position reference in
  let reference_resids := map Reference.resid reference in
  '(active_site_atoms, protein_active) <-
    for_loop (select_protein reference_positions reference_resids box
                             active_site_radius)
             (protein_atoms self) ([], []) ;;
  '(active_site_atoms, water_active) <-
    for_loop (select_water reference_positions active_site_radius)
             (water_molecules self) (active_site_atoms, []) ;;
  Ok (set_active_site self (Some active_site_atoms),
      (active_site_atoms, protein_active, water_active)).

(** ** [WaterNetwork.find_directed_connections] *)

(** [np.argmin(l)]: the position of the first least entry; it raises on an
    empty sequence. *)
Fixpoint argmin_from (best : Z) (besti : nat) (i : nat) (l : list Z) : nat :=
  match l with
  | [] => besti
  | x :: l' =>
      if x <? best then argmin_from x i (S i) l'
      else argmin_from best besti (S i) l'
  end.

Definition np_argmin (l : list Z) : result nat :=
  match l with
  | [] => Raise ValueError
  | x :: l' => Ok (argmin_from x 0%nat 1%nat l')
  end.

(** The active-site tag of the directed finder; [x] and [y] are the two
    index look-ups that the test evaluates for each active-site entry. *)
Definition directed_status (self : WaterNetwork) (active_site_only : bool)
  (x y : result Z) : result string :=
  if negb active_site_only then
    match active_site self with
    | None => Ok "None"
    | Some [] => Ok "not_active_site"
    | Some act =>
        a <- x ;;
        b <- y ;;
        Ok (if existsb (fun idx => (idx =? a) || (idx =? b))
                       (map member_index act)
            then "active_site" else "not_active_site")
    end
  else Ok "active_site".

Section Directed.

(** [np.degrees(np.arccos(np.dot(u, v) / (np.linalg.norm(v) *
    np.linalg.norm(u))))] in a fixed unit of angle; [None] is the
    not-a-number that a zero vector or a rounded cosine outside [-1, 1]
    gives.  The development holds for every such function. *)
Variable angle_between : coord -> coord -> option Z.

(** [angle1 >= angle_criteria] *)
Definition angle_ge (angle1 : option Z) (angle_criteria : Z) : bool :=
  match angle1 with
  | Some a => angle_criteria <=? a
  | None => false
  end.

Variable self : WaterNetwork.
Variable dist_cutoff : Z.
Variable active_site_only : bool.
Variable angle_criteria : option Z.

(** Protein hydrogen to water oxygen: row [index_near] is a water oxygen,
    [ref] a protein hydrogen of the tree. *)
Definition protH_slot (water_H_indices water_O_indices : list Z)
  (water_O_coords : list coord) (protH_coords : list coord)
  (protH_indices : list Z) (protH_names : list string)
  (index_near : nat) (slot : edist * nat) : result (list connection) :=
  let '(distance, ref) := slot in
  if edist_le distance dist_cutoff then
    status <- directed_status self active_site_only
                (getitem water_H_indices index_near)
                (getitem protH_indices ref) ;;
    match angle_criteria with
    | None =>
        a <- getitem protH_indices ref ;;
        b <- getitem water_O_indices index_near ;;
        nm <- getitem protH_names ref ;;
        Ok [mk_connection a b nm "WAT-PROT" status None]
    | Some _ =>
        protein_hydrogen_coords <- getitem protH_coords ref ;;
        water_oxygen_coords <- getitem water_O_coords index_near ;;
        h <- getitem protH_indices ref ;;
        protein_resid <-
          getitem (map OtherAtom.resid
                     (filter (fun atm => OtherAtom.index atm =? h)
                             (protein_atoms self))) 0 ;;
        let protein_O_coordinates :=
          map OtherAtom.coordinates
              (filter (fun atm =>
                         (OtherAtom.resid atm =? protein_resid)
                         && negb (contains "H" (OtherAtom.name atm)))
                      (protein_atoms self)) in
        arg <- np_argmin (map (sqdist protein_hydrogen_coords)
                              protein_O_coordinates) ;;
        prot_heavy_coordinates <- getitem protein_O_coordinates arg ;;
        (* the cosine is divided by [np.linalg.norm(water1)], and
           [water1] is a local name that is bound only further down *)
        Raise UnboundLocalError
    end
  else Ok [].

(** Water hydrogen to protein O, N, S or P: row [index_near] is a water
    hydrogen, [ref] a protein atom of the tree. *)
Definition protO_slot (water_H_indices : list Z)
  (water_H_coords : list coord) (water_H_names : list string)
  (protO_coords : list coord) (protO_indices : list Z)
  (index_near : nat) (slot : edist * nat) : result (list connection) :=
  let '(distance, ref) := slot in
  if edist_le distance dist_cutoff then
    status <- directed_status self active_site_only
                (getitem water_H_indices index_near)
                (getitem protO_indices ref) ;;
    match angle_criteria with
    | None =>
        a <- getitem water_H_indices index_near ;;
        b <- getitem protO_indices ref ;;
        nm <- getitem water_H_names index_near ;;
        Ok [mk_connection a b nm "WAT-PROT" status None]
    | Some _ =>
        protein_heavy_coords <- getitem protO_coords ref ;;
        water_hydrogen_coords <- getitem water_H_coords index_near ;;
        h <- getitem water_H_indices index_near ;;
        (* [water_o_coords] is the whole list of the m matching oxygen
           positions, not its first entry: the difference with it has
           shape (m, 3), which does not broadcast for m = 0, which
           [np.dot] refuses for every m but 3, and for m = 3 the test
           [angle1 >= angle_criteria] is a 3 x 3 array without a truth
           value *)
        Raise ValueError
    end
  else Ok [].

(** Water hydrogen to water oxygen: row [index_near] is a water hydrogen,
    [ref] a water oxygen of the tree. *)
Definition wat_slot (water_H_indices water_O_indices : list Z)
  (water_H_coords water_O_coords : list coord)
  (water_H_names : list string)
  (index_near : nat) (slot : edist * nat) : result (list connection) :=
  let '(distance, ref) := slot in
  if edist_le distance dist_cutoff then
    status <- directed_status self active_site_only
                (getitem water_H_indices index_near)
                (getitem water_O_indices ref) ;;
    h <- getitem water_H_indices index_near ;;
    o <- getitem water_O_indices ref ;;
    if negb (h =? o) then
      match angle_criteria with
      | None =>
          if h <? o then
            nm <- getitem water_H_names index_near ;;
            Ok [mk_connection h o nm "WAT-WAT" status None]
          else Ok []
      | Some threshold =>
          water_hydrogen_coords <- getitem water_H_coords index_near ;;
          water_o1_coords <- getitem water_O_coords ref ;;
          water_o2_coords <-
            getitem (map O_coordinates
                       (filter (fun water => O_index water =? h)
                               (water_molecules self))) 0 ;;
          let water1 := vsub water_hydrogen_coords water_o1_coords in
          let water2 := vsub water_hydrogen_coords water_o2_coords in
          let angle1 := angle_between water1 water2 in
          if angle_ge angle1 threshold && (h <? o) then
            nm <- getitem water_H_names index_near ;;
            Ok [mk_connection h o nm "WAT-WAT" status None]
          else Ok []
      end
    else Ok []
  else Ok [].

Definition is_acceptor_name (nm : string) : bool :=
  contains "P" nm || contains "O" nm || contains "N" nm || contains "S" nm.

Definition find_directed_connections
  (water_active : option (list WaterMolecule.t))
  (protein_active : option (list OtherAtom.t))
  (water_only : bool) : result (list connection) :=
  let waters := if active_site_only then water_active
                else Some (water_molecules self) in
  let protein := if active_site_only then protein_active
                 else Some (protein_atoms self) in
  waters <- iter waters ;;
  (* the loop over the waters also sets [site_status] for each of them, a
     value that every scan below sets again before it is read *)
  let water_H_indices := flat_map (fun mol => [O_index mol; O_index mol])
                                  waters in
  let water_H_coords :=
    flat_map (fun mol => [H1_coordinates mol; H2_coordinates mol]) waters in
  let water_H_names := flat_map (fun _ => ["H1"; "H2"]) waters in
  let water_O_indices := map O_index waters in
  let water_O_coords := map O_coordinates waters in
  let water_H_coords := reshape_3 (np_array water_H_coords) in
  let water_O_coords := reshape_3 (np_array water_O_coords) in
  wp <- (if negb water_only then
           protein <- iter protein ;;
           let protO := filter (fun atm => is_acceptor_name
                                             (OtherAtom.name atm)) protein in
           let protH :=
             filter (fun atm => negb (is_acceptor_name (OtherAtom.name atm))
                                && contains "H" (OtherAtom.name atm))
                    protein in
           let protO_coords :=
             reshape_3 (np_array (map OtherAtom.coordinates protO)) in
           let protO_indices := map OtherAtom.index protO in
           let protH_coords :=
             reshape_3 (np_array (map OtherAtom.coordinates protH)) in
           let protH_indices := map OtherAtom.index protH in
           let protH_names := map OtherAtom.name protH in
           tree <- cKDTree protH_coords ;;
           hw <- scan (protH_slot water_H_indices water_O_indices
                         (rows water_O_coords) (rows protH_coords)
                         protH_indices protH_names)
                      (query tree (rows water_O_coords) 10 dist_cutoff) ;;
           tree <- cKDTree protO_coords ;;
           wo <- scan (protO_slot water_H_indices (rows water_H_coords)
                         water_H_names (rows protO_coords) protO_indices)
                      (query tree (rows water_H_coords) 10 dist_cutoff) ;;
           Ok (hw ++ wo)
         else Ok []) ;;
  tree <- cKDTree water_O_coords ;;
  ww <- scan (wat_slot water_H_indices water_O_indices
                (rows water_H_coords) (rows water_O_coords) water_H_names)
             (query tree (rows water_H_coords) 5 dist_cutoff) ;;
  Ok (wp ++ ww).

End Directed.

(** ** [generate_oxygen_network] and [generate_directed_network] *)

(** A local name that is bound on one path only. *)
Definition local {A : Type} (o : option A) : result A :=
  match o with
  | Some a => Ok a
  | None => Raise UnboundLocalError
  end.

(** [['X'] * 10000] *)
Definition dummy_list : list pyval := repeat (PyStr "X") (Z.to_nat 10000).

Definition add_water_node (G : Graph) (molecule : WaterMolecule.t) : Graph :=
  add_node G (O_index molecule)
           (mk_node_data (O_coordinates molecule) "WAT" None).

Definition add_protein_node (G : Graph) (molecule : OtherAtom.t)
  (msa : option pyval) : Graph :=
  add_node G (OtherAtom.index molecule)
           (mk_node_data (OtherAtom.coordinates molecule) "PROTEIN" msa).

(** [G.add_edge(connection[0], connection[1],
    connection_type=connection[3], active_site=connection[4])] *)
Definition add_connection (G : Graph) (c : connection) : Graph :=
  add_edge G (index1 c) (index2 c)
           (mk_edge_data (connection_type c) (site_status c)).

Definition tagged_active_site (f : connection) : bool :=
  String.eqb (site_status f) "active_site".

(** The part of the two builders up to the scoping branch: the active site
    is selected when a reference is given, and only then are
    [protein_active] and [water_active] bound. *)
Definition select_if_reference (self : WaterNetwork) (box : option Box)
  (active_site_reference : option (list Reference.t))
  (active_site_radius : Z)
  : result (WaterNetwork
            * option (list OtherAtom.t) * option (list WaterMolecule.t)) :=
  match active_site_reference with
  | Some reference =>
      '(self, (_, protein_active, water_active)) <-
        select_active_site self reference box active_site_radius ;;
      Ok (self, Some protein_active, Some water_active)
  | None => Ok (self, None, None)
  end.

Definition generate_oxygen_network (self : WaterNetwork) (box : option Box)
  (msa_indexing : option (list pyval))
  (active_site_reference : option (list Reference.t))
  (active_site_radius : Z) (active_site_only water_only : bool)
  (max_connection_distance : Z) : result (WaterNetwork * Graph) :=
  let G := nx_Graph in
  '(self, protein_active, water_active) <-
    select_if_reference self box active_site_reference active_site_radius ;;
  let MSA_indices := match msa_indexing with
                     | Some l => l
                     | None => dummy_list
                     end in
  '(self, G) <-
    (if active_site_only then
       waters <- local water_active ;;
       G <- for_loop (fun G molecule => Ok (add_water_node G molecule))
                     waters G ;;
       G <- (if negb water_only then
               protein <- local protein_active ;;
               for_loop (fun G molecule =>
                           MSA_index <- getitem_Z MSA_indices
                                          (OtherAtom.resid molecule - 1) ;;
                           Ok (add_protein_node G molecule (Some MSA_index)))
                        protein G
             else Ok G) ;;
       wa <- local water_active ;;
       pa <- local protein_active ;;
       conns <- find_connections self max_connection_distance
                  (Some wa) (Some pa) active_site_only water_only ;;
       let self := set_connections self (Some conns) in
       Ok (self, fold_left add_connection
                           (filter tagged_active_site conns) G)
     else
       G <- for_loop (fun G molecule => Ok (add_water_node G molecule))
                     (water_molecules self) G ;;
       G <- (if negb water_only then
               for_loop (fun G molecule =>
                           MSA_index <- getitem_Z MSA_indices
                                          (OtherAtom.resid molecule - 1) ;;
                           Ok (add_protein_node G molecule None))
                        (protein_subset self) G
             else Ok G) ;;
       conns <- find_connections self max_connection_distance
                  None None false water_only ;;
       let self := set_connections self (Some conns) in
       Ok (self, fold_left add_connection conns G)) ;;
  Ok (set_graph self (Some G), G).

Section DirectedNetwork.

Variable angle_between : coord -> coord -> option Z.

Definition generate_directed_network (self : WaterNetwork)
  (box : option Box) (msa_indexing : option (list pyval))
  (active_site_reference : option (list Reference.t))
  (active_site_radius : Z) (active_site_only water_only : bool)
  (angle_criteria : option Z) (max_connection_distance : Z)
  : result (WaterNetwork * Graph) :=
  let G := nx_DiGraph in
  '(self, protein_active, water_active) <-
    select_if_reference self box active_site_reference active_site_radius ;;
  let MSA_indices := match msa_indexing with
                     | Some l => l
                     | None => dummy_list
                     end in
  (* [MSA_index] is bound in the active-site branch only *)
  let MSA_index : option pyval := None in
  '(self, G) <-
    (if active_site_only then
       waters <- local water_active ;;
       G <- for_loop (fun G molecule => Ok (add_water_node G molecule))
                     waters G ;;
       G <- (if negb water_only then
               protein <- local protein_active ;;
               for_loop (fun G molecule =>
                           MSA_index <- getitem_Z MSA_indices
                                          (OtherAtom.resid molecule - 1) ;;
                           Ok (add_protein_node G molecule (Some MSA_index)))
                        protein G
             else Ok G) ;;
       wa <- local water_active ;;
       pa <- local protein_active ;;
       conns <- find_directed_connections angle_between self
                  max_connection_distance active_site_only angle_criteria
                  (Some wa) (Some pa) water_only ;;
       let self := set_connections self (Some conns) in
       Ok (self, fold_left add_connection
                           (filter tagged_active_site conns) G)
     else
       G <- for_loop (fun G molecule => Ok (add_water_node G molecule))
                     (water_molecules self) G ;;
       G <- (if negb water_only then
               for_loop (fun G molecule =>
                           MSA_index <- local MSA_index ;;
                           Ok (add_protein_node G molecule (Some MSA_index)))
                        (protein_subset self) G
             else Ok G) ;;
       conns <- find_directed_connections angle_between self
                  max_connection_distance false None None None water_only ;;
       let self := set_connections self (Some conns) in
       Ok (self, fold_left add_connection conns G)) ;;
  Ok (set_graph self (Some G), G).

End DirectedNetwork.

(** ** Graph metrics *)

(** A method call on [self.graph], which is [None] until a network is
    generated. *)
Definition attribute {A : Type} (o : option A) : result A :=
  match o with
  | Some a => Ok a
  | None => Raise AttributeError
  end.

Definition mem (x : Z) (l : list Z) : bool := existsb (Z.eqb x) l.

(** [[(edge1, edge2) for (edge1, edge2, data) in G.edges(data=True)
      if data['active_site'] == selection]] *)
Definition edges_tagged (G : Graph) (selection : string) : list (Z * Z) :=
  map fst (filter (fun e => String.eqb (edge_active_site (snd e)) selection)
                  (edges G)).

(** [G.edge_subgraph(pairs)]: the listed edges of [G] and the nodes they
    touch. *)
Definition edge_subgraph (G : Graph) (pairs : list (Z * Z)) : Graph :=
  let keep e := existsb (fun p => same_edge (is_directed G) (fst p) (snd p) e)
                        pairs in
  let es := filter keep (edges G) in
  let touched n :=
    existsb (fun e => (fst (fst e) =? n) || (snd (fst e) =? n)) es in
  mk_Graph (is_directed G)
           (filter (fun na => touched (fst na)) (nodes G))
           es.

(** [a / b] on Python numbers. *)
Definition true_div (a b : Q) : result Q :=
  if Qeq_bool b 0 then Raise ZeroDivisionError else Ok (a / b)%Q.

Definition get_density (self : WaterNetwork) (selection : string)
  : result Q :=
  S <- (if String.eqb selection "all" then attribute (graph self)
        else
          G <- attribute (graph self) ;;
          (* the comprehension iterates [S.edges(data=True)], and [S] is
             the local name that this statement is about to bind *)
          S <- local (@None Graph) ;;
          Ok (edge_subgraph G (edges_tagged S selection))) ;;
  let nedges := Z.of_nat (number_of_edges S) in
  let nnodes := Z.of_nat (number_of_nodes S) in
  true_div (inject_Z nedges) (inject_Z (nnodes * (nnodes - 1)) / 2)%Q.

(** Neighbours of [u]: successors in a directed graph. *)
Definition adj (G : Graph) (u : Z) : list Z :=
  flat_map (fun e =>
              let '(a, b, _) := e in
              (if a =? u then [b] else [])
              ++ (if negb (is_directed G) && (b =? u) then [a] else []))
           (edges G).

(** Neighbours of [u] when the directions are ignored. *)
Definition adj_undirected (G : Graph) (u : Z) : list Z :=
  flat_map (fun e =>
              let '(a, b, _) := e in
              (if a =? u then [b] else []) ++ (if b =? u then [a] else []))
           (edges G).

(** The nodes of [l] that are neither in [seen] nor met before, in order. *)
Definition fresh (seen l : list Z) : list Z :=
  fold_left (fun acc v => if mem v seen || mem v acc then acc else acc ++ [v])
            l [].

(** Breadth-first search by levels: the nodes reached and the sum of their
    depths. *)
Fixpoint bfs (next : Z -> list Z) (fuel : nat) (seen frontier : list Z)
  (depth total : Z) : list Z * Z :=
  match fuel with
  | O => (seen, total)
  | S fuel' =>
      match fresh seen (flat_map next frontier) with
      | [] => (seen, total)
      | level =>
          bfs next fuel' (seen ++ level) level (depth + 1)
              (total + (depth + 1) * Z.of_nat (length level))
      end
  end.

Definition reach (next : Z -> list Z) (n : nat) (u : Z) : list Z :=
  fst (bfs next n [u] [u] 0 0).

Definition path_length_sum (G : Graph) (u : Z) : Z :=
  snd (bfs (adj G) (number_of_nodes G) [u] [u] 0 0).

Definition node_ids (G : Graph) : list Z := map fst (nodes G).

(** [nx.is_connected] on an undirected graph, [nx.is_weakly_connected] on a
    directed one, for a graph with a node. *)
Definition connected (G : Graph) : bool :=
  match node_ids G with
  | [] => false
  | u :: _ =>
      Nat.eqb (length (reach (adj_undirected G) (number_of_nodes G) u))
              (number_of_nodes G)
  end.

(** [nx.average_shortest_path_length(G)] *)
Definition average_shortest_path_length (G : Graph) : result Q :=
  let n := Z.of_nat (number_of_nodes G) in
  if n =? 0 then Raise NetworkXPointlessConcept
  else if n =? 1 then Ok 0%Q
  else if negb (connected G) then Raise NetworkXError
  else
    let s := fold_left Z.add (map (path_length_sum G) (node_ids G)) 0 in
    Ok (inject_Z s / inject_Z (n * (n - 1)))%Q.

(** The same call on a set of nodes, which has a length and nothing else of
    a graph. *)
Definition average_shortest_path_length_of_set (c : list Z) : result Q :=
  let n := Z.of_nat (length c) in
  if n =? 0 then Raise NetworkXPointlessConcept
  else if n =? 1 then Ok 0%Q
  else Raise AttributeError.

(** [S.to_undirected()] *)
Definition to_undirected (G : Graph) : Graph :=
  mk_Graph false (nodes G)
           (fold_left (fun es e => update_edge false (fst (fst e))
                                               (snd (fst e)) (snd e) es)
                      (edges G) []).

(** [nx.connected_components(S)], in the order of the nodes. *)
Definition connected_components (G : Graph) : list (list Z) :=
  snd (fold_left
         (fun st v =>
            if mem v (fst st) then st
            else let c := reach (adj_undirected G) (number_of_nodes G) v in
                 (fst st ++ c, snd st ++ [c]))
         (node_ids G) ([], [])).

(** [S.subgraph(c).copy()] *)
Definition subgraph (G : Graph) (c : list Z) : Graph :=
  mk_Graph (is_directed G)
           (filter (fun na => mem (fst na) c) (nodes G))
           (filter (fun e => mem (fst (fst e)) c && mem (snd (fst e)) c)
                   (edges G)).

(** A Python float: a number or not-a-number. *)
Inductive pyfloat : Type :=
| Float (q : Q)
| NaN.

(** [np.array(l).mean()] *)
Definition np_mean (l : list Q) : pyfloat :=
  match l with
  | [] => NaN
  | _ => Float (fold_left Qplus l 0 / inject_Z (Z.of_nat (length l)))%Q
  end.

(** [max(l, key=len)]: the first of the longest entries. *)
Definition max_by_len (l : list (list Z)) : result (list Z) :=
  match l with
  | [] => Raise ValueError
  | c :: l' =>
      Ok (fold_left (fun best x =>
                       if (length best <? length x)%nat then x else best)
                    l' c)
  end.

Definition get_CPL (self : WaterNetwork) (selection calculate_path : string)
  (exclude_single_points : bool) : result pyfloat :=
  G <- attribute (graph self) ;;
  let S := if String.eqb selection "all" then G
           else edge_subgraph G (edges_tagged G selection) in
  match average_shortest_path_length S with
  | Ok CPL => Ok (Float CPL)
  | Raise NetworkXError =>
      let S := if is_directed S then to_undirected S else S in
      let cc := if exclude_single_points
                then filter (fun f => (1 <? length f)%nat)
                            (connected_components S)
                else connected_components S in
      if String.eqb calculate_path "all" then
        CPLs <- for_each (fun c =>
                            x <- average_shortest_path_length (subgraph S c) ;;
                            Ok [x]) cc ;;
        Ok (np_mean CPLs)
      else
        largest_cc <- max_by_len (connected_components S) ;;
        CPL <- average_shortest_path_length_of_set largest_cc ;;
        Ok (Float CPL)
  | Raise e => Raise e
  end.

(** ** [get_connected_components] and [get_all_coordinates] *)

(** [get_connected_components(selection)]: the sizes of the connected
    components, weakly connected ones for a directed graph, as a column.
    Both library calls list the components in the order of the nodes. *)
Definition get_connected_components (self : WaterNetwork)
  (selection : string) : result (list nat) :=
  G <- attribute (graph self) ;;
  let S := if String.eqb selection "all" then G
           else edge_subgraph G (edges_tagged G selection) in
  Ok (map (fun cc => length cc) (connected_components S)).

(** [get_all_coordinates(selection, water_only)]: under [all] the oxygens of
    all the waters and, unless [water_only], the positions of
    [protein_subset]; under any other selection the members of
    [self.active_site], by their class. *)
Definition get_all_coordinates (self : WaterNetwork) (selection : string)
  (water_only : bool) : result (list coord) :=
  if String.eqb selection "all" then
    let coords := map O_coordinates (water_molecules self) in
    Ok (if negb water_only
        then coords ++ map OtherAtom.coordinates (protein_subset self)
        else coords)
  else
    act <- iter (active_site self) ;;
    let coords :=
      flat_map (fun f => match f with
                         | Water w => [O_coordinates w]
                         | Atom _ => []
                         end) act in
    Ok (if negb water_only
        then coords ++ flat_map (fun f => match f with
                                          | Atom a => [OtherAtom.coordinates a]
                                          | Water _ => []
                                          end) act
        else coords).

(** ** Vocabulary of the statements *)

(** The active-site tag that the water-water loop computes for the water
    [wi] of the row. *)
Definition ww_status (self : WaterNetwork) (wi : WaterMolecule.t) : string :=
  match active_site self with
  | None => "None"
  | Some act =>
      if existsb (fun f => WaterMolecule.resid wi =? member_resid f) act
      then "active_site" else "not_active_site"
  end.

Definition is_wat_wat (c : connection) : bool :=
  String.eqb (connection_type c) "WAT-WAT".

(** The pair of end points of a connection, without its order. *)
Definition unordered_pair (c : connection) : Z * Z :=
  (Z.min (index1 c) (index2 c), Z.max (index1 c) (index2 c)).

(** The waters and the protein atoms that a finder works on. *)
Definition scope {A : Type} (active_site_only : bool)
  (active : option (list A)) (all : list A) : option (list A) :=
  if active_site_only then active else Some all.

(** The hydrogens of the waters, in the order of the rows of the directed
    finder: the oxygen index of the owner, the position, the name. *)
Definition H_rows (waters : list WaterMolecule.t)
  : list (Z * coord * string) :=
  flat_map (fun mol => [(O_index mol, H1_coordinates mol, "H1");
                        (O_index mol, H2_coordinates mol, "H2")]) waters.

Definition H_owner (h : Z * coord * string) : Z := fst (fst h).
Definition H_coordinates (h : Z * coord * string) : coord := snd (fst h).
Definition H_name (h : Z * coord * string) : string := snd h.

(** The protein atoms that the directed finder takes as acceptors and as
    donor hydrogens. *)
Definition acceptors (protein : list OtherAtom.t) : list OtherAtom.t :=
  filter (fun atm => is_acceptor_name (OtherAtom.name atm)) protein.

Definition donors (protein : list OtherAtom.t) : list OtherAtom.t :=
  filter (fun atm => negb (is_acceptor_name (OtherAtom.name atm))
                     && contains "H" (OtherAtom.name atm)) protein.

(** Number of points of [l] within the cutoff of [q]. *)
Definition within (cutoff : Z) (q : coord) (l : list coord) : nat :=
  length (filter (fun p => le_len (sqdist q p) cutoff) l).


(** [b] holds every edge of [a] and an edge that [a] has not. *)
Definition strict_superset (b a : list connection) : Prop :=
  incl a b /\ exists c, In c b /\ ~ In c a.

(** The angle that the water-water scan computes for the hydrogen [h] and
    the acceptor oxygen at [acceptor]: between the vectors from the
    acceptor and from the donor oxygen to the hydrogen, the donor oxygen
    being that of the first water of the network with the index of the
    owner of [h]. *)
Definition computed_angle (angle_between : coord -> coord -> option Z)
  (self : WaterNetwork) (h : Z * coord * string) (acceptor : coord)
  : option Z :=
  match filter (fun water => O_index water =? H_owner h)
               (water_molecules self) with
  | donor :: _ =>
      angle_between (vsub (H_coordinates h) acceptor)
                    (vsub (H_coordinates h) (O_coordinates donor))
  | [] => None
  end.




(** [m] is the least entry of [l]. *)
Definition least (l : list Z) (m : Z) : Prop :=
  In m l /\ forall x, In x l -> m <= x.

(** The minimum distance from the points [pts] to the reference atoms is at
    most the radius (by minimum image when a box is given). *)
Definition min_distance_le (box : option Box) (radius : Z)
  (pts : list coord) (reference : list Reference.t) : Prop :=
  exists m,
    least (concat (distance_array pts (map Reference.position reference)
                                  box)) m
    /\ le_len m radius = true.

(** The test of the two selection loops. *)
Definition close_to (box : option Box) (radius : Z) (pts : list coord)
  (reference : list Reference.t) : bool :=
  match np_min (distance_array pts (map Reference.position reference) box)
  with
  | Ok dist => le_len dist radius
  | Raise _ => false
  end.

Definition in_reference (reference : list Reference.t) (resid : Z) : bool :=
  existsb (Z.eqb resid) (map Reference.resid reference).

Definition water_positions (mol : WaterMolecule.t) : list coord :=
  [O_coordinates mol; H1_coordinates mol; H2_coordinates mol].

(** The active-site tag that the water-protein loop of [find_connections]
    computes for the water [wi] and the protein atom [pn]. *)
Definition wp_status (self : WaterNetwork) (wi : WaterMolecule.t)
  (pn : OtherAtom.t) : string :=
  match active_site self with
  | None => "None"
  | Some act =>
      if existsb (fun f => (WaterMolecule.resid wi =? member_resid f)
                           || (OtherAtom.resid pn =? member_resid f)) act
      then "active_site" else "not_active_site"
  end.

(** The classification of a protein atom by its name. *)
Definition protein_classification (nm : string) : string :=
  if String.eqb nm "O" || String.eqb nm "N" then "backbone"
  else "side-chain".

(** A water hydrogen with a protein acceptor, or a water oxygen with a
    protein hydrogen, closer than the cutoff. *)
Definition protein_contact (cutoff : Z) (waters : list WaterMolecule.t)
  (protein : list OtherAtom.t) : Prop :=
  (exists h p, In h (H_rows waters) /\ In p (acceptors protein)
               /\ lt_len (sqdist (H_coordinates h) (OtherAtom.coordinates p))
                         cutoff = true)
  \/ (exists w p, In w waters /\ In p (donors protein)
                  /\ lt_len (sqdist (O_coordinates w)
                                    (OtherAtom.coordinates p)) cutoff
                     = true).

(** The node that the builders make for a water, and the edge that they
    make for a connection. *)
Definition water_node (w : WaterMolecule.t) : Z * option node_data :=
  (O_index w, Some (mk_node_data (O_coordinates w) "WAT" None)).

Definition edge_of (c : connection) : Z * Z * edge_data :=
  (index1 c, index2 c, mk_edge_data (connection_type c) (site_status c)).

Definition has_key (n : Z) (l : list (Z * option node_data)) : bool :=
  existsb (fun na => fst na =? n) l.

(** The networks that calls of [add_water] and of [add_atom], on residues
    other than the three water names, assemble from the empty one. *)
Inductive assembled : WaterNetwork -> Prop :=
| assembled_init : assembled WaterNetwork_init
| assembled_water (self : WaterNetwork) (index : Z)
    (o h1 h2 : TrajectoryAtom.t) (residue_number : Z) :
    assembled self ->
    assembled (add_water self index o h1 h2 residue_number)
| assembled_atom (self self' : WaterNetwork) (index : Z)
    (atom_name residue_name : string) (xyz : coord) (residue_number : Z)
    (msa_residue_number : option Z) :
    assembled self ->
    add_atom self index atom_name residue_name xyz residue_number
             msa_residue_number = Some self' ->
    assembled self'.

(** ** Networks of the examples *)

(** A water with its hydrogens 96 units from the oxygen, along x and y. *)
Definition water_at (index residue_number : Z) (xyz : coord)
  : WaterMolecule.t :=
  let '(x, y, z) := xyz in
  WaterMolecule_init residue_number
    (WaterAtom_init index "O" residue_number xyz)
    (WaterAtom_init (index + 1) "H1" residue_number (x + 96, y, z))
    (WaterAtom_init (index + 2) "H2" residue_number (x, y + 96, z))
    residue_number.

Definition waters_only (ws : list WaterMolecule.t) : WaterNetwork :=
  mk_WaterNetwork ws [] [] [] None None None.

(** [n] waters on the x axis, [step] apart, with oxygen indices 0, 3, 6,
    ... and residue numbers 1, 2, 3, ... *)
Definition water_line (n : nat) (step : Z) : list WaterMolecule.t :=
  map (fun i => water_at (3 * Z.of_nat i) (Z.of_nat i + 1)
                         (step * Z.of_nat i, 0, 0))
      (seq 0 n).

(** A donor water whose H1 points along x to the oxygen of an acceptor
    water 1.9 A from that hydrogen (lengths in 1/100 A); [donor] and
    [acceptor] are the two oxygen indices. *)
Definition hydrogen_bonded_pair (donor acceptor : Z)
  : list WaterMolecule.t :=
  [water_at donor 1 (0, 0, 0); water_at acceptor 2 (286, 0, 0)].

(** The angle of two vectors that lie along the x axis, in degrees, and
    not-a-number for the other vectors. *)
Definition angle_on_x_axis (u v : coord) : option Z :=
  match u, v with
  | (ux, 0, 0), (vx, 0, 0) =>
      if ux * vx <? 0 then Some 180
      else if 0 <? ux * vx then Some 0 else None
  | _, _ => None
  end.

(** Two waters 2.8 A apart, and a reference atom that has the second one
    only within 4 A. *)
Definition two_waters : WaterNetwork := waters_only (water_line 2 280).

Definition reference_near_second : list Reference.t :=
  [Reference.mk (600, 0, 0) 9].

(** A backbone nitrogen of residue 5, 1 A from a water and from a
    reference atom of residue 9. *)
Definition nitrogen_5 : OtherAtom.t :=
  OtherAtom.mk 10 (100, 0, 0) "ALA" None 5 "N" true.

Definition water_and_nitrogen : WaterNetwork :=
  mk_WaterNetwork (water_line 1 280) [nitrogen_5] [] [] None None None.

Definition water_and_nitrogen_subset : WaterNetwork :=
  mk_WaterNetwork (water_line 1 280) [nitrogen_5] [nitrogen_5] [] None None
                  None.

Definition reference_at_origin : list Reference.t :=
  [Reference.mk (0, 0, 0) 9].

(** Two waters 2.8 A apart and a third one 50 A away, as an oxygen
    network: a component of two nodes and a single point. *)
Definition pair_and_single : list WaterMolecule.t :=
  [water_at 0 1 (0, 0, 0); water_at 3 2 (280, 0, 0);
   water_at 6 3 (5000, 0, 0)].

Definition network_of (r : result (WaterNetwork * Graph)) : WaterNetwork :=
  match r with
  | Ok (self, _) => self
  | Raise _ => WaterNetwork_init
  end.

Definition pair_and_single_network : WaterNetwork :=
  network_of (generate_oxygen_network (waters_only pair_and_single)
                None None None 800 false true 330).

(** A water 3 A and a water 10 A from the origin. *)
Definition near_water : WaterMolecule.t := water_at 0 1 (300, 0, 0).
Definition far_water : WaterMolecule.t := water_at 3 2 (1000, 0, 0).
Definition near_and_far : WaterNetwork := waters_only [near_water; far_water].

Definition graph_of (r : result (WaterNetwork * Graph)) : Graph :=
  match r with
  | Ok (_, G) => G
  | Raise _ => nx_Graph
  end.

(** The connection of the hydrogen-bonded pair, and the connection of the
    water to the nitrogen. *)
Definition bonded_edge : connection :=
  mk_connection 0 3 "H1" "WAT-WAT" "None" None.

Definition nitrogen_edge : connection :=
  mk_connection 10 0 "N" "WAT-PROT" "None" (Some "backbone").

(** A network assembled by one call of [add_water] and one of [add_atom]. *)
Definition one_water : WaterNetwork :=
  add_water WaterNetwork_init 1 (TrajectoryAtom.mk 0 (0, 0, 0))
            (TrajectoryAtom.mk 1 (96, 0, 0)) (TrajectoryAtom.mk 2 (0, 96, 0))
            1.

Definition one_water_one_atom : WaterNetwork :=
  match add_atom one_water 10 "N" "ALA" (100, 0, 0) 5 None with
  | Some self => self
  | None => WaterNetwork_init
  end.

(** The box of the examples, 20 A wide. *)
Definition box_20 : option Box := Some (mk_Box 2000 2000 2000).

(** The water of [water_and_nitrogen], at the origin. *)
Definition origin_water : WaterMolecule.t := water_at 0 1 (0, 0, 0).

Definition pair_and_single_graph : Graph :=
  graph_of (generate_oxygen_network (waters_only pair_and_single)
              None None None 800 false true 330).

(** The active-site-only oxygen network of the water and the nitrogen,
    around a reference atom at the origin. *)
Definition active_nitrogen_run : result (WaterNetwork * Graph) :=
  generate_oxygen_network water_and_nitrogen None None
    (Some reference_at_origin) 500 true false 200.

(** The active-site-only oxygen network of two waters that are both within
    8 A of the reference atom. *)
Definition active_waters_run : result (WaterNetwork * Graph) :=
  generate_oxygen_network two_waters None None (Some reference_near_second)
    800 true true 330.

(** The directed network of the hydrogen-bonded pair, asked for with an
    angle criterion in the all-atoms mode. *)
Definition bonded_pair_run : result (WaterNetwork * Graph) :=
  generate_directed_network angle_on_x_axis
    (waters_only (hydrogen_bonded_pair 0 3)) None None None 800 false true
    (Some 150) 200.

(** ** Facts on the loops *)

Unset Implicit Arguments.

Lemma bind_Ok {A B : Type} (m : result A) (f : A -> result B) (b : B) :
  bind m f = Ok b -> exists a, m = Ok a /\ f a = Ok b.
Proof.
  destruct m as [a | e]; simpl; intros H; [exists a; auto | discriminate].
Qed.

Ltac inv_bind H :=
  let a := fresh "v" in
  let Ha := fresh "E" in
  apply bind_Ok in H; destruct H as (a & Ha & H).

Lemma for_each_Ok_inv {A B : Type} (body : A -> result (list B)) l r :
  for_each body l = Ok r ->
  exists outs, Forall2 (fun a o => body a = Ok o) l outs /\ r = concat outs.
Proof.
  revert r; induction l as [| a l IH]; simpl; intros r H.
  - inversion H; subst. exists []; split; [constructor | reflexivity].
  - inv_bind H. inv_bind H. inversion H; subst.
    destruct (IH _ E0) as (outs & Hf & ->).
    exists (v :: outs); split; [constructor; assumption | reflexivity].
Qed.

Lemma for_each_Ok_intro {A B : Type} (body : A -> result (list B)) l outs :
  Forall2 (fun a o => body a = Ok o) l outs ->
  for_each body l = Ok (concat outs).
Proof.
  induction 1 as [| a o l outs Ha _ IH]; simpl; [reflexivity |].
  rewrite Ha; simpl. rewrite IH; reflexivity.
Qed.

Lemma for_each_total {A B : Type} (body : A -> result (list B)) l :
  (forall a, In a l -> exists o, body a = Ok o) ->
  exists r, for_each body l = Ok r.
Proof.
  induction l as [| a l IH]; simpl; intros H; [eexists; reflexivity |].
  destruct (H a (or_introl eq_refl)) as (o & ->); simpl.
  destruct IH as (r & ->); [intros; apply H; right; assumption |].
  simpl; eexists; reflexivity.
Qed.

Lemma for_each_In {A B : Type} (body : A -> result (list B)) l r b :
  for_each body l = Ok r ->
  In b r -> exists a o, In a l /\ body a = Ok o /\ In b o.
Proof.
  revert r; induction l as [| a l IH]; simpl; intros r H Hb.
  - inversion H; subst; destruct Hb.
  - inv_bind H. inv_bind H. inversion H; subst.
    apply in_app_or in Hb; destruct Hb as [Hb | Hb].
    + exists a, v; auto.
    + destruct (IH _ E0 Hb) as (a' & o & Ha & Ho & Hin).
      exists a', o; auto.
Qed.

Lemma for_each_incl {A B : Type} (body : A -> result (list B)) l r a :
  for_each body l = Ok r ->
  In a l -> exists o, body a = Ok o /\ incl o r.
Proof.
  revert r; induction l as [| a' l IH]; simpl; intros r H Ha; [destruct Ha |].
  inv_bind H. inv_bind H. inversion H; subst.
  destruct Ha as [-> | Ha].
  - exists v; split; [assumption | apply incl_appl, incl_refl].
  - destruct (IH _ E0 Ha) as (o & Ho & Hincl).
    exists o; split; [assumption | apply incl_appr, Hincl].
Qed.

(** Outputs of distinct iterations have distinct keys, and each output has
    distinct keys: so has the whole output. *)
Lemma for_each_NoDup {A B K : Type} (key : B -> K)
  (body : A -> result (list B)) l r :
  for_each body l = Ok r ->
  (forall a o, In a l -> body a = Ok o -> NoDup (map key o)) ->
  ForallOrdPairs
    (fun a a' => forall o o' x x',
         body a = Ok o -> body a' = Ok o' -> In x o -> In x' o' ->
         key x <> key x') l ->
  NoDup (map key r).
Proof.
  revert r; induction l as [| a l IH]; simpl; intros r H Hin Hpairs.
  - inversion H; subst; constructor.
  - inv_bind H. inv_bind H. inversion H; subst; clear H.
    inversion Hpairs as [| ? ? Hhd Htl]; subst.
    rewrite map_app. apply NoDup_app.
    + apply (Hin a); auto.
    + apply IH; auto. intros; eapply Hin; eauto.
    + intros k Hk Hk'.
      apply in_map_iff in Hk; destruct Hk as (x & <- & Hx).
      apply in_map_iff in Hk'; destruct Hk' as (x' & Hkk & Hx').
      destruct (for_each_In _ _ _ _ E0 Hx') as (a' & o' & Ha' & Ho' & Hxo').
      rewrite Forall_forall in Hhd.
      apply (Hhd a' Ha' v o' x x' E Ho' Hx Hxo'). symmetry; exact Hkk.
Qed.

(** ** Facts on [enumerate] and on the k-d tree query *)

Lemma combine_seq_In {A : Type} (l : list A) (s i : nat) (x : A) :
  In (i, x) (combine (seq s (length l)) l) <->
  (s <= i)%nat /\ nth_error l (i - s) = Some x.
Proof.
  revert s; induction l as [| a l IH]; simpl; intros s.
  - split; [intros [] |]. intros [_ H]. destruct (i - s)%nat; discriminate.
  - rewrite IH. split.
    + intros [H | [Hle H]].
      * inversion H; subst. rewrite Nat.sub_diag. split; [lia | reflexivity].
      * split; [lia |]. replace (i - s)%nat with (S (i - S s)) by lia.
        exact H.
    + intros [Hle H]. destruct (Nat.eq_dec s i) as [-> | Hne].
      * rewrite Nat.sub_diag in H. simpl in H. left. congruence.
      * right. split; [lia |].
        replace (i - s)%nat with (S (i - S s)) in H by lia. exact H.
Qed.

Lemma enumerate_In {A : Type} (l : list A) (i : nat) (x : A) :
  In (i, x) (enumerate l) <-> nth_error l i = Some x.
Proof.
  unfold enumerate. rewrite combine_seq_In, Nat.sub_0_r.
  split; [intros [_ H]; exact H | intros H; split; [lia | exact H]].
Qed.

Lemma combine_seq_fst {A : Type} (l : list A) (s : nat) :
  map fst (combine (seq s (length l)) l) = seq s (length l).
Proof.
  revert s; induction l as [| a l IH]; simpl; intros s; [reflexivity |].
  rewrite IH; reflexivity.
Qed.

Lemma enumerate_fst {A : Type} (l : list A) :
  map fst (enumerate l) = seq 0 (length l).
Proof. apply combine_seq_fst. Qed.

Lemma enumerate_snd {A : Type} (l : list A) : map snd (enumerate l) = l.
Proof.
  unfold enumerate. generalize 0%nat.
  induction l as [| a l IH]; simpl; intros s; [reflexivity |].
  rewrite IH; reflexivity.
Qed.

(** In an enumeration, two entries at distinct positions have distinct
    numbers. *)
Lemma enumerate_pairs {A : Type} (l : list A) :
  ForallOrdPairs (fun a a' : nat * A => fst a <> fst a') (enumerate l).
Proof.
  unfold enumerate. generalize 0%nat.
  induction l as [| a l IH]; simpl; intros s; constructor.
  - rewrite Forall_forall. intros [i x] Hin. simpl.
    apply combine_seq_In in Hin. lia.
  - apply IH.
Qed.

Lemma firstn_In {A : Type} (n : nat) (l : list A) (x : A) :
  In x (firstn n l) -> In x l.
Proof.
  revert n; induction l as [| a l IH]; intros [| n]; simpl; try tauto.
  intros [H | H]; [left; exact H | right; eapply IH; exact H].
Qed.

Lemma insert_by_dist_perm x l : Permutation (x :: l) (insert_by_dist x l).
Proof.
  induction l as [| y l IH]; simpl; [apply Permutation_refl |].
  destruct (fst x <=? fst y); [apply Permutation_refl |].
  eapply perm_trans; [apply perm_swap | apply perm_skip, IH].
Qed.

Lemma sort_by_dist_perm l : Permutation l (sort_by_dist l).
Proof.
  induction l as [| x l IH]; simpl; [constructor |].
  eapply perm_trans; [apply perm_skip, IH | apply insert_by_dist_perm].
Qed.

Lemma candidates_In t q ub s j :
  In (s, j) (candidates t q ub) <->
  exists p, nth_error (data t) j = Some p
            /\ s = sqdist q p /\ lt_len s ub = true.
Proof.
  unfold candidates. rewrite filter_In, in_map_iff. simpl. split.
  - intros [([i p] & Heq & Hin) Hlt]. simpl in Heq. inversion Heq; subst.
    apply enumerate_In in Hin. exists p; auto.
  - intros (p & Hn & -> & Hlt). split; [| exact Hlt].
    exists (j, p). split; [reflexivity | apply enumerate_In, Hn].
Qed.

Lemma candidates_NoDup t q ub : NoDup (map snd (candidates t q ub)).
Proof.
  unfold candidates.
  assert (H : NoDup (map snd (map (fun jp : nat * coord =>
                                     (sqdist q (snd jp), fst jp))
                                  (enumerate (data t))))).
  { rewrite map_map. simpl. rewrite enumerate_fst. apply seq_NoDup. }
  revert H. generalize (map (fun jp : nat * coord =>
                               (sqdist q (snd jp), fst jp))
                            (enumerate (data t))).
  intros l; induction l as [| c l IH]; simpl; intros H; [constructor |].
  inversion H; subst. destruct (lt_len (fst c) ub); simpl; auto.
  constructor; auto.
  intros Hin; apply H2. apply in_map_iff in Hin.
  destruct Hin as (c' & Hc & Hin). apply filter_In in Hin.
  apply in_map_iff. exists c'; tauto.
Qed.

Lemma candidates_length t q ub :
  length (candidates t q ub)
  = length (filter (fun p => lt_len (sqdist q p) ub) (data t)).
Proof.
  unfold candidates, enumerate. generalize 0%nat.
  induction (data t) as [| p l IH]; simpl; intros s; [reflexivity |].
  destruct (lt_len (sqdist q p) ub); simpl; rewrite IH; reflexivity.
Qed.

Lemma filter_length_imp {A : Type} (f g : A -> bool) (l : list A) :
  (forall a, f a = true -> g a = true) ->
  (length (filter f l) <= length (filter g l))%nat.
Proof.
  intros Himp; induction l as [| a l IH]; simpl; [lia |].
  destruct (f a) eqn:Hf.
  - rewrite (Himp a Hf). simpl. lia.
  - destruct (g a); simpl; lia.
Qed.

Lemma lt_len_le_len s c : lt_len s c = true -> le_len s c = true.
Proof. unfold lt_len, le_len. lia. Qed.

(** A slot of a row that passes the test [distance <= dist_cutoff] holds a
    point of the tree, with its distance to the query point, which is less
    than the upper bound. *)
Lemma query_point_slot t k ub q d j c :
  In (d, j) (query_point t k ub q) ->
  edist_le d c = true ->
  exists p, nth_error (data t) j = Some p
            /\ d = Fin (sqdist q p) /\ lt_len (sqdist q p) ub = true.
Proof.
  unfold query_point, pad_row. intros Hin Hle.
  apply in_app_or in Hin. destruct Hin as [Hin | Hin].
  - apply in_map_iff in Hin. destruct Hin as ([s j'] & Heq & Hin).
    simpl in Heq. inversion Heq; subst.
    apply firstn_In in Hin.
    apply (Permutation_in _ (Permutation_sym (sort_by_dist_perm _))) in Hin.
    apply candidates_In in Hin. destruct Hin as (p & Hn & -> & Hlt).
    exists p; auto.
  - apply repeat_spec in Hin. inversion Hin; subst. discriminate.
Qed.

(** A point of the tree closer than the upper bound is in the row, when no
    more than [k] points are that close. *)
Lemma query_point_complete t k ub q j p :
  nth_error (data t) j = Some p ->
  lt_len (sqdist q p) ub = true ->
  (length (candidates t q ub) <= k)%nat ->
  In (Fin (sqdist q p), j) (query_point t k ub q).
Proof.
  intros Hn Hlt Hk. unfold query_point, pad_row.
  apply in_or_app; left.
  apply in_map_iff. exists (sqdist q p, j). split; [reflexivity |].
  rewrite firstn_all2.
  - apply (Permutation_in _ (sort_by_dist_perm _)).
    apply candidates_In. exists p; auto.
  - rewrite <- (Permutation_length (sort_by_dist_perm _)). exact Hk.
Qed.

(** The slots of a row that hold a point hold distinct points. *)
Lemma query_point_pairs t k ub q :
  ForallOrdPairs
    (fun s s' : edist * nat =>
       fst s <> Inf -> fst s' <> Inf -> snd s <> snd s')
    (query_point t k ub q).
Proof.
  unfold query_point, pad_row.
  assert (Hnd : NoDup (map snd (firstn k (sort_by_dist (candidates t q ub))))).
  { assert (H : NoDup (map snd (sort_by_dist (candidates t q ub)))).
    { eapply Permutation_NoDup;
        [apply Permutation_map, sort_by_dist_perm | apply candidates_NoDup]. }
    revert H. generalize (sort_by_dist (candidates t q ub)). clear.
    intros l; revert k; induction l as [| c l IH]; intros [| k] H; simpl;
      try constructor.
    - inversion H; subst. intros Hin; apply H2.
      apply in_map_iff in Hin. destruct Hin as (c' & Hc & Hin).
      apply firstn_In in Hin. apply in_map_iff. exists c'; auto.
    - inversion H; subst. apply IH; assumption. }
  revert Hnd. generalize (firstn k (sort_by_dist (candidates t q ub))).
  intros l. generalize (k - length (map (fun c : Z * nat =>
                                           (Fin (fst c), snd c)) l))%nat.
  intros m. induction l as [| c l IH]; simpl; intros Hnd.
  - induction m as [| m IHm]; simpl; constructor; [| exact IHm].
    rewrite Forall_forall. intros s _ H; simpl in H. congruence.
  - inversion Hnd; subst. constructor; [| apply IH; assumption].
    rewrite Forall_forall. intros [d j] Hin _ Hd. simpl in *.
    apply in_app_or in Hin. destruct Hin as [Hin | Hin].
    + apply in_map_iff in Hin. destruct Hin as (c' & Hc & Hin).
      inversion Hc; subst. intros Heq. apply H1.
      apply in_map_iff. exists c'; auto.
    + apply repeat_spec in Hin. inversion Hin; subst. congruence.
Qed.

(** ** Facts on [scan] *)

Lemma scan_In body t x k ub r c :
  scan body (query t x k ub) = Ok r ->
  In c r ->
  exists i q slot o,
    nth_error x i = Some q /\ In slot (query_point t k ub q)
    /\ body i slot = Ok o /\ In c o.
Proof.
  unfold scan. intros H Hc.
  destruct (for_each_In _ _ _ _ H Hc) as ([i row] & o & Hrow & Ho & Hin).
  simpl in Ho. apply enumerate_In in Hrow. unfold query in Hrow.
  rewrite nth_error_map in Hrow.
  destruct (nth_error x i) as [q |] eqn:Hq; [| discriminate].
  simpl in Hrow. inversion Hrow; subst.
  destruct (for_each_In _ _ _ _ Ho Hin) as (slot & o' & Hslot & Ho' & Hin').
  exists i, q, slot, o'; auto.
Qed.

Lemma scan_incl body t x k ub r i q slot :
  scan body (query t x k ub) = Ok r ->
  nth_error x i = Some q ->
  In slot (query_point t k ub q) ->
  exists o, body i slot = Ok o /\ incl o r.
Proof.
  unfold scan. intros H Hq Hslot.
  assert (Hrow : In (i, query_point t k ub q) (enumerate (query t x k ub))).
  { apply enumerate_In. unfold query. rewrite nth_error_map, Hq.
    reflexivity. }
  destruct (for_each_incl _ _ _ _ H Hrow) as (o & Ho & Hincl). simpl in Ho.
  destruct (for_each_incl _ _ _ _ Ho Hslot) as (o' & Ho' & Hincl').
  exists o'; split; [exact Ho' |].
  intros c Hc; apply Hincl, Hincl', Hc.
Qed.

Lemma scan_total body res :
  (forall i row slot, nth_error res i = Some row -> In slot row ->
                      exists o, body i slot = Ok o) ->
  exists r, scan body res = Ok r.
Proof.
  intros H. unfold scan. apply for_each_total.
  intros [i row] Hin. simpl. apply enumerate_In in Hin.
  apply for_each_total. intros slot Hslot. eapply H; eauto.
Qed.

Lemma query_row t x k ub i row :
  In (i, row) (enumerate (query t x k ub)) ->
  exists q, nth_error x i = Some q /\ row = query_point t k ub q.
Proof.
  intros H. apply enumerate_In in H. unfold query in H.
  rewrite nth_error_map in H.
  destruct (nth_error x i) as [q |]; [| discriminate].
  simpl in H. inversion H; subst. exists q; auto.
Qed.

Lemma FOP_impl {A : Type} (R R' : A -> A -> Prop) (l : list A) :
  (forall a b, In a l -> In b l -> R a b -> R' a b) ->
  ForallOrdPairs R l -> ForallOrdPairs R' l.
Proof.
  intros Himp H. induction H as [| a l Ha _ IH]; constructor.
  - rewrite Forall_forall in *. intros b Hb.
    apply Himp; [left; reflexivity | right; exact Hb | apply Ha, Hb].
  - apply IH. intros; apply Himp; auto; right; assumption.
Qed.

Lemma getitem_Ok {A : Type} (l : list A) (i : nat) (a : A) :
  getitem l i = Ok a <-> nth_error l i = Some a.
Proof.
  unfold getitem. destruct (nth_error l i); split; intros H;
    inversion H; subst; reflexivity.
Qed.

Lemma getitem_map_Ok {A B : Type} (f : A -> B) (l : list A) (i : nat) (b : B) :
  getitem (map f l) i = Ok b ->
  exists a, nth_error l i = Some a /\ b = f a.
Proof.
  rewrite getitem_Ok, nth_error_map.
  destruct (nth_error l i) as [a |]; simpl; intros H; inversion H.
  exists a; auto.
Qed.

Lemma NoDup_map_nth_error {A B : Type} (f : A -> B) (l : list A) i j a b :
  NoDup (map f l) ->
  nth_error l i = Some a -> nth_error l j = Some b -> f a = f b -> i = j.
Proof.
  intros Hnd Hi Hj Heq.
  rewrite NoDup_nth_error in Hnd. apply Hnd.
  - rewrite length_map. apply nth_error_Some. congruence.
  - rewrite !nth_error_map, Hi, Hj. simpl. congruence.
Qed.

(** ** The undirected finder: what a slot emits *)

Lemma ww_slot_out self cutoff waters i d n o x :
  ww_slot self cutoff waters (map O_index waters)
          (map (fun _ => "O") waters) i (d, n) = Ok o ->
  In x o ->
  exists wi wn,
    nth_error waters i = Some wi /\ nth_error waters n = Some wn
    /\ n <> i /\ edist_le d cutoff = true
    /\ O_index wi < O_index wn
    /\ x = mk_connection (O_index wi) (O_index wn) "O" "WAT-WAT"
                         (ww_status self wi) None.
Proof.
  unfold ww_slot. intros H Hx.
  destruct (negb (Nat.eqb n i) && edist_le d cutoff) eqn:Htest;
    [| inversion H; subst; destruct Hx].
  apply andb_true_iff in Htest. destruct Htest as [Hne Hle].
  apply negb_true_iff, Nat.eqb_neq in Hne.
  inv_bind H. inv_bind H. inv_bind H.
  apply getitem_map_Ok in E0. destruct E0 as (wi & Hwi & ->).
  apply getitem_map_Ok in E1. destruct E1 as (wn & Hwn & ->).
  destruct (O_index wi <? O_index wn) eqn:Hlt;
    [| inversion H; subst; destruct Hx].
  inv_bind H. apply getitem_map_Ok in E0. destruct E0 as (w' & _ & ->).
  inversion H; subst. destruct Hx as [<- | []].
  exists wi, wn. repeat split; auto; [lia |].
  f_equal. unfold ww_status.
  destruct (active_site self) as [act |]; [| inversion E; reflexivity].
  inv_bind E. apply getitem_Ok in E0. rewrite Hwi in E0.
  inversion E0; subst. inversion E; reflexivity.
Qed.

Lemma wp_slot_out self cutoff waters protein i d n o x :
  wp_slot self cutoff waters (map O_index waters) protein
          (map OtherAtom.index protein) (map OtherAtom.name protein)
          i (d, n) = Ok o ->
  In x o ->
  exists wi pn,
    nth_error waters i = Some wi /\ nth_error protein n = Some pn
    /\ edist_le d cutoff = true
    /\ index1 x = OtherAtom.index pn /\ index2 x = O_index wi
    /\ connection_type x = "WAT-PROT".
Proof.
  unfold wp_slot. intros H Hx.
  destruct (edist_le d cutoff) eqn:Hle; [| inversion H; subst; destruct Hx].
  inv_bind H. inv_bind H. inv_bind H. inv_bind H.
  apply getitem_map_Ok in E0. destruct E0 as (pn & Hpn & ->).
  apply getitem_map_Ok in E1. destruct E1 as (pn' & Hpn' & ->).
  apply getitem_map_Ok in E2. destruct E2 as (wi & Hwi & ->).
  rewrite Hpn in Hpn'. inversion Hpn'; subst.
  inversion H; subst. destruct Hx as [<- | []].
  exists wi, pn'. repeat split; auto.
Qed.


(** ** The water-water and the water-protein part of [find_connections] *)

Lemma find_connections_split self cutoff wa pa aso wo conns :
  find_connections self cutoff wa pa aso wo = Ok conns ->
  exists waters tree ww wp,
    scope aso wa (water_molecules self) = Some waters
    /\ cKDTree (np_array (map O_coordinates waters)) = Ok tree
    /\ scan (ww_slot self cutoff waters (map O_index waters)
                     (map (fun _ => "O") waters))
            (query tree (rows (np_array (map O_coordinates waters))) 10
                   cutoff) = Ok ww
    /\ (if negb wo then
          exists protein ptree,
            scope aso pa (protein_atoms self) = Some protein
            /\ cKDTree (np_array (map OtherAtom.coordinates protein))
               = Ok ptree
            /\ scan (wp_slot self cutoff waters (map O_index waters) protein
                             (map OtherAtom.index protein)
                             (map OtherAtom.name protein))
                    (query ptree
                           (rows (np_array (map O_coordinates waters))) 10
                           cutoff) = Ok wp
        else wp = [])
    /\ conns = ww ++ wp.
Proof.
  unfold find_connections, scope. intros H.
  inv_bind H. inv_bind H. inv_bind H. inv_bind H. inversion H; subst.
  exists v, v0, v1, v2.
  assert (Hw : (if aso then wa else Some (water_molecules self)) = Some v).
  { destruct (if aso then wa else Some (water_molecules self));
      simpl in E; inversion E; reflexivity. }
  repeat split; auto.
  destruct (negb wo); [| inversion E2; reflexivity].
  inv_bind E2. inv_bind E2. exists v3, v4.
  repeat split; auto.
  destruct (if aso then pa else Some (protein_atoms self));
    simpl in E3; inversion E3; reflexivity.
Qed.

(** The data of the tree are the points given, when the tree is built. *)
Lemma cKDTree_data l tree :
  cKDTree (np_array l) = Ok tree ->
  data tree = l /\ rows (np_array l) = l /\ l <> [].
Proof.
  destruct l; simpl; unfold cKDTree; simpl; intros H; inversion H.
  repeat split; discriminate.
Qed.


Lemma ww_part_out self cutoff waters tree ww x :
  cKDTree (np_array (map O_coordinates waters)) = Ok tree ->
  scan (ww_slot self cutoff waters (map O_index waters)
                (map (fun _ => "O") waters))
       (query tree (rows (np_array (map O_coordinates waters))) 10 cutoff)
  = Ok ww ->
  In x ww ->
  exists i n wi wn,
    nth_error waters i = Some wi /\ nth_error waters n = Some wn
    /\ n <> i
    /\ le_len (sqdist (O_coordinates wi) (O_coordinates wn)) cutoff = true
    /\ O_index wi < O_index wn
    /\ x = mk_connection (O_index wi) (O_index wn) "O" "WAT-WAT"
                         (ww_status self wi) None.
Proof.
  intros Ht Hscan Hx.
  destruct (cKDTree_data _ _ Ht) as (Hdata & Hrows & _).
  rewrite Hrows in Hscan.
  destruct (scan_In _ _ _ _ _ _ _ Hscan Hx)
    as (i & q & [d n] & o & Hq & Hslot & Ho & Hin).
  destruct (ww_slot_out _ _ _ _ _ _ _ _ Ho Hin)
    as (wi & wn & Hwi & Hwn & Hne & Hle & Hlt & ->).
  destruct (query_point_slot _ _ _ _ _ _ _ Hslot Hle)
    as (p & Hp & -> & _).
  rewrite Hdata in Hp. rewrite nth_error_map, Hwn in Hp.
  rewrite nth_error_map, Hwi in Hq.
  simpl in Hp, Hq. inversion Hp; inversion Hq; subst.
  exists i, n, wi, wn. repeat split; auto.
Qed.

Lemma wp_part_out self cutoff waters protein ptree wp x :
  waters <> [] ->
  cKDTree (np_array (map OtherAtom.coordinates protein)) = Ok ptree ->
  scan (wp_slot self cutoff waters (map O_index waters) protein
                (map OtherAtom.index protein) (map OtherAtom.name protein))
       (query ptree (rows (np_array (map O_coordinates waters))) 10 cutoff)
  = Ok wp ->
  In x wp ->
  exists wi pn,
    In wi waters /\ In pn protein
    /\ le_len (sqdist (O_coordinates wi) (OtherAtom.coordinates pn)) cutoff
       = true
    /\ index1 x = OtherAtom.index pn /\ index2 x = O_index wi
    /\ connection_type x = "WAT-PROT".
Proof.
  intros Hne Ht Hscan Hx.
  destruct (cKDTree_data _ _ Ht) as (Hdata & _ & _).
  assert (Hrows : rows (np_array (map O_coordinates waters))
                  = map O_coordinates waters).
  { destruct waters; [contradiction | reflexivity]. }
  rewrite Hrows in Hscan.
  destruct (scan_In _ _ _ _ _ _ _ Hscan Hx)
    as (i & q & [d n] & o & Hq & Hslot & Ho & Hin).
  destruct (wp_slot_out _ _ _ _ _ _ _ _ _ Ho Hin)
    as (wi & pn & Hwi & Hpn & Hle & H1 & H2 & H3).
  destruct (query_point_slot _ _ _ _ _ _ _ Hslot Hle)
    as (p & Hp & -> & _).
  rewrite Hdata in Hp. rewrite nth_error_map, Hpn in Hp.
  rewrite nth_error_map, Hwi in Hq.
  simpl in Hp, Hq. inversion Hp; inversion Hq; subst.
  exists wi, pn. repeat split; auto; eapply nth_error_In; eauto.
Qed.

Lemma filter_all {A : Type} (f : A -> bool) (l : list A) :
  (forall a, In a l -> f a = true) -> filter f l = l.
Proof.
  induction l as [| a l IH]; simpl; intros H; [reflexivity |].
  rewrite (H a (or_introl eq_refl)), IH; auto.
Qed.

Lemma filter_none {A : Type} (f : A -> bool) (l : list A) :
  (forall a, In a l -> f a = false) -> filter f l = [].
Proof.
  induction l as [| a l IH]; simpl; intros H; [reflexivity |].
  rewrite (H a (or_introl eq_refl)), IH; auto.
Qed.

(** C2.  Every WAT-WAT connection that [find_connections] returns lists the
    lower oxygen index first, and no unordered pair of oxygen indices
    occurs twice among them, the oxygen indices of the waters searched
    being distinct. *)
Theorem find_connections_lower_first_once
  self cutoff wa pa aso wo waters conns :
  scope aso wa (water_molecules self) = Some waters ->
  NoDup (map O_index waters) ->
  find_connections self cutoff wa pa aso wo = Ok conns ->
  (forall c, In c conns -> connection_type c = "WAT-WAT" ->
             index1 c < index2 c)
  /\ NoDup (map unordered_pair (filter is_wat_wat conns)).
Proof.
  intros Hscope Hnd H.
  destruct (find_connections_split _ _ _ _ _ _ _ H)
    as (waters' & tree & ww & wp & Hscope' & Ht & Hww & Hwp & ->).
  rewrite Hscope in Hscope'. inversion Hscope'; subst waters'.
  assert (Hne : waters <> []).
  { destruct (cKDTree_data _ _ Ht) as (_ & _ & Hm).
    intros ->. apply Hm. reflexivity. }
  assert (Hprot : forall x, In x wp -> connection_type x = "WAT-PROT").
  { intros x Hx. destruct (negb wo); [| subst; destruct Hx].
    destruct Hwp as (protein & ptree & _ & Hpt & Hscan).
    destruct (wp_part_out _ _ _ _ _ _ _ Hne Hpt Hscan Hx)
      as (? & ? & ? & ? & ? & ? & ? & Hty). exact Hty. }
  split.
  - intros c Hc Hty. apply in_app_or in Hc. destruct Hc as [Hc | Hc].
    + destruct (ww_part_out _ _ _ _ _ _ Ht Hww Hc)
        as (i & n & wi & wn & _ & _ & _ & _ & Hlt & ->). exact Hlt.
    + rewrite (Hprot c Hc) in Hty. discriminate.
  - rewrite filter_app.
    rewrite (filter_none is_wat_wat wp).
    2:{ intros x Hx. unfold is_wat_wat. rewrite (Hprot x Hx). reflexivity. }
    rewrite app_nil_r. rewrite filter_all.
    2:{ intros x Hx. destruct (ww_part_out _ _ _ _ _ _ Ht Hww Hx)
          as (i & n & wi & wn & _ & _ & _ & _ & _ & ->). reflexivity. }
    destruct (cKDTree_data _ _ Ht) as (Hdata & Hrows & _).
    unfold scan in Hww.
    apply (for_each_NoDup unordered_pair _ _ _ Hww).
    + intros [i row] o Hrow Ho. simpl in Ho.
      destruct (query_row _ _ _ _ _ _ Hrow) as (q & Hq & ->).
      apply (for_each_NoDup unordered_pair _ _ _ Ho).
      * intros [d n] o' _ Ho'.
        assert (Hlen : (length o' <= 1)%nat).
        { revert Ho'. unfold ww_slot.
          repeat match goal with
                 | |- context [if ?b then _ else _] => destruct b
                 | |- context [bind ?m _] => destruct m; simpl
                 | |- context [match ?m with Some _ => _ | None => _ end] =>
                     destruct m; simpl
                 end; intros Ho'; inversion Ho'; simpl; lia. }
        destruct o' as [| x [| y o']]; simpl in *; try lia;
          repeat constructor; auto.
      * eapply FOP_impl; [| apply query_point_pairs].
        intros [d n] [d' n'] _ _ Hpair o1 o2 x x' Ho1 Ho2 Hx Hx'. simpl in *.
        destruct (ww_slot_out _ _ _ _ _ _ _ _ Ho1 Hx)
          as (wi & wn & Hwi & Hwn & _ & Hle & Hlt & ->).
        destruct (ww_slot_out _ _ _ _ _ _ _ _ Ho2 Hx')
          as (wi' & wn' & Hwi' & Hwn' & _ & Hle' & Hlt' & ->).
        unfold unordered_pair; simpl. intros Heq.
        assert (O_index wn = O_index wn') by (inversion Heq; lia).
        apply Hpair.
        -- destruct d; [discriminate | discriminate Hle].
        -- destruct d'; [discriminate | discriminate Hle'].
        -- eapply (NoDup_map_nth_error O_index); eauto.
    + eapply FOP_impl; [| apply enumerate_pairs].
      intros [i row] [i' row'] _ _ Hii o1 o2 x x' Ho1 Ho2 Hx Hx'. simpl in *.
      destruct (for_each_In _ _ _ _ Ho1 Hx)
        as ([d n] & o & _ & Ho & Hin).
      destruct (for_each_In _ _ _ _ Ho2 Hx')
        as ([d' n'] & o' & _ & Ho' & Hin').
      destruct (ww_slot_out _ _ _ _ _ _ _ _ Ho Hin)
        as (wi & wn & Hwi & Hwn & _ & Hle & Hlt & ->).
      destruct (ww_slot_out _ _ _ _ _ _ _ _ Ho' Hin')
        as (wi' & wn' & Hwi' & Hwn' & _ & Hle' & Hlt' & ->).
      unfold unordered_pair; simpl. intros Heq.
      assert (O_index wi = O_index wi') by (inversion Heq; lia).
      apply Hii. eapply (NoDup_map_nth_error O_index); eauto.
Qed.

(** ** The undirected finder finds the close pairs *)

Lemma getitem_map_nth {A B : Type} (f : A -> B) (l : list A) i a :
  nth_error l i = Some a -> getitem (map f l) i = Ok (f a).
Proof. intros H. apply getitem_Ok. rewrite nth_error_map, H. reflexivity. Qed.

Lemma filter_map_length {A B : Type} (f : A -> B) (p : B -> bool) l :
  length (filter p (map f l)) = length (filter (fun a => p (f a)) l).
Proof.
  induction l as [| a l IH]; simpl; [reflexivity |].
  destruct (p (f a)); simpl; rewrite IH; reflexivity.
Qed.

Lemma candidates_within t q cutoff :
  (length (candidates t q cutoff) <= within cutoff q (data t))%nat.
Proof.
  rewrite candidates_length. unfold within.
  apply filter_length_imp. intros; apply lt_len_le_len; assumption.
Qed.


(** ** The three scans of [find_directed_connections] *)

Lemma H_rows_owner waters :
  flat_map (fun mol => [O_index mol; O_index mol]) waters
  = map H_owner (H_rows waters).
Proof.
  induction waters as [| w l IH]; simpl; [reflexivity |].
  rewrite IH; reflexivity.
Qed.

Lemma H_rows_coordinates waters :
  flat_map (fun mol => [H1_coordinates mol; H2_coordinates mol]) waters
  = map H_coordinates (H_rows waters).
Proof.
  induction waters as [| w l IH]; simpl; [reflexivity |].
  rewrite IH; reflexivity.
Qed.

Lemma H_rows_name waters :
  flat_map (fun _ : WaterMolecule.t => ["H1"; "H2"]) waters
  = map H_name (H_rows waters).
Proof.
  induction waters as [| w l IH]; simpl; [reflexivity |].
  rewrite IH; reflexivity.
Qed.

Lemma H_rows_In h waters :
  In h (H_rows waters) <->
  exists w, In w waters
            /\ (h = (O_index w, H1_coordinates w, "H1")
                \/ h = (O_index w, H2_coordinates w, "H2")).
Proof.
  unfold H_rows. rewrite in_flat_map. simpl.
  split; intros (w & Hw & H); exists w; split; auto;
    destruct H as [H | H]; auto; destruct H as [H | H]; auto; destruct H.
Qed.

Lemma H_rows_nth waters a w :
  nth_error waters a = Some w ->
  nth_error (H_rows waters) (2 * a)
  = Some (O_index w, H1_coordinates w, "H1")
  /\ nth_error (H_rows waters) (2 * a + 1)
     = Some (O_index w, H2_coordinates w, "H2").
Proof.
  revert a; induction waters as [| w' l IH]; intros [| a] H;
    simpl in H; try discriminate.
  - inversion H; subst. split; reflexivity.
  - replace (2 * S a)%nat with (S (S (2 * a))) by lia.
    replace (S (S (2 * a)) + 1)%nat with (S (S (2 * a + 1))) by lia.
    simpl. apply IH, H.
Qed.

(** The directed finder as the sequence of its three scans. *)
Lemma find_directed_connections_eq angle self cutoff aso acr wa pa wo :
  find_directed_connections angle self cutoff aso acr wa pa wo
  = (waters <- iter (scope aso wa (water_molecules self)) ;;
     let hs := H_rows waters in
     wp <- (if negb wo then
              protein <- iter (scope aso pa (protein_atoms self)) ;;
              hw <- scan (protH_slot self cutoff aso acr
                            (map H_owner hs) (map O_index waters)
                            (map O_coordinates waters)
                            (map OtherAtom.coordinates (donors protein))
                            (map OtherAtom.index (donors protein))
                            (map OtherAtom.name (donors protein)))
                         (query (mk_tree (map OtherAtom.coordinates
                                              (donors protein)))
                                (map O_coordinates waters) 10 cutoff) ;;
              ow <- scan (protO_slot self cutoff aso acr
                            (map H_owner hs) (map H_coordinates hs)
                            (map H_name hs)
                            (map OtherAtom.coordinates (acceptors protein))
                            (map OtherAtom.index (acceptors protein)))
                         (query (mk_tree (map OtherAtom.coordinates
                                              (acceptors protein)))
                                (map H_coordinates hs) 10 cutoff) ;;
              Ok (hw ++ ow)
            else Ok []) ;;
     ww <- scan (wat_slot angle self cutoff aso acr
                   (map H_owner hs) (map O_index waters)
                   (map H_coordinates hs) (map O_coordinates waters)
                   (map H_name hs))
                (query (mk_tree (map O_coordinates waters))
                       (map H_coordinates hs) 5 cutoff) ;;
     Ok (wp ++ ww)).
Proof.
  unfold find_directed_connections, scope.
  destruct (if aso then wa else Some (water_molecules self)) as [waters |];
    simpl; [| reflexivity].
  rewrite H_rows_owner, H_rows_coordinates, H_rows_name.
  destruct wo; simpl; [reflexivity |].
  destruct (if aso then pa else Some (protein_atoms self)) as [protein |];
    reflexivity.
Qed.

Lemma directed_status_Ok self aso a b :
  exists s, directed_status self aso (Ok a) (Ok b) = Ok s.
Proof.
  unfold directed_status. destruct (negb aso); [| eexists; reflexivity].
  destruct (active_site self) as [[| f act] |]; simpl; eexists; reflexivity.
Qed.

Lemma protH_slot_out self cutoff aso acr hs waters ocoords ds r d ref o x :
  protH_slot self cutoff aso acr (map H_owner hs) (map O_index waters)
             ocoords (map OtherAtom.coordinates ds)
             (map OtherAtom.index ds) (map OtherAtom.name ds) r (d, ref)
  = Ok o ->
  In x o ->
  acr = None
  /\ exists w p,
      nth_error waters r = Some w /\ nth_error ds ref = Some p
      /\ edist_le d cutoff = true
      /\ x = mk_connection (OtherAtom.index p) (O_index w)
                           (OtherAtom.name p) "WAT-PROT" (site_status x) None.
Proof.
  unfold protH_slot. intros H Hx.
  destruct (edist_le d cutoff) eqn:Hle; [| inversion H; subst; destruct Hx].
  inv_bind H. destruct acr as [thr |].
  - exfalso. inv_bind H. inv_bind H. inv_bind H. inv_bind H. inv_bind H.
    inv_bind H. discriminate.
  - split; [reflexivity |].
    inv_bind H. inv_bind H. inv_bind H.
    apply getitem_map_Ok in E0. destruct E0 as (p & Hp & ->).
    apply getitem_map_Ok in E1. destruct E1 as (w & Hw & ->).
    apply getitem_map_Ok in E2. destruct E2 as (p' & Hp' & ->).
    rewrite Hp in Hp'. inversion Hp'; subst p'.
    inversion H; subst. destruct Hx as [<- | []].
    exists w, p. repeat split; auto.
Qed.

Lemma protO_slot_out self cutoff aso acr hs as_ r d ref o x :
  protO_slot self cutoff aso acr (map H_owner hs) (map H_coordinates hs)
             (map H_name hs) (map OtherAtom.coordinates as_)
             (map OtherAtom.index as_) r (d, ref)
  = Ok o ->
  In x o ->
  acr = None
  /\ exists h p,
      nth_error hs r = Some h /\ nth_error as_ ref = Some p
      /\ edist_le d cutoff = true
      /\ x = mk_connection (H_owner h) (OtherAtom.index p) (H_name h)
                           "WAT-PROT" (site_status x) None.
Proof.
  unfold protO_slot. intros H Hx.
  destruct (edist_le d cutoff) eqn:Hle; [| inversion H; subst; destruct Hx].
  inv_bind H. destruct acr as [thr |].
  - exfalso. inv_bind H. inv_bind H. inv_bind H. discriminate.
  - split; [reflexivity |].
    inv_bind H. inv_bind H. inv_bind H.
    apply getitem_map_Ok in E0. destruct E0 as (h & Hh & ->).
    apply getitem_map_Ok in E1. destruct E1 as (p & Hp & ->).
    apply getitem_map_Ok in E2. destruct E2 as (h' & Hh' & ->).
    rewrite Hh in Hh'. inversion Hh'; subst h'.
    inversion H; subst. destruct Hx as [<- | []].
    exists h, p. repeat split; auto.
Qed.

Lemma wat_slot_out angle self cutoff aso acr hs waters r d ref o x :
  wat_slot angle self cutoff aso acr (map H_owner hs) (map O_index waters)
           (map H_coordinates hs) (map O_coordinates waters)
           (map H_name hs) r (d, ref)
  = Ok o ->
  In x o ->
  exists h w,
    nth_error hs r = Some h /\ nth_error waters ref = Some w
    /\ edist_le d cutoff = true
    /\ H_owner h < O_index w
    /\ x = mk_connection (H_owner h) (O_index w) (H_name h) "WAT-WAT"
                         (site_status x) None
    /\ (forall threshold, acr = Some threshold ->
        angle_ge (computed_angle angle self h (O_coordinates w)) threshold
        = true).
Proof.
  unfold wat_slot. intros H Hx.
  destruct (edist_le d cutoff) eqn:Hle; [| inversion H; subst; destruct Hx].
  inv_bind H. inv_bind H. inv_bind H.
  apply getitem_map_Ok in E0. destruct E0 as (h & Hh & ->).
  apply getitem_map_Ok in E1. destruct E1 as (w & Hw & ->).
  destruct (negb (H_owner h =? O_index w));
    [| inversion H; subst; destruct Hx].
  destruct acr as [thr |].
  - inv_bind H. inv_bind H. inv_bind H.
    apply getitem_map_Ok in E0. destruct E0 as (h' & Hh' & ->).
    apply getitem_map_Ok in E1. destruct E1 as (w' & Hw' & ->).
    rewrite Hh in Hh'. inversion Hh'; subst h'.
    rewrite Hw in Hw'. inversion Hw'; subst w'.
    destruct (angle_ge _ thr && (H_owner h <? O_index w)) eqn:Htest;
      [| inversion H; subst; destruct Hx].
    apply andb_true_iff in Htest. destruct Htest as [Hang Hlt].
    inv_bind H. apply getitem_map_Ok in E0. destruct E0 as (h2 & Hh2 & ->).
    rewrite Hh in Hh2. inversion Hh2; subst h2.
    inversion H; subst. destruct Hx as [<- | []].
    exists h, w. repeat split; auto; [lia |].
    intros threshold Hthr. inversion Hthr; subst threshold.
    unfold computed_angle.
    apply getitem_Ok in E2.
    destruct (filter (fun water => O_index water =? H_owner h)
                     (water_molecules self)) as [| donor rest];
      simpl in E2; [discriminate |].
    inversion E2; subst. exact Hang.
  - destruct (H_owner h <? O_index w) eqn:Hlt;
      [| inversion H; subst; destruct Hx].
    inv_bind H. apply getitem_map_Ok in E0. destruct E0 as (h' & Hh' & ->).
    rewrite Hh in Hh'. inversion Hh'; subst h'.
    inversion H; subst. destruct Hx as [<- | []].
    exists h, w. repeat split; auto; [lia |].
    intros threshold Hthr. discriminate.
Qed.

Lemma iter_Ok {A : Type} (o : option (list A)) l :
  iter o = Ok l <-> o = Some l.
Proof. destruct o; simpl; split; intros H; inversion H; reflexivity. Qed.

Lemma find_directed_connections_split angle self cutoff aso acr wa pa wo
  conns :
  find_directed_connections angle self cutoff aso acr wa pa wo = Ok conns ->
  exists waters wp ww,
    scope aso wa (water_molecules self) = Some waters
    /\ (if negb wo then
          exists protein hw ow,
            scope aso pa (protein_atoms self) = Some protein
            /\ scan (protH_slot self cutoff aso acr
                       (map H_owner (H_rows waters)) (map O_index waters)
                       (map O_coordinates waters)
                       (map OtherAtom.coordinates (donors protein))
                       (map OtherAtom.index (donors protein))
                       (map OtherAtom.name (donors protein)))
                    (query (mk_tree (map OtherAtom.coordinates
                                         (donors protein)))
                           (map O_coordinates waters) 10 cutoff) = Ok hw
            /\ scan (protO_slot self cutoff aso acr
                       (map H_owner (H_rows waters))
                       (map H_coordinates (H_rows waters))
                       (map H_name (H_rows waters))
                       (map OtherAtom.coordinates (acceptors protein))
                       (map OtherAtom.index (acceptors protein)))
                    (query (mk_tree (map OtherAtom.coordinates
                                         (acceptors protein)))
                           (map H_coordinates (H_rows waters)) 10 cutoff)
               = Ok ow
            /\ wp = hw ++ ow
        else wp = [])
    /\ scan (wat_slot angle self cutoff aso acr
               (map H_owner (H_rows waters)) (map O_index waters)
               (map H_coordinates (H_rows waters))
               (map O_coordinates waters) (map H_name (H_rows waters)))
            (query (mk_tree (map O_coordinates waters))
                   (map H_coordinates (H_rows waters)) 5 cutoff) = Ok ww
    /\ conns = wp ++ ww.
Proof.
  rewrite find_directed_connections_eq. intros H.
  apply bind_Ok in H. destruct H as (waters & Hw & H). simpl in H.
  apply bind_Ok in H. destruct H as (wp & Hwp & H).
  apply bind_Ok in H. destruct H as (ww & Hww & H).
  inversion H; subst. apply iter_Ok in Hw.
  exists waters, wp, ww. repeat split; auto.
  destruct (negb wo); [| inversion Hwp; reflexivity].
  apply bind_Ok in Hwp. destruct Hwp as (protein & Hp & Hwp).
  apply bind_Ok in Hwp. destruct Hwp as (hw & Hhw & Hwp).
  apply bind_Ok in Hwp. destruct Hwp as (ow & How & Hwp).
  inversion Hwp; subst. apply iter_Ok in Hp.
  exists protein, hw, ow. repeat split; auto.
Qed.

Lemma slot_close t k ub q d j c (l : list coord) :
  data t = l ->
  In (d, j) (query_point t k ub q) ->
  edist_le d c = true ->
  exists p, nth_error l j = Some p /\ le_len (sqdist q p) c = true.
Proof.
  intros Hd Hin Hle.
  destruct (query_point_slot _ _ _ _ _ _ _ Hin Hle) as (p & Hp & -> & _).
  rewrite Hd in Hp. exists p; auto.
Qed.


(** ** The directed finder without angle criterion finds the close pairs *)




(** ** No edge beyond the cutoff, and the close pairs that are found *)





(** ** When the finders return *)

Lemma query_rows_total body t x k ub :
  (forall i q slot, nth_error x i = Some q ->
                    In slot (query_point t k ub q) ->
                    exists o, body i slot = Ok o) ->
  exists r, scan body (query t x k ub) = Ok r.
Proof.
  intros H. apply scan_total. intros i row slot Hrow Hslot.
  unfold query in Hrow. rewrite nth_error_map in Hrow.
  destruct (nth_error x i) as [q |] eqn:Hq; [| discriminate].
  simpl in Hrow. inversion Hrow; subst. eapply H; eauto.
Qed.

Lemma nth_error_map_Some {A B : Type} (f : A -> B) l i b :
  nth_error (map f l) i = Some b -> exists a, nth_error l i = Some a.
Proof.
  rewrite nth_error_map. destruct (nth_error l i) as [a |];
    [exists a; reflexivity | discriminate].
Qed.

Lemma ww_slot_total self cutoff waters i wi d n :
  nth_error waters i = Some wi ->
  (edist_le d cutoff = true -> exists wn, nth_error waters n = Some wn) ->
  exists o, ww_slot self cutoff waters (map O_index waters)
                    (map (fun _ => "O") waters) i (d, n) = Ok o.
Proof.
  intros Hwi Hn. unfold ww_slot.
  destruct (negb (Nat.eqb n i) && edist_le d cutoff) eqn:Htest;
    [| eexists; reflexivity].
  apply andb_true_iff in Htest. destruct Htest as [_ Hle].
  destruct (Hn Hle) as (wn & Hwn).
  rewrite (getitem_map_nth O_index _ _ _ Hwi).
  rewrite (getitem_map_nth O_index _ _ _ Hwn).
  rewrite (getitem_map_nth (fun _ => "O") _ _ _ Hwi).
  rewrite (proj2 (getitem_Ok _ _ _) Hwi).
  destruct (active_site self); simpl;
    destruct (O_index wi <? O_index wn); eexists; reflexivity.
Qed.

Lemma wp_slot_total self cutoff waters protein i wi d n :
  nth_error waters i = Some wi ->
  (edist_le d cutoff = true -> exists pn, nth_error protein n = Some pn) ->
  exists o, wp_slot self cutoff waters (map O_index waters) protein
                    (map OtherAtom.index protein)
                    (map OtherAtom.name protein) i (d, n) = Ok o.
Proof.
  intros Hwi Hn. unfold wp_slot.
  destruct (edist_le d cutoff) eqn:Hle; [| eexists; reflexivity].
  destruct (Hn eq_refl) as (pn & Hpn).
  rewrite (getitem_map_nth O_index _ _ _ Hwi).
  rewrite (getitem_map_nth OtherAtom.index _ _ _ Hpn).
  rewrite (getitem_map_nth OtherAtom.name _ _ _ Hpn).
  rewrite (proj2 (getitem_Ok _ _ _) Hwi).
  rewrite (proj2 (getitem_Ok _ _ _) Hpn).
  destruct (active_site self); simpl; eexists; reflexivity.
Qed.

(** [find_connections] returns when there is a water and, unless
    [water_only], a protein atom to search. *)
Lemma find_connections_total self cutoff wa pa aso wo waters :
  scope aso wa (water_molecules self) = Some waters ->
  waters <> [] ->
  (wo = true
   \/ exists ps, scope aso pa (protein_atoms self) = Some ps /\ ps <> []) ->
  exists conns, find_connections self cutoff wa pa aso wo = Ok conns.
Proof.
  unfold scope. intros Hscope Hne Hprot. unfold find_connections.
  rewrite Hscope. simpl.
  assert (Hrows : rows (np_array (map O_coordinates waters))
                  = map O_coordinates waters) by reflexivity.
  assert (Htree : cKDTree (np_array (map O_coordinates waters))
                  = Ok (mk_tree (map O_coordinates waters))).
  { destruct waters; [contradiction | reflexivity]. }
  rewrite Htree. simpl.
  destruct (query_rows_total
              (ww_slot self cutoff waters (map O_index waters)
                       (map (fun _ => "O") waters))
              (mk_tree (map O_coordinates waters))
              (map O_coordinates waters) 10 cutoff) as (ww & ->).
  { intros i q [d n] Hq Hslot.
    destruct (nth_error_map_Some _ _ _ _ Hq) as (wi & Hwi).
    apply (ww_slot_total _ _ _ _ wi); [exact Hwi |].
    intros Hle.
    destruct (query_point_slot _ _ _ _ _ _ _ Hslot Hle) as (p & Hp & _).
    simpl in Hp. eapply nth_error_map_Some; eauto. }
  simpl. destruct wo; simpl; [eexists; reflexivity |].
  destruct Hprot as [Hwo | (ps & Hps & Hpne)]; [discriminate |].
  rewrite Hps. simpl.
  assert (Hptree : cKDTree (np_array (map OtherAtom.coordinates ps))
                   = Ok (mk_tree (map OtherAtom.coordinates ps))).
  { destruct ps; [contradiction | reflexivity]. }
  rewrite Hptree. simpl.
  destruct (query_rows_total
              (wp_slot self cutoff waters (map O_index waters) ps
                       (map OtherAtom.index ps) (map OtherAtom.name ps))
              (mk_tree (map OtherAtom.coordinates ps))
              (map O_coordinates waters) 10 cutoff) as (wp & ->).
  { intros i q [d n] Hq Hslot.
    destruct (nth_error_map_Some _ _ _ _ Hq) as (wi & Hwi).
    apply (wp_slot_total _ _ _ _ _ wi); [exact Hwi |].
    intros Hle.
    destruct (query_point_slot _ _ _ _ _ _ _ Hslot Hle) as (p & Hp & _).
    simpl in Hp. eapply nth_error_map_Some; eauto. }
  simpl. eexists; reflexivity.
Qed.

(** [find_connections] raises when there is no water to search, and when
    protein atoms are asked for and there is none. *)
Lemma find_connections_no_water self cutoff wa pa aso wo :
  scope aso wa (water_molecules self) = Some [] ->
  find_connections self cutoff wa pa aso wo = Raise ValueError.
Proof.
  unfold scope. intros Hscope. unfold find_connections.
  rewrite Hscope. reflexivity.
Qed.

Lemma find_connections_no_protein self cutoff wa pa aso waters :
  scope aso wa (water_molecules self) = Some waters ->
  waters <> [] ->
  scope aso pa (protein_atoms self) = Some [] ->
  find_connections self cutoff wa pa aso false = Raise ValueError.
Proof.
  unfold scope. intros Hscope Hne Hps. unfold find_connections.
  rewrite Hscope, Hps. simpl.
  assert (Htree : cKDTree (np_array (map O_coordinates waters))
                  = Ok (mk_tree (map O_coordinates waters))).
  { destruct waters; [contradiction | reflexivity]. }
  rewrite Htree. simpl.
  destruct (query_rows_total
              (ww_slot self cutoff waters (map O_index waters)
                       (map (fun _ => "O") waters))
              (mk_tree (map O_coordinates waters))
              (map O_coordinates waters) 10 cutoff) as (ww & ->).
  { intros i q [d n] Hq Hslot.
    destruct (nth_error_map_Some _ _ _ _ Hq) as (wi & Hwi).
    apply (ww_slot_total _ _ _ _ wi); [exact Hwi |].
    intros Hle.
    destruct (query_point_slot _ _ _ _ _ _ _ Hslot Hle) as (p & Hp & _).
    simpl in Hp. eapply nth_error_map_Some; eauto. }
  reflexivity.
Qed.

Lemma wat_slot_total angle self cutoff aso acr hs waters r h d ref :
  nth_error hs r = Some h ->
  (edist_le d cutoff = true -> exists w, nth_error waters ref = Some w) ->
  (acr <> None ->
   exists donor, In donor (water_molecules self)
                 /\ O_index donor = H_owner h) ->
  exists o,
    wat_slot angle self cutoff aso acr (map H_owner hs) (map O_index waters)
             (map H_coordinates hs) (map O_coordinates waters)
             (map H_name hs) r (d, ref) = Ok o.
Proof.
  intros Hh Hw Hdonor. unfold wat_slot.
  destruct (edist_le d cutoff) eqn:Hle; [| eexists; reflexivity].
  destruct (Hw eq_refl) as (w & Hwn).
  rewrite (getitem_map_nth H_owner _ _ _ Hh).
  rewrite (getitem_map_nth O_index _ _ _ Hwn).
  rewrite (getitem_map_nth H_name _ _ _ Hh).
  rewrite (getitem_map_nth H_coordinates _ _ _ Hh).
  rewrite (getitem_map_nth O_coordinates _ _ _ Hwn).
  destruct (directed_status_Ok self aso (H_owner h) (O_index w)) as (s & ->).
  simpl. destruct (negb (H_owner h =? O_index w)); [| eexists; reflexivity].
  destruct acr as [threshold |].
  - destruct Hdonor as (donor & Hin & Hidx); [discriminate |].
    assert (Hf : In donor (filter (fun water => O_index water =? H_owner h)
                                  (water_molecules self))).
    { apply filter_In. split; [exact Hin | lia]. }
    destruct (filter (fun water => O_index water =? H_owner h)
                     (water_molecules self)) as [| first rest];
      [destruct Hf |].
    simpl.
    destruct (angle_ge _ threshold && (H_owner h <? O_index w));
      eexists; reflexivity.
  - destruct (H_owner h <? O_index w); eexists; reflexivity.
Qed.

Lemma protO_slot_total self cutoff aso hs as_ r h d ref :
  nth_error hs r = Some h ->
  (edist_le d cutoff = true -> exists p, nth_error as_ ref = Some p) ->
  exists o,
    protO_slot self cutoff aso None (map H_owner hs) (map H_coordinates hs)
               (map H_name hs) (map OtherAtom.coordinates as_)
               (map OtherAtom.index as_) r (d, ref) = Ok o.
Proof.
  intros Hh Hp. unfold protO_slot.
  destruct (edist_le d cutoff) eqn:Hle; [| eexists; reflexivity].
  destruct (Hp eq_refl) as (p & Hpn).
  rewrite (getitem_map_nth H_owner _ _ _ Hh).
  rewrite (getitem_map_nth OtherAtom.index _ _ _ Hpn).
  rewrite (getitem_map_nth H_name _ _ _ Hh).
  destruct (directed_status_Ok self aso (H_owner h) (OtherAtom.index p))
    as (s & ->).
  simpl. eexists; reflexivity.
Qed.

Lemma protH_slot_total self cutoff aso waters ds r w d ref :
  nth_error waters r = Some w ->
  (edist_le d cutoff = true -> exists p, nth_error ds ref = Some p) ->
  exists o,
    protH_slot self cutoff aso None (map H_owner (H_rows waters))
               (map O_index waters) (map O_coordinates waters)
               (map OtherAtom.coordinates ds) (map OtherAtom.index ds)
               (map OtherAtom.name ds) r (d, ref) = Ok o.
Proof.
  intros Hw Hp. unfold protH_slot.
  destruct (edist_le d cutoff) eqn:Hle; [| eexists; reflexivity].
  destruct (Hp eq_refl) as (p & Hpn).
  assert (Hr : exists a, getitem (map H_owner (H_rows waters)) r = Ok a).
  { destruct (H_rows_nth _ _ _ Hw) as (H1 & _).
    destruct (nth_error (H_rows waters) r) as [h |] eqn:Hh.
    - exists (H_owner h). apply getitem_map_nth, Hh.
    - exfalso. apply nth_error_None in Hh.
      assert (H : nth_error (H_rows waters) (2 * r) <> None) by congruence.
      apply nth_error_Some in H. lia. }
  destruct Hr as (a & ->).
  rewrite (getitem_map_nth OtherAtom.index _ _ _ Hpn).
  rewrite (getitem_map_nth O_index _ _ _ Hw).
  rewrite (getitem_map_nth OtherAtom.name _ _ _ Hpn).
  destruct (directed_status_Ok self aso a (OtherAtom.index p)) as (s & ->).
  simpl. eexists; reflexivity.
Qed.

Lemma slot_in_range t k ub q d j c (A : Type) (f : A -> coord) l :
  data t = map f l ->
  In (d, j) (query_point t k ub q) ->
  edist_le d c = true -> exists a, nth_error l j = Some a.
Proof.
  intros Hd Hin Hle.
  destruct (query_point_slot _ _ _ _ _ _ _ Hin Hle) as (p & Hp & _).
  rewrite Hd in Hp. eapply nth_error_map_Some; eauto.
Qed.

(** Without angle criterion [find_directed_connections] returns on every
    scope, empty ones included. *)
Lemma find_directed_connections_total angle self cutoff wa pa aso wo waters :
  scope aso wa (water_molecules self) = Some waters ->
  (wo = true \/ exists ps, scope aso pa (protein_atoms self) = Some ps) ->
  exists conns,
    find_directed_connections angle self cutoff aso None wa pa wo = Ok conns.
Proof.
  intros Hscope Hprot. rewrite find_directed_connections_eq, Hscope. simpl.
  destruct (query_rows_total
              (wat_slot angle self cutoff aso None
                 (map H_owner (H_rows waters)) (map O_index waters)
                 (map H_coordinates (H_rows waters))
                 (map O_coordinates waters) (map H_name (H_rows waters)))
              (mk_tree (map O_coordinates waters))
              (map H_coordinates (H_rows waters)) 5 cutoff) as (ww & Hww).
  { intros r q [d ref] Hq Hslot.
    destruct (nth_error_map_Some _ _ _ _ Hq) as (h & Hh).
    apply (wat_slot_total _ _ _ _ _ _ _ _ h); [exact Hh | | congruence].
    intros Hle. eapply slot_in_range; eauto. reflexivity. }
  destruct wo; simpl.
  - rewrite Hww. simpl. eexists; reflexivity.
  - destruct Hprot as [Hwo | (ps & Hps)]; [discriminate |].
    rewrite Hps. simpl.
    destruct (query_rows_total
                (protH_slot self cutoff aso None
                   (map H_owner (H_rows waters)) (map O_index waters)
                   (map O_coordinates waters)
                   (map OtherAtom.coordinates (donors ps))
                   (map OtherAtom.index (donors ps))
                   (map OtherAtom.name (donors ps)))
                (mk_tree (map OtherAtom.coordinates (donors ps)))
                (map O_coordinates waters) 10 cutoff) as (hw & ->).
    { intros r q [d ref] Hq Hslot.
      destruct (nth_error_map_Some _ _ _ _ Hq) as (w & Hw).
      apply (protH_slot_total _ _ _ _ _ _ w); [exact Hw |].
      intros Hle. eapply slot_in_range; eauto. reflexivity. }
    simpl.
    destruct (query_rows_total
                (protO_slot self cutoff aso None
                   (map H_owner (H_rows waters))
                   (map H_coordinates (H_rows waters))
                   (map H_name (H_rows waters))
                   (map OtherAtom.coordinates (acceptors ps))
                   (map OtherAtom.index (acceptors ps)))
                (mk_tree (map OtherAtom.coordinates (acceptors ps)))
                (map H_coordinates (H_rows waters)) 10 cutoff) as (ow & ->).
    { intros r q [d ref] Hq Hslot.
      destruct (nth_error_map_Some _ _ _ _ Hq) as (h & Hh).
      apply (protO_slot_total _ _ _ _ _ _ h); [exact Hh |].
      intros Hle. eapply slot_in_range; eauto. reflexivity. }
    simpl. rewrite Hww. simpl. eexists; reflexivity.
Qed.

(** On the waters of the network alone, [find_directed_connections]
    returns under every angle criterion. *)
Lemma find_directed_connections_total_waters angle self cutoff acr wa pa :
  exists conns,
    find_directed_connections angle self cutoff false acr wa pa true
    = Ok conns.
Proof.
  rewrite find_directed_connections_eq. simpl.
  destruct (query_rows_total
              (wat_slot angle self cutoff false acr
                 (map H_owner (H_rows (water_molecules self)))
                 (map O_index (water_molecules self))
                 (map H_coordinates (H_rows (water_molecules self)))
                 (map O_coordinates (water_molecules self))
                 (map H_name (H_rows (water_molecules self))))
              (mk_tree (map O_coordinates (water_molecules self)))
              (map H_coordinates (H_rows (water_molecules self))) 5 cutoff)
    as (ww & ->).
  { intros r q [d ref] Hq Hslot.
    destruct (nth_error_map_Some _ _ _ _ Hq) as (h & Hh).
    apply (wat_slot_total _ _ _ _ _ _ _ _ h); [exact Hh | |].
    - intros Hle. eapply slot_in_range; eauto. reflexivity.
    - intros _. apply nth_error_In in Hh. apply H_rows_In in Hh.
      destruct Hh as (w & Hw & [-> | ->]); exists w; auto. }
  simpl. eexists; reflexivity.
Qed.

(** ** The angle criterion only removes edges *)

Lemma for_each_lift {A B : Type} (f g : A -> result (list B)) l r :
  (forall a o, In a l -> f a = Ok o -> exists o', g a = Ok o' /\ incl o o') ->
  for_each f l = Ok r ->
  exists r', for_each g l = Ok r' /\ incl r r'.
Proof.
  revert r; induction l as [| a l IH]; simpl; intros r Hfg H.
  - inversion H; subst. exists []; split; [reflexivity | apply incl_refl].
  - inv_bind H. inv_bind H. inversion H; subst.
    destruct (Hfg a v (or_introl eq_refl) E) as (o' & -> & Hincl).
    destruct (IH v0) as (r' & -> & Hincl'); auto.
    simpl. eexists; split; [reflexivity |].
    apply incl_app; [apply incl_appl | apply incl_appr]; assumption.
Qed.

Lemma scan_lift f g res r :
  (forall i slot o, f i slot = Ok o ->
                    exists o', g i slot = Ok o' /\ incl o o') ->
  scan f res = Ok r ->
  exists r', scan g res = Ok r' /\ incl r r'.
Proof.
  intros Hfg. unfold scan. apply for_each_lift.
  intros [i row] o _. simpl. apply for_each_lift.
  intros slot o' _. apply Hfg.
Qed.

Lemma wat_slot_lift angle self cutoff aso threshold hs waters r slot o :
  wat_slot angle self cutoff aso (Some threshold)
           (map H_owner hs) (map O_index waters) (map H_coordinates hs)
           (map O_coordinates waters) (map H_name hs) r slot = Ok o ->
  exists o',
    wat_slot angle self cutoff aso None
             (map H_owner hs) (map O_index waters) (map H_coordinates hs)
             (map O_coordinates waters) (map H_name hs) r slot = Ok o'
    /\ incl o o'.
Proof.
  destruct slot as [d ref]. unfold wat_slot.
  destruct (edist_le d cutoff);
    [| intros H; inversion H; exists []; split; auto; apply incl_refl].
  intros H. inv_bind H. rewrite E. simpl.
  inv_bind H. rewrite E0. simpl.
  inv_bind H. rewrite E1. simpl.
  destruct (negb (v0 =? v1));
    [| inversion H; exists []; split; auto; apply incl_refl].
  apply getitem_map_Ok in E0. destruct E0 as (h & Hh & ->).
  rewrite (getitem_map_nth H_name _ _ _ Hh) in *. simpl in *.
  inv_bind H. inv_bind H. inv_bind H.
  destruct (H_owner h <? v1).
  - eexists; split; [reflexivity |].
    destruct (angle_ge _ threshold && true); inversion H;
      [apply incl_refl | intros x []].
  - rewrite andb_false_r in H. inversion H.
    exists []; split; auto; apply incl_refl.
Qed.

Lemma protH_slot_lift self cutoff aso threshold hs waters ocoords ds r slot o :
  protH_slot self cutoff aso (Some threshold)
             (map H_owner hs) (map O_index waters) ocoords
             (map OtherAtom.coordinates ds) (map OtherAtom.index ds)
             (map OtherAtom.name ds) r slot = Ok o ->
  exists o',
    protH_slot self cutoff aso None
               (map H_owner hs) (map O_index waters) ocoords
               (map OtherAtom.coordinates ds) (map OtherAtom.index ds)
               (map OtherAtom.name ds) r slot = Ok o'
    /\ incl o o'.
Proof.
  destruct slot as [d ref]. unfold protH_slot.
  destruct (edist_le d cutoff);
    [| intros H; inversion H; exists []; split; auto; apply incl_refl].
  intros H. exfalso.
  inv_bind H. inv_bind H. inv_bind H. inv_bind H. inv_bind H. inv_bind H.
  inv_bind H. discriminate.
Qed.

Lemma protO_slot_lift self cutoff aso threshold hs as_ r slot o :
  protO_slot self cutoff aso (Some threshold)
             (map H_owner hs) (map H_coordinates hs) (map H_name hs)
             (map OtherAtom.coordinates as_) (map OtherAtom.index as_)
             r slot = Ok o ->
  exists o',
    protO_slot self cutoff aso None
               (map H_owner hs) (map H_coordinates hs) (map H_name hs)
               (map OtherAtom.coordinates as_) (map OtherAtom.index as_)
               r slot = Ok o'
    /\ incl o o'.
Proof.
  destruct slot as [d ref]. unfold protO_slot.
  destruct (edist_le d cutoff);
    [| intros H; inversion H; exists []; split; auto; apply incl_refl].
  intros H. exfalso.
  inv_bind H. inv_bind H. inv_bind H. inv_bind H. discriminate.
Qed.

(** The edges under a threshold are all WAT-WAT edges: a protein atom
    within the cutoff makes the call raise. *)
Lemma find_directed_connections_angle angle self cutoff aso threshold
  wa pa wo waters conns c :
  scope aso wa (water_molecules self) = Some waters ->
  find_directed_connections angle self cutoff aso (Some threshold) wa pa wo
  = Ok conns ->
  In c conns ->
  exists h w a,
    In h (H_rows waters) /\ In w waters
    /\ c = mk_connection (H_owner h) (O_index w) (H_name h) "WAT-WAT"
                         (site_status c) None
    /\ le_len (sqdist (H_coordinates h) (O_coordinates w)) cutoff = true
    /\ computed_angle angle self h (O_coordinates w) = Some a
    /\ threshold <= a.
Proof.
  intros Hscope H Hc.
  destruct (find_directed_connections_split _ _ _ _ _ _ _ _ _ H)
    as (waters' & wp & ww & Hscope' & Hwp & Hww & ->).
  rewrite Hscope in Hscope'. inversion Hscope'; subst waters'.
  apply in_app_or in Hc. destruct Hc as [Hc | Hc].
  - exfalso. destruct (negb wo); [| subst; destruct Hc].
    destruct Hwp as (protein & hw & ow & Hp & Hhw & How & ->).
    apply in_app_or in Hc. destruct Hc as [Hc | Hc].
    + destruct (scan_In _ _ _ _ _ _ _ Hhw Hc)
        as (r & q & [d ref] & o & Hq & Hslot & Ho & Hin).
      destruct (protH_slot_out _ _ _ _ _ _ _ _ _ _ _ _ _ Ho Hin)
        as (Hnone & _). discriminate.
    + destruct (scan_In _ _ _ _ _ _ _ How Hc)
        as (r & q & [d ref] & o & Hq & Hslot & Ho & Hin).
      destruct (protO_slot_out _ _ _ _ _ _ _ _ _ _ _ Ho Hin)
        as (Hnone & _). discriminate.
  - destruct (scan_In _ _ _ _ _ _ _ Hww Hc)
      as (r & q & [d ref] & o & Hq & Hslot & Ho & Hin).
    destruct (wat_slot_out _ _ _ _ _ _ _ _ _ _ _ _ Ho Hin)
      as (h & w & Hh & Hw & Hle & _ & Hx & Hang).
    destruct (slot_close _ _ _ _ _ _ _ _ eq_refl Hslot Hle)
      as (p' & Hp' & Hclose).
    simpl in Hp'. rewrite nth_error_map, Hw in Hp'.
    rewrite nth_error_map, Hh in Hq.
    simpl in Hp', Hq. inversion Hp'; inversion Hq; subst p' q.
    specialize (Hang threshold eq_refl). unfold angle_ge in Hang.
    destruct (computed_angle angle self h (O_coordinates w)) as [a |] eqn:Ha;
      [| discriminate].
    exists h, w, a.
    split; [eapply nth_error_In; eassumption |].
    split; [eapply nth_error_In; eassumption |].
    split; [exact Hx |].
    split; [exact Hclose |].
    split; [exact Ha | lia].
Qed.

Lemma find_directed_connections_lift angle self cutoff aso threshold
  wa pa wo conns :
  find_directed_connections angle self cutoff aso (Some threshold) wa pa wo
  = Ok conns ->
  exists all,
    find_directed_connections angle self cutoff aso None wa pa wo = Ok all
    /\ incl conns all.
Proof.
  intros H.
  destruct (find_directed_connections_split _ _ _ _ _ _ _ _ _ H)
    as (waters & wp & ww & Hscope & Hwp & Hww & ->).
  rewrite find_directed_connections_eq, Hscope. simpl.
  destruct (scan_lift _ _ _ _
              (wat_slot_lift angle self cutoff aso threshold
                             (H_rows waters) waters) Hww)
    as (ww' & Hww' & Hincl).
  destruct (negb wo).
  - destruct Hwp as (protein & hw & ow & Hp & Hhw & How & ->).
    rewrite Hp. simpl.
    destruct (scan_lift _ _ _ _
                (protH_slot_lift self cutoff aso threshold (H_rows waters)
                   waters (map O_coordinates waters) (donors protein)) Hhw)
      as (hw' & -> & Hincl1).
    destruct (scan_lift _ _ _ _
                (protO_slot_lift self cutoff aso threshold (H_rows waters)
                   (acceptors protein)) How)
      as (ow' & -> & Hincl2).
    simpl. rewrite Hww'. simpl. eexists; split; [reflexivity |].
    repeat apply incl_app.
    + apply incl_appl, incl_appl, Hincl1.
    + apply incl_appl, incl_appr, Hincl2.
    + apply incl_appr, Hincl.
  - subst wp. simpl. rewrite Hww'. simpl.
    eexists; split; [reflexivity | exact Hincl].
Qed.

(** C3, as the code has it.  When [find_directed_connections] returns under
    a threshold, every edge it returns is a water-water edge whose computed
    donor-hydrogen-acceptor angle is a number not below the threshold, and
    the call without angle criterion on the same input returns a list that
    holds all these edges. *)
Theorem angle_criteria_restricts angle self cutoff aso threshold wa pa wo
  waters conns :
  scope aso wa (water_molecules self) = Some waters ->
  find_directed_connections angle self cutoff aso (Some threshold) wa pa wo
  = Ok conns ->
  (forall c, In c conns ->
             exists h w a,
               In h (H_rows waters) /\ In w waters
               /\ c = mk_connection (H_owner h) (O_index w) (H_name h)
                                    "WAT-WAT" (site_status c) None
               /\ le_len (sqdist (H_coordinates h) (O_coordinates w)) cutoff
                  = true
               /\ computed_angle angle self h (O_coordinates w) = Some a
               /\ threshold <= a)
  /\ exists all,
      find_directed_connections angle self cutoff aso None wa pa wo = Ok all
      /\ incl conns all.
Proof.
  intros Hscope H. split.
  - intros c Hc. eapply find_directed_connections_angle; eauto.
  - eapply find_directed_connections_lift; eauto.
Qed.

(** ** The active site *)

Lemma fold_min_least l x : least (x :: l) (fold_left Z.min l x).
Proof.
  revert x; induction l as [| y l IH]; intros x; simpl.
  - split; [left; reflexivity |]. intros z [<- | []]. lia.
  - destruct (IH (Z.min x y)) as (Hin & Hle).
    remember (fold_left Z.min l (Z.min x y)) as m. split.
    + destruct Hin as [Hin | Hin]; [| right; right; exact Hin].
      destruct (Z.min_spec x y) as [[_ Hm] | [_ Hm]];
        [left | right; left]; congruence.
    + intros z [<- | [<- | Hz]].
      * specialize (Hle _ (or_introl eq_refl)). lia.
      * specialize (Hle _ (or_introl eq_refl)). lia.
      * apply Hle. right; exact Hz.
Qed.

Lemma least_unique l m m' : least l m -> least l m' -> m = m'.
Proof.
  intros (Hin & Hle) (Hin' & Hle').
  specialize (Hle _ Hin'). specialize (Hle' _ Hin). lia.
Qed.

Lemma np_min_least a :
  concat a <> [] -> exists m, np_min a = Ok m /\ least (concat a) m.
Proof.
  unfold np_min. destruct (concat a) as [| x l]; [congruence |].
  intros _. eexists; split; [reflexivity | apply fold_min_least].
Qed.

Lemma distance_array_nonempty pts refs box :
  pts <> [] -> refs <> [] -> concat (distance_array pts refs box) <> [].
Proof.
  destruct pts as [| p pts]; [congruence |].
  destruct refs as [| r refs]; [congruence |].
  intros _ _. simpl. discriminate.
Qed.

Lemma close_to_spec box radius pts reference :
  pts <> [] -> reference <> [] ->
  close_to box radius pts reference = true
  <-> min_distance_le box radius pts reference.
Proof.
  intros Hp Hr. unfold close_to, min_distance_le.
  destruct (np_min_least (distance_array pts
                            (map Reference.position reference) box))
    as (m & -> & Hm).
  { apply distance_array_nonempty; auto.
    destruct reference; [congruence | discriminate]. }
  split.
  - intros H. exists m; auto.
  - intros (m' & Hm' & H). rewrite (least_unique _ _ _ Hm Hm'). exact H.
Qed.

Lemma select_protein_step reference box radius acc_a acc_p atm :
  reference <> [] ->
  select_protein (map Reference.position reference)
                 (map Reference.resid reference) box radius
                 (acc_a, acc_p) atm
  = Ok (if in_reference reference (OtherAtom.resid atm)
           || close_to box radius [OtherAtom.coordinates atm] reference
        then acc_a ++ [Atom atm] else acc_a,
        if negb (in_reference reference (OtherAtom.resid atm))
           && close_to box radius [OtherAtom.coordinates atm] reference
        then acc_p ++ [atm] else acc_p).
Proof.
  intros Hr. unfold select_protein, in_reference, close_to.
  destruct (existsb (Z.eqb (OtherAtom.resid atm))
                    (map Reference.resid reference));
    [reflexivity | cbv beta iota].
  destruct (np_min_least
              (distance_array [OtherAtom.coordinates atm]
                              (map Reference.position reference) box))
    as (m & -> & _).
  { apply distance_array_nonempty; [discriminate |].
    destruct reference; [congruence | discriminate]. }
  simpl. destruct (le_len m radius); reflexivity.
Qed.

Lemma select_protein_loop reference box radius l acc_a acc_p :
  reference <> [] ->
  for_loop (select_protein (map Reference.position reference)
                           (map Reference.resid reference) box radius)
           l (acc_a, acc_p)
  = Ok (acc_a ++ map Atom
                 (filter (fun atm =>
                            in_reference reference (OtherAtom.resid atm)
                            || close_to box radius
                                        [OtherAtom.coordinates atm] reference)
                         l),
        acc_p ++ filter (fun atm =>
                           negb (in_reference reference (OtherAtom.resid atm))
                           && close_to box radius
                                       [OtherAtom.coordinates atm] reference)
                        l).
Proof.
  intros Hr. revert acc_a acc_p.
  induction l as [| atm l IH]; intros acc_a acc_p; cbn [for_loop].
  - simpl. rewrite !app_nil_r. reflexivity.
  - rewrite select_protein_step by exact Hr. cbn [bind]. rewrite IH. simpl.
    destruct (in_reference reference (OtherAtom.resid atm));
      destruct (close_to box radius [OtherAtom.coordinates atm] reference);
      simpl; rewrite <- ?app_assoc; reflexivity.
Qed.

Lemma select_water_step reference radius acc_a acc_w mol :
  reference <> [] ->
  select_water (map Reference.position reference) radius (acc_a, acc_w) mol
  = Ok (if close_to None radius (water_positions mol) reference
        then (acc_a ++ [Water mol], acc_w ++ [mol]) else (acc_a, acc_w)).
Proof.
  intros Hr. unfold select_water, close_to, water_positions.
  destruct (np_min_least
              (distance_array
                 [O_coordinates mol; H1_coordinates mol; H2_coordinates mol]
                 (map Reference.position reference) None))
    as (m & -> & _).
  { apply distance_array_nonempty; [discriminate |].
    destruct reference; [congruence | discriminate]. }
  simpl. destruct (le_len m radius); reflexivity.
Qed.

Lemma select_water_loop reference radius l acc_a acc_w :
  reference <> [] ->
  for_loop (select_water (map Reference.position reference) radius)
           l (acc_a, acc_w)
  = Ok (acc_a ++ map Water
                 (filter (fun mol => close_to None radius
                                              (water_positions mol) reference)
                         l),
        acc_w ++ filter (fun mol => close_to None radius
                                             (water_positions mol) reference)
                        l).
Proof.
  intros Hr. revert acc_a acc_w.
  induction l as [| mol l IH]; intros acc_a acc_w; cbn [for_loop].
  - simpl. rewrite !app_nil_r. reflexivity.
  - rewrite select_water_step by exact Hr. cbn [bind]. simpl.
    destruct (close_to None radius (water_positions mol) reference);
      rewrite IH; simpl; rewrite <- ?app_assoc; reflexivity.
Qed.



(** ** The finders on the example networks *)


(** Three waters on a line, 2.8 A apart, cutoff 3.3 A: the two consecutive
    pairs are connected (lengths in 1/100 A). *)
Example three_colinear_waters :
  find_connections (waters_only (water_line 3 280)) 330 None None false true
  = Ok [mk_connection 0 3 "O" "WAT-WAT" "None" None;
        mk_connection 3 6 "O" "WAT-WAT" "None" None].
Proof. vm_compute. reflexivity. Qed.

(** A water 1 A from a backbone nitrogen, cutoff 2 A: both hydrogens of the
    water are within the cutoff of the nitrogen. *)
Example water_to_nitrogen :
  find_directed_connections angle_on_x_axis water_and_nitrogen 200 false
                            None None None false
  = Ok [mk_connection 0 10 "H1" "WAT-PROT" "None" None;
        mk_connection 0 10 "H2" "WAT-PROT" "None" None].
Proof. vm_compute. reflexivity. Qed.



(** C2 on three waters on a line. *)
Lemma find_connections_lower_first_once_witness :
  NoDup (map O_index (water_line 3 280))
  /\ (forall c,
         In c [mk_connection 0 3 "O" "WAT-WAT" "None" None;
               mk_connection 3 6 "O" "WAT-WAT" "None" None] ->
         connection_type c = "WAT-WAT" -> index1 c < index2 c)
  /\ NoDup (map unordered_pair
              (filter is_wat_wat
                 [mk_connection 0 3 "O" "WAT-WAT" "None" None;
                  mk_connection 3 6 "O" "WAT-WAT" "None" None])).
Proof.
  assert (Hnd : NoDup (map O_index (water_line 3 280))).
  { vm_compute. repeat constructor; simpl; intuition discriminate. }
  split; [exact Hnd |].
  apply (find_connections_lower_first_once
           (waters_only (water_line 3 280)) 330 None None false true
           (water_line 3 280)).
  - reflexivity.
  - exact Hnd.
  - vm_compute. reflexivity.
Defined.

(** C3 fails as stated: on the hydrogen-bonded pair, whose donor angle is
    180 degrees, the edges under the threshold 150 are the edges without
    angle criterion. *)
Lemma angle_none_not_strict_superset :
  ~ (forall angle self cutoff aso threshold wa pa wo conns all,
        threshold <> 0 ->
        find_directed_connections angle self cutoff aso (Some threshold)
                                  wa pa wo = Ok conns ->
        find_directed_connections angle self cutoff aso None wa pa wo
        = Ok all ->
        strict_superset all conns).
Proof.
  intros H.
  destruct (H angle_on_x_axis (waters_only (hydrogen_bonded_pair 0 3)) 200
              false 150 None None true
              [mk_connection 0 3 "H1" "WAT-WAT" "None" None]
              [mk_connection 0 3 "H1" "WAT-WAT" "None" None])
    as (_ & c & Hc & Hnc).
  - discriminate.
  - vm_compute. reflexivity.
  - vm_compute. reflexivity.
  - apply Hnc, Hc.
Qed.

(** C3 on the hydrogen-bonded pair under the threshold 150. *)
Lemma angle_criteria_restricts_witness :
  find_directed_connections angle_on_x_axis
    (waters_only (hydrogen_bonded_pair 0 3)) 200 false (Some 150)
    None None true
  = Ok [mk_connection 0 3 "H1" "WAT-WAT" "None" None]
  /\ (exists h w a,
         In h (H_rows (hydrogen_bonded_pair 0 3))
         /\ In w (hydrogen_bonded_pair 0 3)
         /\ mk_connection 0 3 "H1" "WAT-WAT" "None" None
            = mk_connection (H_owner h) (O_index w) (H_name h) "WAT-WAT"
                            "None" None
         /\ le_len (sqdist (H_coordinates h) (O_coordinates w)) 200 = true
         /\ computed_angle angle_on_x_axis
                           (waters_only (hydrogen_bonded_pair 0 3)) h
                           (O_coordinates w) = Some a
         /\ 150 <= a)
  /\ exists all,
      find_directed_connections angle_on_x_axis
        (waters_only (hydrogen_bonded_pair 0 3)) 200 false None
        None None true = Ok all
      /\ incl [mk_connection 0 3 "H1" "WAT-WAT" "None" None] all.
Proof.
  assert (Hrun : find_directed_connections angle_on_x_axis
                   (waters_only (hydrogen_bonded_pair 0 3)) 200 false
                   (Some 150) None None true
                 = Ok [mk_connection 0 3 "H1" "WAT-WAT" "None" None]).
  { vm_compute. reflexivity. }
  split; [exact Hrun |].
  destruct (angle_criteria_restricts angle_on_x_axis
              (waters_only (hydrogen_bonded_pair 0 3)) 200 false 150
              None None true (hydrogen_bonded_pair 0 3) _ eq_refl Hrun)
    as (Hangle & Hall).
  split; [| exact Hall].
  apply (Hangle (mk_connection 0 3 "H1" "WAT-WAT" "None" None)).
  left; reflexivity.
Defined.


(** ** Where the code departs from the claims *)

(** C4: the tag of a water-water edge looks at the first end point only.
    With a reference atom that has only the second of two bonded waters
    within the radius, the active set is that water, and the edge between
    the two is tagged [not_active_site]. *)
Theorem water_water_tag_first_endpoint_only :
  exists self G,
    generate_oxygen_network two_waters None None
      (Some reference_near_second) 400 false true 330 = Ok (self, G)
    /\ active_site self = Some [Water (water_at 3 2 (280, 0, 0))]
    /\ connections self
       = Some [mk_connection 0 3 "O" "WAT-WAT" "not_active_site" None]
    /\ edges G = [(0, 3, mk_edge_data "WAT-WAT" "not_active_site")].
Proof.
  do 2 eexists. split; [vm_compute; reflexivity |].
  repeat split.
Qed.

(** C6: [get_density] under a selection other than [all] reads the local
    name [S] before it is bound; under [all] it is the number of edges
    over N (N - 1) / 2. *)
Theorem get_density_selection_unbound :
  get_density pair_and_single_network "active_site" = Raise UnboundLocalError
  /\ get_density pair_and_single_network "not_active_site"
     = Raise UnboundLocalError
  /\ exists q, get_density pair_and_single_network "all" = Ok q
               /\ (q == 1 # 3)%Q.
Proof.
  split; [vm_compute; reflexivity |].
  split; [vm_compute; reflexivity |].
  eexists. split; [vm_compute; reflexivity | reflexivity].
Qed.

(** No graph and no selection give a density other than under [all]. *)
Lemma get_density_other_selection self selection :
  String.eqb selection "all" = false ->
  exists e, get_density self selection = Raise e.
Proof.
  intros H. unfold get_density. rewrite H.
  destruct (graph self); simpl; eexists; reflexivity.
Qed.

(** C7: on a graph with a component of two nodes and a single point,
    [calculate_path='longest'] hands the set of nodes of the largest
    component to [average_shortest_path_length], which fails on it, where
    the path length of that component is 1, the value that
    [calculate_path='all'] gives when single points are excluded. *)
Theorem get_CPL_longest_raises :
  get_CPL pair_and_single_network "all" "longest" true = Raise AttributeError
  /\ get_CPL pair_and_single_network "all" "longest" false
     = Raise AttributeError
  /\ exists q, get_CPL pair_and_single_network "all" "all" true
               = Ok (Float q)
               /\ (q == 1)%Q.
Proof.
  split; [vm_compute; reflexivity |].
  split; [vm_compute; reflexivity |].
  eexists. split; [vm_compute; reflexivity | reflexivity].
Qed.

(** C8: without waters, or without protein atoms when they are asked for,
    [find_connections] builds its tree on a one-dimensional empty array
    and raises; [find_directed_connections] reshapes its arrays and
    returns. *)
Theorem find_connections_empty_raises :
  (forall cutoff,
      find_connections (waters_only []) cutoff None None false true
      = Raise ValueError)
  /\ find_connections two_waters 330 None None false false
     = Raise ValueError
  /\ (forall angle cutoff acr wo,
         find_directed_connections angle (waters_only []) cutoff false acr
                                   None None wo = Ok [])
  /\ (forall angle acr,
         find_directed_connections angle two_waters 10 false acr
                                   None None false = Ok []).
Proof.
  split; [reflexivity |].
  split.
  - vm_compute. reflexivity.
  - split.
    + intros angle cutoff acr [|]; reflexivity.
    + intros angle [thr |]; vm_compute; reflexivity.
Qed.

(** The network of the examples is what [add_water] and [add_atom] build:
    [protein_subset] stays empty. *)
Example water_and_nitrogen_built :
  add_atom (add_water WaterNetwork_init 1
                      (TrajectoryAtom.mk 0 (0, 0, 0))
                      (TrajectoryAtom.mk 1 (96, 0, 0))
                      (TrajectoryAtom.mk 2 (0, 96, 0)) 1)
           10 "N" "ALA" (100, 0, 0) 5 None
  = Some water_and_nitrogen.
Proof. reflexivity. Qed.

(** C9: in the all-atoms mode the protein atoms of the network get no node
    of category PROTEIN.  In the oxygen network the nodes are made for
    [protein_subset], and a protein atom of [protein_atoms] that has an
    edge becomes a node without attributes; in the directed network the
    node of a member of [protein_subset] needs [MSA_index], which that
    branch does not bind.  The active-site mode makes the two nodes. *)
Theorem all_atoms_protein_nodes :
  (exists self G,
      generate_oxygen_network water_and_nitrogen None None None 800
                              false false 330 = Ok (self, G)
      /\ nodes G = [(0, Some (mk_node_data (0, 0, 0) "WAT" None));
                    (10, None)])
  /\ (forall angle acr,
         generate_directed_network angle water_and_nitrogen_subset None
           None None 800 false false acr 330 = Raise UnboundLocalError)
  /\ (exists self G,
         generate_oxygen_network water_and_nitrogen None None
           (Some reference_at_origin) 800 true false 330 = Ok (self, G)
         /\ nodes G
            = [(0, Some (mk_node_data (0, 0, 0) "WAT" None));
               (10, Some (mk_node_data (100, 0, 0) "PROTEIN"
                                       (Some (PyStr "X"))))]).
Proof.
  split; [| split].
  - do 2 eexists. split; [vm_compute; reflexivity | reflexivity].
  - intros angle acr. reflexivity.
  - do 2 eexists. split; [vm_compute; reflexivity | reflexivity].
Qed.

(** C10: a residue number beyond the alignment list makes both builders
    raise where the node of the protein atom is made; a residue number
    within the list gives the node its entry. *)
Theorem alignment_out_of_range_raises :
  generate_oxygen_network water_and_nitrogen None
    (Some [PyInt 1; PyInt 2]) (Some reference_at_origin) 800 true false 330
  = Raise IndexError
  /\ (forall angle acr,
         generate_directed_network angle water_and_nitrogen None
           (Some [PyInt 1; PyInt 2]) (Some reference_at_origin) 800
           true false acr 330 = Raise IndexError)
  /\ (exists self G,
         generate_oxygen_network water_and_nitrogen None
           (Some [PyInt 11; PyInt 12; PyInt 13; PyInt 14; PyInt 15])
           (Some reference_at_origin) 800 true false 330 = Ok (self, G)
         /\ nodes G
            = [(0, Some (mk_node_data (0, 0, 0) "WAT" None));
               (10, Some (mk_node_data (100, 0, 0) "PROTEIN"
                                       (Some (PyInt 15))))]).
Proof.
  split; [vm_compute; reflexivity |].
  split.
  - intros angle acr. reflexivity.
  - do 2 eexists. split; [vm_compute; reflexivity | reflexivity].
Qed.

(** What the code does for the claims above, where it does it. *)

(** The tag of a water-water edge is the tag of the water of its first
    index. *)
Lemma find_connections_tag self cutoff wa pa aso wo waters conns c :
  scope aso wa (water_molecules self) = Some waters ->
  find_connections self cutoff wa pa aso wo = Ok conns ->
  In c conns -> connection_type c = "WAT-WAT" ->
  exists wi, In wi waters /\ index1 c = O_index wi
             /\ site_status c = ww_status self wi.
Proof.
  intros Hscope H Hc Hty.
  destruct (find_connections_split _ _ _ _ _ _ _ H)
    as (waters' & tree & ww & wp & Hscope' & Ht & Hww & Hwp & ->).
  rewrite Hscope in Hscope'. inversion Hscope'; subst waters'.
  apply in_app_or in Hc. destruct Hc as [Hc | Hc].
  - destruct (ww_part_out _ _ _ _ _ _ Ht Hww Hc)
      as (i & n & wi & wn & Hwi & _ & _ & _ & _ & ->).
    exists wi. repeat split. eapply nth_error_In; eauto.
  - exfalso. destruct (negb wo); [| subst; destruct Hc].
    destruct Hwp as (protein & ptree & _ & Hpt & Hscan).
    assert (Hne : waters <> []).
    { destruct (cKDTree_data _ _ Ht) as (_ & _ & Hm).
      intros ->. apply Hm. reflexivity. }
    destruct (wp_part_out _ _ _ _ _ _ _ Hne Hpt Hscan Hc)
      as (? & ? & ? & ? & ? & ? & ? & Hty').
    rewrite Hty' in Hty. discriminate.
Qed.

(** Under [all] the density is the number of edges over N (N - 1) / 2, and
    a division by zero for a graph of fewer than two nodes. *)
Lemma get_density_all self G :
  graph self = Some G ->
  get_density self "all"
  = if (number_of_nodes G <? 2)%nat then Raise ZeroDivisionError
    else Ok (inject_Z (Z.of_nat (number_of_edges G))
             / (inject_Z (Z.of_nat (number_of_nodes G)
                          * (Z.of_nat (number_of_nodes G) - 1)) / 2))%Q.
Proof.
  intros HG. unfold get_density. rewrite HG. simpl. unfold true_div.
  set (n := number_of_nodes G).
  destruct (n <? 2)%nat eqn:Hn.
  - apply Nat.ltb_lt in Hn.
    assert (Hz : Z.of_nat n * (Z.of_nat n - 1) = 0) by nia.
    rewrite Hz. reflexivity.
  - apply Nat.ltb_ge in Hn.
    destruct (Qeq_bool (inject_Z (Z.of_nat n * (Z.of_nat n - 1)) / 2) 0)
      eqn:Hq; [| reflexivity].
    exfalso. apply Qeq_bool_eq in Hq.
    unfold Qeq, Qdiv, Qmult, Qinv, inject_Z in Hq. simpl in Hq. nia.
Qed.

(** ** More on [find_connections] *)

(** [find_connections] returns exactly when it has a water to search and,
    unless [water_only], a protein atom. *)
Theorem find_connections_returns_iff self cutoff wa pa aso wo :
  (exists conns, find_connections self cutoff wa pa aso wo = Ok conns)
  <-> (exists waters,
          scope aso wa (water_molecules self) = Some waters /\ waters <> [])
      /\ (wo = true
          \/ exists ps,
              scope aso pa (protein_atoms self) = Some ps /\ ps <> []).
Proof.
  split.
  - intros (conns & H).
    destruct (find_connections_split _ _ _ _ _ _ _ H)
      as (waters & tree & ww & wp & Hscope & Ht & _ & Hwp & _).
    split.
    + exists waters. split; [exact Hscope |].
      destruct (cKDTree_data _ _ Ht) as (_ & _ & Hm).
      intros ->. apply Hm. reflexivity.
    + destruct wo; [left; reflexivity | right]. simpl in Hwp.
      destruct Hwp as (ps & ptree & Hps & Hpt & _).
      exists ps. split; [exact Hps |].
      destruct (cKDTree_data _ _ Hpt) as (_ & _ & Hm).
      intros ->. apply Hm. reflexivity.
  - intros ((waters & Hscope & Hne) & Hprot).
    eapply find_connections_total; eauto.
Qed.

Lemma wp_slot_full self cutoff waters protein i d n o x :
  wp_slot self cutoff waters (map O_index waters) protein
          (map OtherAtom.index protein) (map OtherAtom.name protein)
          i (d, n) = Ok o ->
  In x o ->
  exists wi pn,
    nth_error waters i = Some wi /\ nth_error protein n = Some pn
    /\ edist_le d cutoff = true
    /\ x = mk_connection (OtherAtom.index pn) (O_index wi)
                         (OtherAtom.name pn) "WAT-PROT"
                         (wp_status self wi pn)
                         (Some (protein_classification (OtherAtom.name pn))).
Proof.
  unfold wp_slot. intros H Hx.
  destruct (edist_le d cutoff) eqn:Hle; [| inversion H; subst; destruct Hx].
  inv_bind H. inv_bind H. inv_bind H. inv_bind H.
  apply getitem_map_Ok in E0. destruct E0 as (pn & Hpn & ->).
  apply getitem_map_Ok in E1. destruct E1 as (pn' & Hpn' & ->).
  apply getitem_map_Ok in E2. destruct E2 as (wi & Hwi & ->).
  rewrite Hpn in Hpn'. inversion Hpn'; subst pn'.
  inversion H; subst. destruct Hx as [<- | []].
  exists wi, pn. repeat split; auto.
  unfold wp_status, protein_classification.
  destruct (active_site self) as [act |].
  - inv_bind E. inv_bind E.
    apply getitem_Ok in E0. apply getitem_Ok in E1.
    rewrite Hwi in E0. rewrite Hpn in E1.
    inversion E0; inversion E1; subst. inversion E; reflexivity.
  - inversion E; reflexivity.
Qed.

(** Every water-protein connection of [find_connections] lists the protein
    atom first, with its name; it is classified [backbone] when that name
    is O or N and [side-chain] otherwise, and its tag looks at the residues
    of both end points. *)
Theorem find_connections_protein_edges
  self cutoff wa pa aso wo waters conns c :
  scope aso wa (water_molecules self) = Some waters ->
  find_connections self cutoff wa pa aso wo = Ok conns ->
  In c conns -> connection_type c = "WAT-PROT" ->
  exists ps pn wi,
    scope aso pa (protein_atoms self) = Some ps
    /\ In pn ps /\ In wi waters
    /\ le_len (sqdist (O_coordinates wi) (OtherAtom.coordinates pn)) cutoff
       = true
    /\ c = mk_connection (OtherAtom.index pn) (O_index wi)
                         (OtherAtom.name pn) "WAT-PROT"
                         (wp_status self wi pn)
                         (Some (protein_classification (OtherAtom.name pn))).
Proof.
  intros Hscope H Hc Hty.
  destruct (find_connections_split _ _ _ _ _ _ _ H)
    as (waters' & tree & ww & wp & Hscope' & Ht & Hww & Hwp & ->).
  rewrite Hscope in Hscope'. inversion Hscope'; subst waters'.
  apply in_app_or in Hc. destruct Hc as [Hc | Hc].
  - exfalso. destruct (ww_part_out _ _ _ _ _ _ Ht Hww Hc)
      as (i & n & wi & wn & _ & _ & _ & _ & _ & ->). discriminate.
  - destruct (negb wo); [| subst; destruct Hc].
    destruct Hwp as (ps & ptree & Hps & Hpt & Hscan).
    destruct (cKDTree_data _ _ Hpt) as (Hdata & _ & _).
    destruct (cKDTree_data _ _ Ht) as (_ & Hrows & _).
    rewrite Hrows in Hscan.
    destruct (scan_In _ _ _ _ _ _ _ Hscan Hc)
      as (i & q & [d n] & o & Hq & Hslot & Ho & Hin).
    destruct (wp_slot_full _ _ _ _ _ _ _ _ _ Ho Hin)
      as (wi & pn & Hwi & Hpn & Hle & ->).
    destruct (slot_close _ _ _ _ _ _ _ _ Hdata Hslot Hle)
      as (p & Hp & Hclose).
    rewrite nth_error_map, Hpn in Hp. rewrite nth_error_map, Hwi in Hq.
    simpl in Hp, Hq. inversion Hp; inversion Hq; subst p q.
    exists ps, pn, wi.
    repeat split; auto; eapply nth_error_In; eassumption.
Qed.

(** A water and a protein atom closer than the cutoff get their
    connection from [find_connections], when no more than ten protein
    atoms are within the cutoff of the water oxygen. *)
Theorem find_connections_protein_complete
  self cutoff wa pa aso waters ps conns wi pn :
  scope aso wa (water_molecules self) = Some waters ->
  scope aso pa (protein_atoms self) = Some ps ->
  find_connections self cutoff wa pa aso false = Ok conns ->
  In wi waters -> In pn ps ->
  lt_len (sqdist (O_coordinates wi) (OtherAtom.coordinates pn)) cutoff
  = true ->
  (within cutoff (O_coordinates wi) (map OtherAtom.coordinates ps)
   <= 10)%nat ->
  In (mk_connection (OtherAtom.index pn) (O_index wi) (OtherAtom.name pn)
                    "WAT-PROT" (wp_status self wi pn)
                    (Some (protein_classification (OtherAtom.name pn))))
     conns.
Proof.
  intros Hscope Hps H Hwi Hpn Hclose Hk.
  destruct (find_connections_split _ _ _ _ _ _ _ H)
    as (waters' & tree & ww & wp & Hscope' & Ht & Hww & Hwp & ->).
  rewrite Hscope in Hscope'. inversion Hscope'; subst waters'.
  simpl in Hwp. destruct Hwp as (ps' & ptree & Hps' & Hpt & Hscan).
  rewrite Hps in Hps'. inversion Hps'; subst ps'.
  destruct (cKDTree_data _ _ Hpt) as (Hdata & _ & _).
  simpl in Hscan.
  apply In_nth_error in Hwi. destruct Hwi as (i & Hi).
  apply In_nth_error in Hpn. destruct Hpn as (n & Hn).
  assert (Hslot : In (Fin (sqdist (O_coordinates wi)
                                  (OtherAtom.coordinates pn)), n)
                     (query_point ptree 10 cutoff (O_coordinates wi))).
  { apply query_point_complete; auto.
    - rewrite Hdata, nth_error_map, Hn. reflexivity.
    - eapply Nat.le_trans; [apply candidates_within |].
      rewrite Hdata. exact Hk. }
  assert (Hq : nth_error (map O_coordinates waters) i
               = Some (O_coordinates wi)).
  { rewrite nth_error_map, Hi. reflexivity. }
  destruct (scan_incl _ _ _ _ _ _ _ _ _ Hscan Hq Hslot) as (o & Ho & Hincl).
  apply in_or_app; right. apply Hincl.
  destruct (wp_slot_total self cutoff waters ps i wi
              (Fin (sqdist (O_coordinates wi) (OtherAtom.coordinates pn))) n
              Hi) as (o' & Ho').
  { intros _. exists pn. exact Hn. }
  rewrite Ho in Ho'. inversion Ho'; subst o'. clear Ho'.
  revert Ho. unfold wp_slot. simpl.
  rewrite (lt_len_le_len _ _ Hclose).
  rewrite (getitem_map_nth O_index _ _ _ Hi).
  rewrite (getitem_map_nth OtherAtom.index _ _ _ Hn).
  rewrite (getitem_map_nth OtherAtom.name _ _ _ Hn).
  rewrite (proj2 (getitem_Ok _ _ _) Hi).
  rewrite (proj2 (getitem_Ok _ _ _) Hn).
  unfold wp_status, protein_classification.
  destruct (active_site self); simpl; intros Ho; inversion Ho; simpl; auto.
Qed.

(** ** More on [find_directed_connections] *)

(** Without angle criterion [find_directed_connections] returns exactly
    when its scopes are given, empty ones included. *)
Theorem find_directed_connections_returns_iff angle self cutoff wa pa aso wo :
  (exists conns,
      find_directed_connections angle self cutoff aso None wa pa wo
      = Ok conns)
  <-> (exists waters, scope aso wa (water_molecules self) = Some waters)
      /\ (wo = true
          \/ exists ps, scope aso pa (protein_atoms self) = Some ps).
Proof.
  split.
  - intros (conns & H).
    destruct (find_directed_connections_split _ _ _ _ _ _ _ _ _ H)
      as (waters & wp & ww & Hscope & Hwp & _ & _).
    split; [exists waters; exact Hscope |].
    destruct wo; [left; reflexivity | right]. simpl in Hwp.
    destruct Hwp as (ps & _ & _ & Hps & _). exists ps; exact Hps.
  - intros ((waters & Hscope) & Hprot).
    eapply find_directed_connections_total; eauto.
Qed.

(** A point of the tree closer than the bound gives the row a slot that
    passes the distance test. *)
Lemma query_point_hit t k ub q j p :
  nth_error (data t) j = Some p ->
  lt_len (sqdist q p) ub = true ->
  (1 <= k)%nat ->
  exists d j', In (d, j') (query_point t k ub q) /\ edist_le d ub = true.
Proof.
  intros Hp Hlt Hk.
  assert (Hc : In (sqdist q p, j) (sort_by_dist (candidates t q ub))).
  { apply (Permutation_in _ (sort_by_dist_perm _)).
    apply candidates_In. exists p; auto. }
  destruct (sort_by_dist (candidates t q ub)) as [| c l] eqn:Hs;
    [destruct Hc |].
  assert (Hin : In c (candidates t q ub)).
  { apply (Permutation_in _ (Permutation_sym (sort_by_dist_perm _))).
    rewrite Hs. left; reflexivity. }
  destruct c as [s j']. apply candidates_In in Hin.
  destruct Hin as (p' & _ & _ & Hlt').
  exists (Fin s), j'. split; [| apply lt_len_le_len, Hlt'].
  unfold query_point, pad_row. rewrite Hs.
  destruct k as [| k]; [lia |]. simpl. left; reflexivity.
Qed.

Lemma protH_slot_threshold self cutoff aso threshold hidx oidx ocoords
  hcoords pidx pnames r d ref :
  protH_slot self cutoff aso (Some threshold) hidx oidx ocoords hcoords
             pidx pnames r (d, ref)
  = (if edist_le d cutoff
     then protH_slot self cutoff aso (Some threshold) hidx oidx ocoords
                     hcoords pidx pnames r (d, ref)
     else Ok [])
  /\ (edist_le d cutoff = true ->
      forall o, protH_slot self cutoff aso (Some threshold) hidx oidx ocoords
                           hcoords pidx pnames r (d, ref) <> Ok o).
Proof.
  split.
  - unfold protH_slot. destruct (edist_le d cutoff); reflexivity.
  - intros Hle o H. unfold protH_slot in H. rewrite Hle in H.
    inv_bind H. inv_bind H. inv_bind H. inv_bind H. inv_bind H. inv_bind H.
    inv_bind H. discriminate.
Qed.

Lemma protO_slot_threshold self cutoff aso threshold hidx hcoords hnames
  pcoords pidx r d ref :
  protO_slot self cutoff aso (Some threshold) hidx hcoords hnames pcoords
             pidx r (d, ref)
  = (if edist_le d cutoff
     then protO_slot self cutoff aso (Some threshold) hidx hcoords hnames
                     pcoords pidx r (d, ref)
     else Ok [])
  /\ (edist_le d cutoff = true ->
      forall o, protO_slot self cutoff aso (Some threshold) hidx hcoords
                           hnames pcoords pidx r (d, ref) <> Ok o).
Proof.
  split.
  - unfold protO_slot. destruct (edist_le d cutoff); reflexivity.
  - intros Hle o H. unfold protO_slot in H. rewrite Hle in H.
    inv_bind H. inv_bind H. inv_bind H. inv_bind H. discriminate.
Qed.

(** Under an angle criterion, on the whole network with its protein atoms,
    [find_directed_connections] returns exactly when no water hydrogen has
    a protein acceptor, and no water oxygen a protein hydrogen, closer than
    the cutoff: the first protein atom in reach makes the call raise. *)
Theorem find_directed_connections_threshold_iff angle self cutoff threshold
  wa pa :
  (exists conns,
      find_directed_connections angle self cutoff false (Some threshold)
                                wa pa false = Ok conns)
  <-> ~ protein_contact cutoff (water_molecules self) (protein_atoms self).
Proof.
  split.
  - intros (conns & H) Hcontact.
    destruct (find_directed_connections_split _ _ _ _ _ _ _ _ _ H)
      as (waters & wp & ww & Hscope & Hwp & _ & _).
    simpl in Hscope, Hwp. inversion Hscope; subst waters.
    destruct Hwp as (ps & hw & ow & Hps & Hhw & How & _).
    inversion Hps; subst ps.
    destruct Hcontact as [(h & p & Hh & Hp & Hlt) | (w & p & Hw & Hp & Hlt)].
    + apply In_nth_error in Hh. destruct Hh as (r & Hr).
      apply In_nth_error in Hp. destruct Hp as (j & Hj).
      destruct (query_point_hit
                  (mk_tree (map OtherAtom.coordinates
                                (acceptors (protein_atoms self))))
                  10 cutoff (H_coordinates h) j (OtherAtom.coordinates p))
        as (d & j' & Hslot & Hle); [| exact Hlt | lia |].
      { simpl. rewrite nth_error_map, Hj. reflexivity. }
      assert (Hq : nth_error (map H_coordinates
                                  (H_rows (water_molecules self))) r
                   = Some (H_coordinates h)).
      { rewrite nth_error_map, Hr. reflexivity. }
      destruct (scan_incl _ _ _ _ _ _ _ _ _ How Hq Hslot) as (o & Ho & _).
      eapply (proj2 (protO_slot_threshold _ _ _ _ _ _ _ _ _ _ _ _));
        eauto.
    + apply In_nth_error in Hw. destruct Hw as (r & Hr).
      apply In_nth_error in Hp. destruct Hp as (j & Hj).
      destruct (query_point_hit
                  (mk_tree (map OtherAtom.coordinates
                                (donors (protein_atoms self))))
                  10 cutoff (O_coordinates w) j (OtherAtom.coordinates p))
        as (d & j' & Hslot & Hle); [| exact Hlt | lia |].
      { simpl. rewrite nth_error_map, Hj. reflexivity. }
      assert (Hq : nth_error (map O_coordinates (water_molecules self)) r
                   = Some (O_coordinates w)).
      { rewrite nth_error_map, Hr. reflexivity. }
      destruct (scan_incl _ _ _ _ _ _ _ _ _ Hhw Hq Hslot) as (o & Ho & _).
      eapply (proj2 (protH_slot_threshold _ _ _ _ _ _ _ _ _ _ _ _ _));
        eauto.
  - intros Hno. rewrite find_directed_connections_eq. simpl.
    destruct (query_rows_total
                (protH_slot self cutoff false (Some threshold)
                   (map H_owner (H_rows (water_molecules self)))
                   (map O_index (water_molecules self))
                   (map O_coordinates (water_molecules self))
                   (map OtherAtom.coordinates (donors (protein_atoms self)))
                   (map OtherAtom.index (donors (protein_atoms self)))
                   (map OtherAtom.name (donors (protein_atoms self))))
                (mk_tree (map OtherAtom.coordinates
                              (donors (protein_atoms self))))
                (map O_coordinates (water_molecules self)) 10 cutoff)
      as (hw & ->).
    { intros r q [d ref] Hq Hslot.
      rewrite (proj1 (protH_slot_threshold _ _ _ _ _ _ _ _ _ _ _ _ _)).
      destruct (edist_le d cutoff) eqn:Hle; [| eexists; reflexivity].
      exfalso. apply Hno. right.
      destruct (query_point_slot _ _ _ _ _ _ _ Hslot Hle)
        as (p & Hp & _ & Hlt).
      simpl in Hp. rewrite nth_error_map in Hp.
      destruct (nth_error (donors (protein_atoms self)) ref) as [pn |] eqn:Hpn;
        [| discriminate].
      simpl in Hp. inversion Hp; subst p.
      rewrite nth_error_map in Hq.
      destruct (nth_error (water_molecules self) r) as [w |] eqn:Hw;
        [| discriminate].
      simpl in Hq. inversion Hq; subst q.
      exists w, pn. repeat split; auto; eapply nth_error_In; eassumption. }
    simpl.
    destruct (query_rows_total
                (protO_slot self cutoff false (Some threshold)
                   (map H_owner (H_rows (water_molecules self)))
                   (map H_coordinates (H_rows (water_molecules self)))
                   (map H_name (H_rows (water_molecules self)))
                   (map OtherAtom.coordinates
                        (acceptors (protein_atoms self)))
                   (map OtherAtom.index (acceptors (protein_atoms self))))
                (mk_tree (map OtherAtom.coordinates
                              (acceptors (protein_atoms self))))
                (map H_coordinates (H_rows (water_molecules self))) 10
                cutoff) as (ow & ->).
    { intros r q [d ref] Hq Hslot.
      rewrite (proj1 (protO_slot_threshold _ _ _ _ _ _ _ _ _ _ _ _)).
      destruct (edist_le d cutoff) eqn:Hle; [| eexists; reflexivity].
      exfalso. apply Hno. left.
      destruct (query_point_slot _ _ _ _ _ _ _ Hslot Hle)
        as (p & Hp & _ & Hlt).
      simpl in Hp. rewrite nth_error_map in Hp.
      destruct (nth_error (acceptors (protein_atoms self)) ref)
        as [pn |] eqn:Hpn; [| discriminate].
      simpl in Hp. inversion Hp; subst p.
      rewrite nth_error_map in Hq.
      destruct (nth_error (H_rows (water_molecules self)) r) as [h |] eqn:Hh;
        [| discriminate].
      simpl in Hq. inversion Hq; subst q.
      exists h, pn. repeat split; auto; eapply nth_error_In; eassumption. }
    simpl.
    destruct (query_rows_total
                (wat_slot angle self cutoff false (Some threshold)
                   (map H_owner (H_rows (water_molecules self)))
                   (map O_index (water_molecules self))
                   (map H_coordinates (H_rows (water_molecules self)))
                   (map O_coordinates (water_molecules self))
                   (map H_name (H_rows (water_molecules self))))
                (mk_tree (map O_coordinates (water_molecules self)))
                (map H_coordinates (H_rows (water_molecules self))) 5 cutoff)
      as (ww & ->).
    { intros r q [d ref] Hq Hslot.
      destruct (nth_error_map_Some _ _ _ _ Hq) as (h & Hh).
      apply (wat_slot_total _ _ _ _ _ _ _ _ h); [exact Hh | |].
      - intros Hle. eapply slot_in_range; eauto. reflexivity.
      - intros _. apply nth_error_In in Hh. apply H_rows_In in Hh.
        destruct Hh as (w & Hw & [-> | ->]); exists w; auto. }
    simpl. eexists; reflexivity.
Qed.

Lemma directed_status_values self aso x y s :
  directed_status self aso x y = Ok s ->
  (aso = true -> s = "active_site")
  /\ (aso = false -> active_site self = None -> s = "None")
  /\ (s = "None" \/ s = "active_site" \/ s = "not_active_site").
Proof.
  unfold directed_status. destruct aso; simpl.
  - intros H; inversion H; subst. repeat split; auto; discriminate.
  - destruct (active_site self) as [[| f act] |].
    + intros H; inversion H; subst. repeat split; auto; discriminate.
    + intros H. inv_bind H. inv_bind H. inversion H; subst.
      split; [intros; discriminate |].
      split; [intros; discriminate |].
      match goal with
      | |- context [if ?b then _ else _] => destruct b
      end; auto.
    + intros H; inversion H; subst. repeat split; auto; discriminate.
Qed.

Lemma protH_slot_status self cutoff aso acr hidx oidx ocoords hcoords pidx
  pnames r slot o x :
  protH_slot self cutoff aso acr hidx oidx ocoords hcoords pidx pnames r slot
  = Ok o ->
  In x o ->
  exists a b, directed_status self aso a b = Ok (site_status x).
Proof.
  destruct slot as [d ref]. unfold protH_slot. intros H Hx.
  destruct (edist_le d cutoff); [| inversion H; subst; destruct Hx].
  inv_bind H. destruct acr as [thr |].
  - inv_bind H. inv_bind H. inv_bind H. inv_bind H. inv_bind H.
    inv_bind H. discriminate.
  - inv_bind H. inv_bind H. inv_bind H. inversion H; subst.
    destruct Hx as [<- | []]. simpl. eauto.
Qed.

Lemma protO_slot_status self cutoff aso acr hidx hcoords hnames pcoords pidx
  r slot o x :
  protO_slot self cutoff aso acr hidx hcoords hnames pcoords pidx r slot
  = Ok o ->
  In x o ->
  exists a b, directed_status self aso a b = Ok (site_status x).
Proof.
  destruct slot as [d ref]. unfold protO_slot. intros H Hx.
  destruct (edist_le d cutoff); [| inversion H; subst; destruct Hx].
  inv_bind H. destruct acr as [thr |].
  - inv_bind H. inv_bind H. inv_bind H. discriminate.
  - inv_bind H. inv_bind H. inv_bind H. inversion H; subst.
    destruct Hx as [<- | []]. simpl. eauto.
Qed.

Lemma wat_slot_status angle self cutoff aso acr hidx oidx hcoords ocoords
  hnames r slot o x :
  wat_slot angle self cutoff aso acr hidx oidx hcoords ocoords hnames r slot
  = Ok o ->
  In x o ->
  exists a b, directed_status self aso a b = Ok (site_status x).
Proof.
  destruct slot as [d ref]. unfold wat_slot. intros H Hx.
  destruct (edist_le d cutoff); [| inversion H; subst; destruct Hx].
  inv_bind H. inv_bind H. inv_bind H.
  destruct (negb (v0 =? v1)); [| inversion H; subst; destruct Hx].
  destruct acr as [thr |].
  - inv_bind H. inv_bind H. inv_bind H.
    destruct (angle_ge _ thr && (v0 <? v1));
      [| inversion H; subst; destruct Hx].
    inv_bind H. inversion H; subst. destruct Hx as [<- | []]. simpl. eauto.
  - destruct (v0 <? v1); [| inversion H; subst; destruct Hx].
    inv_bind H. inversion H; subst. destruct Hx as [<- | []]. simpl. eauto.
Qed.

Lemma find_directed_connections_status angle self cutoff aso acr wa pa wo
  conns c :
  find_directed_connections angle self cutoff aso acr wa pa wo = Ok conns ->
  In c conns ->
  exists a b, directed_status self aso a b = Ok (site_status c).
Proof.
  intros H Hc.
  destruct (find_directed_connections_split _ _ _ _ _ _ _ _ _ H)
    as (waters & wp & ww & _ & Hwp & Hww & ->).
  apply in_app_or in Hc. destruct Hc as [Hc | Hc].
  - destruct (negb wo); [| subst; destruct Hc].
    destruct Hwp as (protein & hw & ow & _ & Hhw & How & ->).
    apply in_app_or in Hc. destruct Hc as [Hc | Hc].
    + destruct (scan_In _ _ _ _ _ _ _ Hhw Hc)
        as (r & q & slot & o & _ & _ & Ho & Hin).
      eapply protH_slot_status; eauto.
    + destruct (scan_In _ _ _ _ _ _ _ How Hc)
        as (r & q & slot & o & _ & _ & Ho & Hin).
      eapply protO_slot_status; eauto.
  - destruct (scan_In _ _ _ _ _ _ _ Hww Hc)
      as (r & q & slot & o & _ & _ & Ho & Hin).
    eapply wat_slot_status; eauto.
Qed.

(** The tag of a connection of [find_directed_connections] is
    [active_site] for every connection in the active-site-only mode;
    outside that mode it is [None] for every connection when the network
    has no active site; and it is never another word than [None],
    [active_site] or [not_active_site]. *)
Theorem find_directed_connections_tags angle self cutoff aso acr wa pa wo
  conns c :
  find_directed_connections angle self cutoff aso acr wa pa wo = Ok conns ->
  In c conns ->
  (aso = true -> site_status c = "active_site")
  /\ (aso = false -> active_site self = None -> site_status c = "None")
  /\ (site_status c = "None" \/ site_status c = "active_site"
      \/ site_status c = "not_active_site").
Proof.
  intros H Hc.
  destruct (find_directed_connections_status _ _ _ _ _ _ _ _ _ _ H Hc)
    as (a & b & Hs).
  eapply directed_status_values; eauto.
Qed.

(** A water-water connection of [find_directed_connections] goes from the
    oxygen index of the water that owns the hydrogen to the higher oxygen
    index of another water of the scope, and carries the name of the
    hydrogen, H1 or H2: there is no connection inside one water, and none
    towards a lower index. *)
Theorem find_directed_connections_water_edges angle self cutoff aso acr
  wa pa wo waters conns c :
  scope aso wa (water_molecules self) = Some waters ->
  find_directed_connections angle self cutoff aso acr wa pa wo = Ok conns ->
  In c conns -> connection_type c = "WAT-WAT" ->
  exists donor acceptor,
    In donor waters /\ In acceptor waters
    /\ index1 c = O_index donor /\ index2 c = O_index acceptor
    /\ index1 c < index2 c
    /\ ((atom_name c = "H1"
         /\ le_len (sqdist (H1_coordinates donor) (O_coordinates acceptor))
                   cutoff = true)
        \/ (atom_name c = "H2"
            /\ le_len (sqdist (H2_coordinates donor)
                              (O_coordinates acceptor)) cutoff = true)).
Proof.
  intros Hscope H Hc Hty.
  destruct (find_directed_connections_split _ _ _ _ _ _ _ _ _ H)
    as (waters' & wp & ww & Hscope' & Hwp & Hww & ->).
  rewrite Hscope in Hscope'. inversion Hscope'; subst waters'.
  apply in_app_or in Hc. destruct Hc as [Hc | Hc].
  - exfalso. destruct (negb wo); [| subst; destruct Hc].
    destruct Hwp as (protein & hw & ow & _ & Hhw & How & ->).
    apply in_app_or in Hc. destruct Hc as [Hc | Hc].
    + destruct (scan_In _ _ _ _ _ _ _ Hhw Hc)
        as (r & q & [d ref] & o & _ & _ & Ho & Hin).
      destruct (protH_slot_out _ _ _ _ _ _ _ _ _ _ _ _ _ Ho Hin)
        as (_ & w & p & _ & _ & _ & Hx).
      rewrite Hx in Hty. discriminate.
    + destruct (scan_In _ _ _ _ _ _ _ How Hc)
        as (r & q & [d ref] & o & _ & _ & Ho & Hin).
      destruct (protO_slot_out _ _ _ _ _ _ _ _ _ _ _ Ho Hin)
        as (_ & h & p & _ & _ & _ & Hx).
      rewrite Hx in Hty. discriminate.
  - destruct (scan_In _ _ _ _ _ _ _ Hww Hc)
      as (r & q & [d ref] & o & Hq & Hslot & Ho & Hin).
    destruct (wat_slot_out _ _ _ _ _ _ _ _ _ _ _ _ Ho Hin)
      as (h & w & Hh & Hw & Hle & Hlt & Hx & _).
    destruct (slot_close _ _ _ _ _ _ _ _ eq_refl Hslot Hle)
      as (p' & Hp' & Hclose).
    simpl in Hp'. rewrite nth_error_map, Hw in Hp'.
    rewrite nth_error_map, Hh in Hq.
    simpl in Hp', Hq. inversion Hp'; inversion Hq; subst p' q.
    apply nth_error_In in Hh. apply H_rows_In in Hh.
    destruct Hh as (donor & Hdonor & Hh).
    exists donor, w.
    split; [exact Hdonor |].
    split; [eapply nth_error_In; eassumption |].
    destruct Hh as [-> | ->]; rewrite Hx; simpl in *;
      repeat split; auto.
Qed.

(** ** More on [select_active_site] *)

Lemma select_active_site_eq self reference box radius :
  reference <> [] ->
  select_active_site self reference box radius
  = let atoms :=
      filter (fun atm => in_reference reference (OtherAtom.resid atm)
                         || close_to box radius [OtherAtom.coordinates atm]
                                     reference)
             (protein_atoms self) in
    let protein_active :=
      filter (fun atm => negb (in_reference reference (OtherAtom.resid atm))
                         && close_to box radius [OtherAtom.coordinates atm]
                                     reference)
             (protein_atoms self) in
    let water_active :=
      filter (fun mol => close_to None radius (water_positions mol) reference)
             (water_molecules self) in
    Ok (set_active_site self (Some (map Atom atoms ++ map Water water_active)),
        (map Atom atoms ++ map Water water_active, protein_active,
         water_active)).
Proof.
  intros Hr. unfold select_active_site.
  rewrite (select_protein_loop reference box radius _ [] [] Hr). simpl.
  rewrite (select_water_loop reference radius _ _ [] Hr). reflexivity.
Qed.

Lemma filter_filter_and {A : Type} (f g : A -> bool) (l : list A) :
  filter f (filter g l) = filter (fun a => f a && g a) l.
Proof.
  induction l as [| a l IH]; simpl; [reflexivity |].
  destruct (g a); simpl.
  - destruct (f a); simpl; rewrite IH; reflexivity.
  - rewrite andb_false_r. exact IH.
Qed.

Lemma filter_ext_bool {A : Type} (f g : A -> bool) (l : list A) :
  (forall a, f a = g a) -> filter f l = filter g l.
Proof.
  intros H. induction l as [| a l IH]; simpl; [reflexivity |].
  rewrite H, IH. reflexivity.
Qed.

(** The three lists of [select_active_site].  The active set is the
    selected protein atoms followed by the selected waters, each in the
    order of the network; [water_active] is those waters, and
    [protein_active] is those protein atoms without the ones whose residue
    is a residue of the reference. *)
Theorem select_active_site_lists self reference box radius :
  reference <> [] ->
  exists atoms protein_active water_active,
    select_active_site self reference box radius
    = Ok (set_active_site self
            (Some (map Atom atoms ++ map Water water_active)),
          (map Atom atoms ++ map Water water_active, protein_active,
           water_active))
    /\ protein_active
       = filter (fun atm => negb (in_reference reference
                                               (OtherAtom.resid atm))) atoms
    /\ (exists keep, atoms = filter keep (protein_atoms self))
    /\ (exists keep, water_active = filter keep (water_molecules self)).
Proof.
  intros Hr. rewrite (select_active_site_eq _ _ _ _ Hr). simpl.
  do 3 eexists. split; [reflexivity |]. split; [| split].
  - rewrite filter_filter_and. apply filter_ext_bool. intros atm.
    destruct (in_reference reference (OtherAtom.resid atm)); reflexivity.
  - eexists; reflexivity.
  - eexists; reflexivity.
Qed.

(** With an empty reference group [select_active_site] raises on the first
    atom or water it looks at, and selects nothing from an empty network. *)
Theorem select_active_site_empty_reference self box radius :
  select_active_site self [] box radius
  = match protein_atoms self, water_molecules self with
    | [], [] => Ok (set_active_site self (Some []), ([], [], []))
    | _, _ => Raise ValueError
    end.
Proof.
  unfold select_active_site.
  destruct (protein_atoms self) as [| atm l]; simpl.
  - destruct (water_molecules self) as [| mol l']; reflexivity.
  - reflexivity.
Qed.

Lemma distance_array_In pts refs box e :
  In e (concat (distance_array pts refs box))
  <-> exists p r, In p pts /\ In r refs /\ e = sqdist_box box p r.
Proof.
  unfold distance_array. rewrite in_concat. split.
  - intros (row & Hrow & He). apply in_map_iff in Hrow.
    destruct Hrow as (p & <- & Hp). apply in_map_iff in He.
    destruct He as (r & <- & Hr). exists p, r; auto.
  - intros (p & r & Hp & Hr & ->).
    exists (map (sqdist_box box p) refs). split.
    + apply in_map_iff. exists p; auto.
    + apply in_map_iff. exists r; auto.
Qed.

Lemma le_len_smaller s s' c : s <= s' -> le_len s' c = true -> le_len s c = true.
Proof. unfold le_len. lia. Qed.

Lemma le_len_wider s c c' :
  0 <= c <= c' -> le_len s c = true -> le_len s c' = true.
Proof. unfold le_len. intros Hc H. nia. Qed.

(** The test of the selection loops holds when some point is within the
    radius of some reference atom. *)
Lemma close_to_exists box radius pts reference :
  pts <> [] -> reference <> [] ->
  close_to box radius pts reference = true
  <-> exists p r, In p pts /\ In r reference
                  /\ le_len (sqdist_box box p (Reference.position r)) radius
                     = true.
Proof.
  intros Hp Hr. rewrite (close_to_spec _ _ _ _ Hp Hr).
  unfold min_distance_le. split.
  - intros (m & (Hin & _) & Hle). apply distance_array_In in Hin.
    destruct Hin as (p & pos & Hpin & Hpos & ->).
    apply in_map_iff in Hpos. destruct Hpos as (r & <- & Hrin).
    exists p, r; auto.
  - intros (p & r & Hpin & Hrin & Hle).
    destruct (np_min_least (distance_array pts
                              (map Reference.position reference) box))
      as (m & _ & Hm).
    { apply distance_array_nonempty; auto.
      destruct reference; [congruence | discriminate]. }
    exists m. split; [exact Hm |].
    eapply le_len_smaller; [| exact Hle].
    apply (proj2 Hm). apply distance_array_In.
    exists p, (Reference.position r). repeat split; auto.
    apply in_map; exact Hrin.
Qed.

Lemma filter_incl_imp {A : Type} (f g : A -> bool) (l : list A) :
  (forall a, In a l -> f a = true -> g a = true) ->
  incl (filter f l) (filter g l).
Proof.
  intros H a Ha. apply filter_In in Ha. apply filter_In.
  destruct Ha; split; auto.
Qed.

Lemma close_to_wider box radius radius' pts reference :
  pts <> [] -> reference <> [] -> 0 <= radius <= radius' ->
  close_to box radius pts reference = true ->
  close_to box radius' pts reference = true.
Proof.
  intros Hp Hr Hrad. rewrite !close_to_exists by assumption.
  intros (p & r & Hpin & Hrin & Hle). exists p, r.
  repeat split; auto. eapply le_len_wider; eauto.
Qed.

(** A wider radius selects more: the three lists under a radius are
    contained in the three lists under any larger one. *)
Theorem select_active_site_monotone self reference box radius radius'
  active protein_active water_active self' :
  0 <= radius <= radius' ->
  select_active_site self reference box radius
  = Ok (self', (active, protein_active, water_active)) ->
  exists self'' active' protein_active' water_active',
    select_active_site self reference box radius'
    = Ok (self'', (active', protein_active', water_active'))
    /\ incl active active'
    /\ incl protein_active protein_active'
    /\ incl water_active water_active'.
Proof.
  intros Hrad H.
  destruct reference as [| r0 reference].
  - unfold select_active_site in *.
    destruct (protein_atoms self); simpl in *; [| discriminate].
    destruct (water_molecules self); simpl in *; [| discriminate].
    inversion H; subst. do 4 eexists. split; [reflexivity |].
    repeat split; apply incl_refl.
  - assert (Hr : r0 :: reference <> []) by discriminate.
    rewrite (select_active_site_eq _ _ _ _ Hr) in H. simpl in H.
    inversion H; subst. clear H.
    rewrite (select_active_site_eq _ _ _ _ Hr). simpl.
    do 4 eexists. split; [reflexivity |].
    assert (Hw : incl (filter (fun mol => close_to None radius
                                          (water_positions mol)
                                          (r0 :: reference))
                              (water_molecules self))
                      (filter (fun mol => close_to None radius'
                                          (water_positions mol)
                                          (r0 :: reference))
                              (water_molecules self))).
    { apply filter_incl_imp. intros mol _.
      apply close_to_wider; auto. discriminate. }
    split; [| split].
    + apply incl_app.
      * apply incl_appl. intros f Hf. apply in_map_iff in Hf.
        destruct Hf as (atm & <- & Hatm). apply in_map.
        revert Hatm. apply filter_incl_imp. intros a _ Ha.
        apply orb_true_iff in Ha. apply orb_true_iff.
        destruct Ha as [Ha | Ha]; [left; exact Ha | right].
        eapply close_to_wider; eauto. discriminate.
      * apply incl_appr. intros f Hf. apply in_map_iff in Hf.
        destruct Hf as (mol & <- & Hmol). apply in_map. apply Hw, Hmol.
    + apply filter_incl_imp. intros a _ Ha.
      apply andb_true_iff in Ha. apply andb_true_iff.
      destruct Ha as [Ha Hb]. split; [exact Ha |].
      eapply close_to_wider; eauto. discriminate.
    + exact Hw.
Qed.

Lemma min_image_le L d : 0 <= min_image L d <= Z.abs d.
Proof.
  unfold min_image. destruct (L <=? 0) eqn:HL; [lia |].
  assert (0 < L) by lia.
  pose proof (Z.mod_pos_bound d L H) as Hm.
  pose proof (Z.div_mod d L) as Hd.
  destruct (Z_le_gt_dec 0 d) as [Hpos | Hneg].
  - assert (d mod L <= d) by (apply Z.mod_le; lia). lia.
  - assert (d / L < 0) by (apply Z.div_lt_upper_bound; lia).
    nia.
Qed.

Lemma sqdist_box_le box a b : sqdist_box box a b <= sqdist a b.
Proof.
  destruct box as [bx |]; [| simpl; lia].
  unfold sqdist_box, sqdist.
  destruct (vsub a b) as [[x y] z]. unfold sqnorm.
  pose proof (min_image_le (box_x bx) x).
  pose proof (min_image_le (box_y bx) y).
  pose proof (min_image_le (box_z bx) z).
  assert (forall m d, 0 <= m <= Z.abs d -> m * m <= d * d) by (intros; nia).
  pose proof (H2 _ _ H). pose proof (H2 _ _ H0). pose proof (H2 _ _ H1).
  lia.
Qed.

(** The periodic box enters the protein loop only: the waters selected are
    the same under every box, and every protein atom selected without a
    box is selected with one. *)
Theorem select_active_site_box self reference box radius
  self' active protein_active water_active :
  select_active_site self reference None radius
  = Ok (self', (active, protein_active, water_active)) ->
  exists self'' active' protein_active',
    select_active_site self reference box radius
    = Ok (self'', (active', protein_active', water_active))
    /\ incl active active'
    /\ incl protein_active protein_active'.
Proof.
  intros H.
  destruct reference as [| r0 reference].
  - unfold select_active_site in *.
    destruct (protein_atoms self); simpl in *; [| discriminate].
    destruct (water_molecules self); simpl in *; [| discriminate].
    inversion H; subst. do 3 eexists. split; [reflexivity |].
    split; apply incl_refl.
  - assert (Hr : r0 :: reference <> []) by discriminate.
    rewrite (select_active_site_eq _ _ _ _ Hr) in H. simpl in H.
    inversion H; subst. clear H.
    rewrite (select_active_site_eq _ _ _ _ Hr). simpl.
    do 3 eexists. split; [reflexivity |].
    assert (Hc : forall atm,
               close_to None radius [OtherAtom.coordinates atm]
                        (r0 :: reference) = true ->
               close_to box radius [OtherAtom.coordinates atm]
                        (r0 :: reference) = true).
    { intros atm. rewrite !close_to_exists by discriminate.
      intros (p & r & Hp & Hrin & Hle). exists p, r.
      repeat split; auto.
      eapply le_len_smaller; [apply sqdist_box_le | exact Hle]. }
    split.
    + apply incl_app; [apply incl_appl | apply incl_appr, incl_refl].
      intros f Hf. apply in_map_iff in Hf.
      destruct Hf as (atm & <- & Hatm). apply in_map.
      revert Hatm. apply filter_incl_imp. intros a _ Ha.
      apply orb_true_iff in Ha. apply orb_true_iff.
      destruct Ha as [Ha | Ha]; [left; exact Ha | right; apply Hc, Ha].
    + apply filter_incl_imp. intros a _ Ha.
      apply andb_true_iff in Ha. apply andb_true_iff.
      destruct Ha as [Ha Hb]. split; [exact Ha | apply Hc, Hb].
Qed.

(** ** The graph that the builders assemble *)

Lemma for_loop_pure {S A : Type} (f : S -> A -> S) (l : list A) (s : S) :
  for_loop (fun s a => Ok (f s a)) l s = Ok (fold_left f l s).
Proof.
  revert s; induction l as [| a l IH]; intros s; simpl; [reflexivity |].
  apply IH.
Qed.

Lemma for_loop_invariant {S A : Type} (P : S -> Prop)
  (body : S -> A -> result S) (l : list A) (s s' : S) :
  (forall s a s', body s a = Ok s' -> P s -> P s') ->
  P s -> for_loop body l s = Ok s' -> P s'.
Proof.
  intros Hstep. revert s; induction l as [| a l IH]; intros s Hs H; simpl in H.
  - inversion H; subst; exact Hs.
  - inv_bind H. eapply IH; [| exact H]. eapply Hstep; eauto.
Qed.

Lemma has_key_In n l : has_key n l = true <-> In n (map fst l).
Proof.
  unfold has_key. rewrite existsb_exists, in_map_iff. split.
  - intros (na & Hin & Heq). exists na. split; [lia | exact Hin].
  - intros (na & Heq & Hin). exists na. split; [exact Hin | lia].
Qed.

Lemma update_node_new n d l :
  ~ In n (map fst l) -> update_node n d l = l ++ [(n, d)].
Proof.
  induction l as [| [m e] l IH]; simpl; intros Hn; [reflexivity |].
  destruct (m =? n) eqn:Hm; [exfalso; apply Hn; left; lia |].
  rewrite IH; [reflexivity |]. intros H; apply Hn; right; exact H.
Qed.

Lemma touch_node_old n l : In n (map fst l) -> touch_node n l = l.
Proof.
  intros H. unfold touch_node.
  apply has_key_In in H. unfold has_key in H. rewrite H. reflexivity.
Qed.

Lemma add_water_nodes l G :
  NoDup (map fst (nodes G) ++ map O_index l) ->
  fold_left add_water_node l G
  = mk_Graph (is_directed G) (nodes G ++ map water_node l) (edges G).
Proof.
  revert G; induction l as [| w l IH]; intros G Hnd; simpl.
  - rewrite app_nil_r. destruct G; reflexivity.
  - rewrite IH.
    + simpl. rewrite update_node_new.
      * rewrite <- app_assoc. reflexivity.
      * apply NoDup_remove_2 in Hnd. intros H; apply Hnd.
        apply in_or_app; left; exact H.
    + simpl. rewrite update_node_new.
      * rewrite map_app, <- app_assoc. simpl.
        apply NoDup_remove in Hnd. destruct Hnd as [Hnd Hn].
        apply (NoDup_Add (a := O_index w) (l := map fst (nodes G) ++ map O_index l)).
        -- apply Add_app.
        -- split; [exact Hnd | exact Hn].
      * apply NoDup_remove_2 in Hnd. intros H; apply Hnd.
        apply in_or_app; left; exact H.
Qed.

Lemma update_edge_new dir u v d es :
  (forall e, In e es -> same_edge dir u v e = false) ->
  update_edge dir u v d es = es ++ [(u, v, d)].
Proof.
  induction es as [| e es IH]; simpl; intros H; [reflexivity |].
  rewrite (H e (or_introl eq_refl)). rewrite IH; [reflexivity |].
  intros e' He'. apply H. right; exact He'.
Qed.

Lemma same_edge_unordered c c' :
  unordered_pair c <> unordered_pair c' ->
  same_edge false (index1 c') (index2 c') (edge_of c) = false.
Proof.
  unfold unordered_pair, edge_of, same_edge. intros H.
  destruct ((index1 c =? index1 c') && (index2 c =? index2 c')) eqn:H1.
  - exfalso. apply H. apply andb_true_iff in H1. f_equal; lia.
  - simpl.
    destruct ((index1 c =? index2 c') && (index2 c =? index1 c')) eqn:H2;
      [| reflexivity].
    exfalso. apply H. apply andb_true_iff in H2. f_equal; lia.
Qed.

(** Connections between nodes of the graph, with distinct unordered pairs
    of end points, become one edge each and add no node. *)
Lemma add_connections_undirected conns G :
  is_directed G = false ->
  (forall c, In c conns ->
             In (index1 c) (map fst (nodes G))
             /\ In (index2 c) (map fst (nodes G))) ->
  NoDup (map unordered_pair conns) ->
  (forall e c, In e (edges G) -> In c conns ->
               same_edge false (index1 c) (index2 c) e = false) ->
  fold_left add_connection conns G
  = mk_Graph false (nodes G) (edges G ++ map edge_of conns).
Proof.
  revert G; induction conns as [| c conns IH]; intros G Hdir Hnodes Hnd Hold;
    simpl.
  - rewrite app_nil_r. destruct G; simpl in *; subst; reflexivity.
  - inversion Hnd as [| ? ? Hc Hnd']; subst.
    destruct (Hnodes c (or_introl eq_refl)) as (H1 & H2).
    assert (Hstep : add_connection G c
                    = mk_Graph false (nodes G) (edges G ++ [edge_of c])).
    { unfold add_connection, add_edge. rewrite Hdir.
      rewrite (touch_node_old _ _ H1), (touch_node_old _ _ H2).
      rewrite update_edge_new; [reflexivity |].
      intros e He. apply Hold; [exact He | left; reflexivity]. }
    rewrite Hstep. rewrite IH; simpl.
    + rewrite <- app_assoc. reflexivity.
    + reflexivity.
    + intros c' Hc'. apply Hnodes. right; exact Hc'.
    + exact Hnd'.
    + intros e c' He Hc'. apply in_app_or in He.
      destruct He as [He | [<- | []]].
      * apply Hold; [exact He | right; exact Hc'].
      * apply same_edge_unordered. intros Heq. apply Hc.
        rewrite Heq. apply in_map; exact Hc'.
Qed.

Lemma ww_scan_NoDup self cutoff waters t x k ww :
  NoDup (map O_index waters) ->
  scan (ww_slot self cutoff waters (map O_index waters)
                (map (fun _ => "O") waters))
       (query t x k cutoff) = Ok ww ->
  NoDup (map unordered_pair ww).
Proof.
  intros Hnd Hww. unfold scan in Hww.
  apply (for_each_NoDup unordered_pair _ _ _ Hww).
  - intros [i row] o Hrow Ho. simpl in Ho.
    destruct (query_row _ _ _ _ _ _ Hrow) as (q & Hq & ->).
    apply (for_each_NoDup unordered_pair _ _ _ Ho).
    + intros [d n] o' _ Ho'.
      assert (Hlen : (length o' <= 1)%nat).
      { revert Ho'. unfold ww_slot.
        repeat match goal with
               | |- context [if ?b then _ else _] => destruct b
               | |- context [bind ?m _] => destruct m; simpl
               | |- context [match ?m with Some _ => _ | None => _ end] =>
                   destruct m; simpl
               end; intros Ho'; inversion Ho'; simpl; lia. }
      destruct o' as [| c1 [| c2 o']]; simpl in *; try lia;
        repeat constructor; auto.
    + eapply FOP_impl; [| apply query_point_pairs].
      intros [d n] [d' n'] _ _ Hpair o1 o2 c c' Ho1 Ho2 Hc Hc'. simpl in *.
      destruct (ww_slot_out _ _ _ _ _ _ _ _ Ho1 Hc)
        as (wi & wn & Hwi & Hwn & _ & Hle & Hlt & ->).
      destruct (ww_slot_out _ _ _ _ _ _ _ _ Ho2 Hc')
        as (wi' & wn' & Hwi' & Hwn' & _ & Hle' & Hlt' & ->).
      unfold unordered_pair; simpl. intros Heq.
      assert (O_index wn = O_index wn') by (inversion Heq; lia).
      apply Hpair.
      * destruct d; [discriminate | discriminate Hle].
      * destruct d'; [discriminate | discriminate Hle'].
      * eapply (NoDup_map_nth_error O_index); eauto.
  - eapply FOP_impl; [| apply enumerate_pairs].
    intros [i row] [i' row'] _ _ Hii o1 o2 c c' Ho1 Ho2 Hc Hc'. simpl in *.
    destruct (for_each_In _ _ _ _ Ho1 Hc) as ([d n] & o & _ & Ho & Hin).
    destruct (for_each_In _ _ _ _ Ho2 Hc') as ([d' n'] & o' & _ & Ho' & Hin').
    destruct (ww_slot_out _ _ _ _ _ _ _ _ Ho Hin)
      as (wi & wn & Hwi & Hwn & _ & Hle & Hlt & ->).
    destruct (ww_slot_out _ _ _ _ _ _ _ _ Ho' Hin')
      as (wi' & wn' & Hwi' & Hwn' & _ & Hle' & Hlt' & ->).
    unfold unordered_pair; simpl. intros Heq.
    assert (O_index wi = O_index wi') by (inversion Heq; lia).
    apply Hii. eapply (NoDup_map_nth_error O_index); eauto.
Qed.

Lemma NoDup_map_injective {A B : Type} (f : A -> B) (l : list A) :
  (forall x y, In x l -> In y l -> f x = f y -> x = y) ->
  NoDup l -> NoDup (map f l).
Proof.
  intros Hinj Hnd. induction Hnd as [| a l Ha _ IH]; simpl; constructor.
  - intros Hin. apply in_map_iff in Hin. destruct Hin as (b & Heq & Hb).
    assert (b = a) by (apply Hinj; [right; exact Hb | left; reflexivity |
                                    exact Heq]).
    subst b. contradiction.
  - apply IH. intros x y Hx Hy. apply Hinj; right; assumption.
Qed.

(** Distinct pairs of distinct elements, lower first, of a list without
    repetition: there are no more of them than unordered pairs. *)
Lemma ordered_pairs_count (ids : list Z) (ps : list (Z * Z)) :
  NoDup ids -> NoDup ps ->
  (forall p, In p ps -> fst p < snd p /\ In (fst p) ids /\ In (snd p) ids) ->
  (2 * length ps + length ids <= length ids * length ids)%nat.
Proof.
  intros Hids Hps Hp.
  set (swap := fun p : Z * Z => (snd p, fst p)).
  set (diag := fun i : Z => (i, i)).
  assert (Hnd : NoDup (ps ++ map swap ps ++ map diag ids)).
  { apply NoDup_app; [exact Hps | apply NoDup_app |].
    - apply NoDup_map_injective; [| exact Hps].
      intros [a b] [a' b'] _ _ H. unfold swap in H. simpl in H.
      inversion H; reflexivity.
    - apply NoDup_map_injective; [| exact Hids].
      intros x y _ _ H. unfold diag in H. inversion H; reflexivity.
    - intros p Hin Hin'. apply in_map_iff in Hin.
      destruct Hin as ([a b] & <- & Hab). apply in_map_iff in Hin'.
      destruct Hin' as (i & Heq & _). unfold swap, diag in Heq.
      simpl in Heq. inversion Heq; subst.
      destruct (Hp _ Hab) as (Hlt & _). simpl in Hlt. lia.
    - intros [a b] Hin Hin'. destruct (Hp _ Hin) as (Hlt & _).
      simpl in Hlt. apply in_app_or in Hin'. destruct Hin' as [Hin' | Hin'].
      + apply in_map_iff in Hin'. destruct Hin' as ([a' b'] & Heq & Hab').
        unfold swap in Heq. simpl in Heq. inversion Heq; subst.
        destruct (Hp _ Hab') as (Hlt' & _). simpl in Hlt'. lia.
      + apply in_map_iff in Hin'. destruct Hin' as (i & Heq & _).
        unfold diag in Heq. inversion Heq; subst. lia. }
  assert (Hincl : incl (ps ++ map swap ps ++ map diag ids)
                       (list_prod ids ids)).
  { intros [a b] Hin. apply in_prod_iff.
    apply in_app_or in Hin. destruct Hin as [Hin | Hin].
    - destruct (Hp _ Hin) as (_ & Ha & Hb). auto.
    - apply in_app_or in Hin. destruct Hin as [Hin | Hin].
      + apply in_map_iff in Hin. destruct Hin as ([a' b'] & Heq & Hab').
        unfold swap in Heq. simpl in Heq. inversion Heq; subst.
        destruct (Hp _ Hab') as (_ & Ha & Hb). auto.
      + apply in_map_iff in Hin. destruct Hin as (i & Heq & Hi).
        unfold diag in Heq. inversion Heq; subst. auto. }
  pose proof (NoDup_incl_length Hnd Hincl) as Hlen.
  rewrite !length_app, !length_map, length_prod in Hlen. lia.
Qed.

Lemma generate_oxygen_network_waters_eq self box msa radius cutoff :
  generate_oxygen_network self box msa None radius false true cutoff
  = (conns <- find_connections self cutoff None None false true ;;
     let G := fold_left add_connection conns
                (fold_left add_water_node (water_molecules self) nx_Graph) in
     Ok (set_graph (set_connections self (Some conns)) (Some G), G)).
Proof.
  unfold generate_oxygen_network. simpl.
  rewrite for_loop_pure. simpl.
  destruct (find_connections self cutoff None None false true); reflexivity.
Qed.

(** The water-only connections are water-water connections between waters
    of the scope, with distinct unordered pairs of end points. *)
Lemma find_connections_water_only self cutoff wa pa aso waters conns :
  scope aso wa (water_molecules self) = Some waters ->
  NoDup (map O_index waters) ->
  find_connections self cutoff wa pa aso true = Ok conns ->
  NoDup (map unordered_pair conns)
  /\ forall c, In c conns ->
               index1 c < index2 c
               /\ In (index1 c) (map O_index waters)
               /\ In (index2 c) (map O_index waters).
Proof.
  intros Hscope Hnd H.
  destruct (find_connections_split _ _ _ _ _ _ _ H)
    as (waters' & tree & ww & wp & Hscope' & Ht & Hww & Hwp & ->).
  rewrite Hscope in Hscope'. inversion Hscope'; subst waters'.
  simpl in Hwp. subst wp. rewrite app_nil_r. split.
  - eapply ww_scan_NoDup; eauto.
  - intros c Hc.
    destruct (ww_part_out _ _ _ _ _ _ Ht Hww Hc)
      as (i & n & wi & wn & Hwi & Hwn & _ & _ & Hlt & ->).
    simpl. repeat split; auto; apply in_map; eapply nth_error_In; eauto.
Qed.

Lemma oxygen_network_waters self box msa radius cutoff self' G :
  NoDup (map O_index (water_molecules self)) ->
  generate_oxygen_network self box msa None radius false true cutoff
  = Ok (self', G) ->
  exists conns,
    find_connections self cutoff None None false true = Ok conns
    /\ self' = set_graph (set_connections self (Some conns)) (Some G)
    /\ G = mk_Graph false (map water_node (water_molecules self))
                    (map edge_of conns)
    /\ NoDup (map unordered_pair conns)
    /\ forall c, In c conns ->
                 index1 c < index2 c
                 /\ In (index1 c) (map O_index (water_molecules self))
                 /\ In (index2 c) (map O_index (water_molecules self)).
Proof.
  intros Hnd H. rewrite generate_oxygen_network_waters_eq in H.
  apply bind_Ok in H. destruct H as (conns & Hconns & H).
  simpl in H. inversion H; subst. clear H.
  exists conns.
  destruct (find_connections_water_only self cutoff None None false
              (water_molecules self) conns eq_refl Hnd Hconns)
    as (Hpairs & Hends).
  assert (HG : fold_left add_connection conns
                 (fold_left add_water_node (water_molecules self) nx_Graph)
               = mk_Graph false (map water_node (water_molecules self))
                          (map edge_of conns)).
  { rewrite add_water_nodes by exact Hnd. simpl.
    rewrite add_connections_undirected; simpl; auto.
    - intros c Hc. destruct (Hends c Hc) as (_ & H1 & H2).
      rewrite map_map. simpl. auto.
    - intros e c []. }
  rewrite HG.
  split; [exact Hconns |]. split; [reflexivity |]. split; [reflexivity |].
  split; [exact Hpairs | exact Hends].
Qed.

(** The oxygen network of the waters alone, without active site, when the
    oxygen indices are distinct: the nodes are the waters, one WAT node
    each in the order of the network; the edges are the connections of
    [find_connections], one undirected edge each in their order; the
    graph and the connections are stored in the network. *)
Theorem oxygen_network_of_waters self box msa radius cutoff self' G :
  NoDup (map O_index (water_molecules self)) ->
  generate_oxygen_network self box msa None radius false true cutoff
  = Ok (self', G) ->
  exists conns,
    find_connections self cutoff None None false true = Ok conns
    /\ connections self' = Some conns
    /\ graph self' = Some G
    /\ is_directed G = false
    /\ nodes G = map water_node (water_molecules self)
    /\ edges G = map edge_of conns.
Proof.
  intros Hnd H.
  destruct (oxygen_network_waters _ _ _ _ _ _ _ Hnd H)
    as (conns & Hconns & -> & -> & _).
  exists conns. repeat split; auto.
Qed.

(** The density of that network, when it has two waters or more, is a
    number between 0 and 1. *)
Theorem oxygen_network_density self box msa radius cutoff self' G :
  NoDup (map O_index (water_molecules self)) ->
  (2 <= length (water_molecules self))%nat ->
  generate_oxygen_network self box msa None radius false true cutoff
  = Ok (self', G) ->
  exists q, get_density self' "all" = Ok q /\ (0 <= q <= 1)%Q.
Proof.
  intros Hnd Hlen H.
  destruct (oxygen_network_waters _ _ _ _ _ _ _ Hnd H)
    as (conns & Hconns & -> & -> & Hpairs & Hends).
  erewrite get_density_all by reflexivity.
  unfold number_of_nodes, number_of_edges. simpl.
  rewrite !length_map.
  set (n := length (water_molecules self)) in *.
  set (e := length conns).
  assert (Hcount : (2 * e + n <= n * n)%nat).
  { pose proof (ordered_pairs_count (map O_index (water_molecules self))
                  (map (fun c => (index1 c, index2 c)) conns) Hnd) as Hc.
    rewrite !length_map in Hc. fold n e in Hc. apply Hc.
    - apply NoDup_map_injective.
      + intros x y Hx Hy Heq.
        assert (Hxy : unordered_pair x = unordered_pair y).
        { unfold unordered_pair. inversion Heq. congruence. }
        clear Heq.
        revert Hxy.
        assert (Hinj : forall l, NoDup (map unordered_pair l) ->
                                 In x l -> In y l ->
                                 unordered_pair x = unordered_pair y ->
                                 x = y).
        { intros l; induction l as [| a l IH]; simpl; intros Hl Hxl Hyl Hk;
            [destruct Hxl |].
          inversion Hl; subst.
          destruct Hxl as [-> | Hxl], Hyl as [-> | Hyl]; auto.
          - exfalso. apply H2. rewrite Hk. apply in_map; exact Hyl.
          - exfalso. apply H2. rewrite <- Hk. apply in_map; exact Hxl. }
        apply (Hinj conns); assumption.
      + eapply NoDup_map_inv; exact Hpairs.
    - intros p Hp. apply in_map_iff in Hp. destruct Hp as (c & <- & Hc').
      simpl. apply Hends; exact Hc'. }
  replace (n <? 2)%nat with false by (symmetry; apply Nat.ltb_ge; lia).
  eexists. split; [reflexivity |].
  assert (Hpos : (0 < inject_Z (Z.of_nat n * (Z.of_nat n - 1)) / 2)%Q).
  { apply Qlt_shift_div_l; [reflexivity |].
    rewrite Qmult_0_l. rewrite <- (Zlt_Qlt 0). nia. }
  split.
  - apply Qle_shift_div_l; [exact Hpos |].
    rewrite Qmult_0_l. rewrite <- (Zle_Qle 0). lia.
  - apply Qle_shift_div_r; [exact Hpos |].
    rewrite Qmult_1_l. apply Qle_shift_div_l; [reflexivity |].
    rewrite <- (inject_Z_mult _ 2). rewrite <- Zle_Qle. nia.
Qed.

(** ** The builders in the active-site-only mode *)

Lemma find_connections_status self cutoff wa pa aso wo waters conns c :
  scope aso wa (water_molecules self) = Some waters ->
  find_connections self cutoff wa pa aso wo = Ok conns ->
  In c conns ->
  exists wi,
    In wi waters
    /\ (site_status c = ww_status self wi
        \/ exists pn, site_status c = wp_status self wi pn).
Proof.
  intros Hscope H Hc.
  destruct (find_connections_split _ _ _ _ _ _ _ H)
    as (waters' & tree & ww & wp & Hscope' & Ht & Hww & Hwp & ->).
  rewrite Hscope in Hscope'. inversion Hscope'; subst waters'.
  apply in_app_or in Hc. destruct Hc as [Hc | Hc].
  - destruct (ww_part_out _ _ _ _ _ _ Ht Hww Hc)
      as (i & n & wi & wn & Hwi & _ & _ & _ & _ & ->).
    exists wi. split; [eapply nth_error_In; eauto | left; reflexivity].
  - destruct (negb wo); [| subst; destruct Hc].
    destruct Hwp as (ps & ptree & Hps & Hpt & Hscan).
    destruct (cKDTree_data _ _ Ht) as (_ & Hrows & _).
    rewrite Hrows in Hscan.
    destruct (scan_In _ _ _ _ _ _ _ Hscan Hc)
      as (i & q & [d n] & o & Hq & Hslot & Ho & Hin).
    destruct (wp_slot_full _ _ _ _ _ _ _ _ _ Ho Hin)
      as (wi & pn & Hwi & Hpn & Hle & ->).
    exists wi. split; [eapply nth_error_In; eauto |].
    right; exists pn; reflexivity.
Qed.

(** A water of the active site carries the tag [active_site] in both loops
    of [find_connections]. *)
Lemma active_water_status self acts water_active wi :
  active_site self = Some (acts ++ map Water water_active) ->
  In wi water_active ->
  ww_status self wi = "active_site"
  /\ forall pn, wp_status self wi pn = "active_site".
Proof.
  intros Hact Hwi. unfold ww_status, wp_status. rewrite Hact.
  assert (Hin : In (Water wi) (acts ++ map Water water_active)).
  { apply in_or_app; right. apply in_map; exact Hwi. }
  split; [| intros pn].
  - replace (existsb _ _) with true; [reflexivity |].
    symmetry. apply existsb_exists. exists (Water wi).
    split; [exact Hin | simpl; apply Z.eqb_refl].
  - replace (existsb _ _) with true; [reflexivity |].
    symmetry. apply existsb_exists. exists (Water wi).
    split; [exact Hin | simpl; rewrite Z.eqb_refl; reflexivity].
Qed.

Lemma update_edge_has dir u v d es :
  exists e, In e (update_edge dir u v d es)
            /\ same_edge dir u v e = true /\ snd e = d.
Proof.
  induction es as [| e es IH]; simpl.
  - exists (u, v, d). split; [left; reflexivity |]. split; [| reflexivity].
    simpl. rewrite !Z.eqb_refl. reflexivity.
  - destruct (same_edge dir u v e) eqn:He.
    + exists (fst (fst e), snd (fst e), d).
      split; [left; reflexivity |]. split; [| reflexivity].
      destruct e as [[a b] d']. exact He.
    + destruct IH as (e' & Hin & Hs & Hd).
      exists e'. split; [right; exact Hin | auto].
Qed.

Lemma update_edge_keeps dir u v d es a b e :
  In e es -> same_edge dir a b e = true ->
  exists e', In e' (update_edge dir u v d es)
             /\ same_edge dir a b e' = true.
Proof.
  induction es as [| e0 es IH]; simpl; intros Hin Hs; [destruct Hin |].
  destruct (same_edge dir u v e0) eqn:He0.
  - destruct Hin as [<- | Hin].
    + exists (fst (fst e0), snd (fst e0), d). split; [left; reflexivity |].
      destruct e0 as [[x y] d']. exact Hs.
    + exists e. split; [right; exact Hin | exact Hs].
  - destruct Hin as [<- | Hin].
    + exists e0. split; [left; reflexivity | exact Hs].
    + destruct (IH Hin Hs) as (e' & Hin' & Hs').
      exists e'. split; [right; exact Hin' | exact Hs'].
Qed.

Lemma add_connections_directed conns G :
  is_directed (fold_left add_connection conns G) = is_directed G.
Proof.
  revert G; induction conns as [| c conns IH]; intros G; simpl;
    [reflexivity |].
  rewrite IH. reflexivity.
Qed.

Lemma add_connections_keeps conns G a b e :
  In e (edges G) -> same_edge (is_directed G) a b e = true ->
  exists e', In e' (edges (fold_left add_connection conns G))
             /\ same_edge (is_directed G) a b e' = true.
Proof.
  revert G e; induction conns as [| c conns IH]; intros G e Hin Hs; simpl.
  - exists e; auto.
  - destruct (update_edge_keeps (is_directed G) (index1 c) (index2 c)
                (mk_edge_data (connection_type c) (site_status c))
                (edges G) a b e Hin Hs) as (e1 & Hin1 & Hs1).
    apply (IH (add_connection G c) e1); assumption.
Qed.

(** Every connection that is added has its edge in the graph. *)
Lemma add_connections_has conns G c :
  In c conns ->
  exists e, In e (edges (fold_left add_connection conns G))
            /\ same_edge (is_directed G) (index1 c) (index2 c) e = true.
Proof.
  revert G; induction conns as [| c0 conns IH]; intros G Hc; simpl;
    [destruct Hc |].
  destruct Hc as [-> | Hc].
  - destruct (update_edge_has (is_directed G) (index1 c) (index2 c)
                (mk_edge_data (connection_type c) (site_status c))
                (edges G)) as (e & Hin & Hs & _).
    apply (add_connections_keeps conns (add_connection G c) _ _ e);
      assumption.
  - apply (IH (add_connection G c0) Hc).
Qed.

(** The edges that [add_connection] makes carry the tags of the
    connections. *)
Lemma add_connections_tags (P : string -> Prop) conns G :
  (forall e, In e (edges G) -> P (edge_active_site (snd e))) ->
  (forall c, In c conns -> P (site_status c)) ->
  forall e, In e (edges (fold_left add_connection conns G)) ->
            P (edge_active_site (snd e)).
Proof.
  revert G; induction conns as [| c conns IH]; intros G HG Hc; simpl;
    [exact HG |].
  apply IH; [| intros c' Hc'; apply Hc; right; exact Hc'].
  intros e He. simpl in He.
  assert (Hup : forall es,
             (forall e, In e es -> P (edge_active_site (snd e))) ->
             forall e,
               In e (update_edge (is_directed G) (index1 c) (index2 c)
                       (mk_edge_data (connection_type c) (site_status c))
                       es) ->
               P (edge_active_site (snd e))).
  { intros es; induction es as [| e0 es IHes]; simpl; intros Hes e1 He1.
    - destruct He1 as [<- | []]. simpl. apply Hc. left; reflexivity.
    - destruct (same_edge (is_directed G) (index1 c) (index2 c) e0).
      + destruct He1 as [<- | He1].
        * simpl. apply Hc. left; reflexivity.
        * apply Hes. right; exact He1.
      + destruct He1 as [<- | He1].
        * apply Hes. left; reflexivity.
        * apply IHes; [| exact He1].
          intros e2 He2. apply Hes. right; exact He2. }
  apply (Hup (edges G) HG e He).
Qed.

Lemma for_loop_edges {A : Type} (body : Graph -> A -> result Graph)
  (l : list A) (G G' : Graph) :
  (forall G a G', body G a = Ok G' ->
                  edges G' = edges G /\ is_directed G' = is_directed G) ->
  for_loop body l G = Ok G' ->
  edges G' = edges G /\ is_directed G' = is_directed G.
Proof.
  intros Hstep H.
  apply (for_loop_invariant
           (fun X => edges X = edges G /\ is_directed X = is_directed G)
           body l G G'); auto.
  intros s a s' Hb (He & Hd). destruct (Hstep _ _ _ Hb) as (He' & Hd').
  split; congruence.
Qed.

(** What the active-site-only branch of [generate_oxygen_network] does,
    step by step. *)
Lemma generate_oxygen_network_active self box msa reference radius wo cutoff
  self' G :
  generate_oxygen_network self box msa (Some reference) radius true wo cutoff
  = Ok (self', G) ->
  exists self1 active protein_active water_active G0 conns,
    select_active_site self reference box radius
    = Ok (self1, (active, protein_active, water_active))
    /\ edges G0 = [] /\ is_directed G0 = false
    /\ (wo = true -> G0 = fold_left add_water_node water_active nx_Graph)
    /\ find_connections self1 cutoff (Some water_active)
                        (Some protein_active) true wo = Ok conns
    /\ self' = set_graph (set_connections self1 (Some conns)) (Some G)
    /\ G = fold_left add_connection (filter tagged_active_site conns) G0.
Proof.
  intros H. unfold generate_oxygen_network, select_if_reference in H.
  inv_bind H. inv_bind E.
  destruct v0 as [self1 [[active protein_active] water_active]].
  simpl in E. inversion E; subst v. clear E. simpl in H.
  inv_bind H. destruct v as [self2 G2]. simpl in H. inversion H; subst.
  clear H. inv_bind E. inv_bind E. inv_bind E.
  simpl in E. inversion E; subst. clear E.
  rewrite for_loop_pure in E1. inversion E1; subst v. clear E1.
  exists self1, active, protein_active, water_active, v0, v1.
  assert (Hv0 : edges v0 = [] /\ is_directed v0 = false
                /\ (wo = true
                    -> v0 = fold_left add_water_node water_active nx_Graph)).
  { assert (Hw : forall l G,
               edges (fold_left add_water_node l G) = edges G
               /\ is_directed (fold_left add_water_node l G)
                  = is_directed G).
    { intros l; induction l as [| w l IH]; intros G; simpl; [auto |].
      destruct (IH (add_water_node G w)) as (-> & ->). auto. }
    destruct (Hw water_active nx_Graph) as (Hwe & Hwd).
    destruct wo; simpl in E2.
    - inversion E2; subst v0. repeat split; auto.
    - apply for_loop_edges in E2.
      + destruct E2 as (-> & ->). repeat split; auto. discriminate.
      + intros G a G' Hb. inv_bind Hb. inversion Hb; subst.
        simpl. auto. }
  destruct Hv0 as (He & Hd & Hwo).
  repeat split; auto.
Qed.

Lemma select_active_site_Ok self reference box radius self1 active
  protein_active water_active :
  select_active_site self reference box radius
  = Ok (self1, (active, protein_active, water_active)) ->
  exists atoms,
    self1 = set_active_site self (Some active)
    /\ active = map Atom atoms ++ map Water water_active
    /\ atoms
       = filter (fun atm => in_reference reference (OtherAtom.resid atm)
                            || close_to box radius
                                        [OtherAtom.coordinates atm] reference)
                (protein_atoms self)
    /\ protein_active
       = filter (fun atm => negb (in_reference reference
                                               (OtherAtom.resid atm))
                            && close_to box radius
                                        [OtherAtom.coordinates atm] reference)
                (protein_atoms self)
    /\ water_active
       = filter (fun mol => close_to None radius (water_positions mol)
                                     reference)
                (water_molecules self).
Proof.
  intros H. destruct reference as [| r refs].
  - unfold select_active_site in H.
    destruct (protein_atoms self) as [| atm l]; simpl in H;
      [| discriminate].
    destruct (water_molecules self) as [| mol l']; simpl in H;
      [| discriminate].
    inversion H; subst. exists []. repeat split.
  - rewrite select_active_site_eq in H by discriminate.
    simpl in H. inversion H; subst. eexists. repeat split.
Qed.

Lemma NoDup_map_filter {A B : Type} (f : A -> B) (g : A -> bool)
  (l : list A) :
  NoDup (map f l) -> NoDup (map f (filter g l)).
Proof.
  induction l as [| a l IH]; simpl; intros H; [constructor |].
  inversion H as [| ? ? Ha Hl]; subst.
  destruct (g a); simpl; [constructor |]; auto.
  intros Hin. apply Ha. apply in_map_iff in Hin.
  destruct Hin as (x & Hx & Hin). apply filter_In in Hin.
  rewrite <- Hx. apply in_map. apply Hin.
Qed.

(** In the active-site-only mode of [generate_oxygen_network] every
    connection that [find_connections] returns is tagged [active_site]:
    the filter on the tag drops none of them, each stored connection has
    its edge in the graph, and every edge of the graph carries the tag. *)
Theorem oxygen_network_active_site_tags self box msa reference radius wo
  cutoff self' G :
  generate_oxygen_network self box msa (Some reference) radius true wo cutoff
  = Ok (self', G) ->
  exists conns,
    connections self' = Some conns
    /\ graph self' = Some G
    /\ (forall c, In c conns -> site_status c = "active_site")
    /\ (forall c, In c conns ->
                  exists e, In e (edges G)
                            /\ same_edge false (index1 c) (index2 c) e = true)
    /\ (forall e, In e (edges G) ->
                  edge_active_site (snd e) = "active_site").
Proof.
  intros H.
  destruct (generate_oxygen_network_active _ _ _ _ _ _ _ _ _ H)
    as (self1 & active & pa & wa & G0 & conns & Hsel & HG0 & Hdir & _
        & Hconns & -> & ->).
  destruct (select_active_site_Ok _ _ _ _ _ _ _ _ Hsel)
    as (atoms & -> & -> & _ & _ & Hwa).
  assert (Htags : forall c, In c conns -> site_status c = "active_site").
  { intros c Hc.
    destruct (find_connections_status _ _ (Some wa) (Some pa) true wo wa
                _ c eq_refl Hconns Hc) as (wi & Hwi & Hs).
    destruct (active_water_status
                (set_active_site self
                   (Some (map Atom atoms ++ map Water wa)))
                (map Atom atoms) wa wi eq_refl Hwi) as (Hww & Hwp).
    destruct Hs as [-> | (pn & ->)]; auto. }
  assert (Hall : filter tagged_active_site conns = conns).
  { apply filter_all. intros c Hc. unfold tagged_active_site.
    rewrite (Htags c Hc). reflexivity. }
  rewrite Hall. exists conns.
  split; [reflexivity |]. split; [reflexivity |]. split; [exact Htags |].
  split.
  - intros c Hc. rewrite <- Hdir. apply add_connections_has. exact Hc.
  - apply (add_connections_tags (fun s => s = "active_site"));
      [| exact Htags].
    rewrite HG0. intros e [].
Qed.

(** The active-site-only oxygen network of the waters alone, when the
    oxygen indices are distinct: the nodes are the waters within the radius
    of the reference, one WAT node each in the order of the network, and
    the edges are the connections found among them, one each in their
    order. *)
Theorem oxygen_network_active_site_waters self box msa reference radius
  cutoff self' G :
  NoDup (map O_index (water_molecules self)) ->
  generate_oxygen_network self box msa (Some reference) radius true true
                          cutoff = Ok (self', G) ->
  exists conns,
    connections self' = Some conns
    /\ is_directed G = false
    /\ nodes G
       = map water_node
             (filter (fun mol => close_to None radius (water_positions mol)
                                          reference)
                     (water_molecules self))
    /\ edges G = map edge_of conns.
Proof.
  intros Hnd H.
  destruct (generate_oxygen_network_active _ _ _ _ _ _ _ _ _ H)
    as (self1 & active & pa & wa & G0 & conns & Hsel & _ & _ & HG0
        & Hconns & -> & ->).
  rewrite (HG0 eq_refl). clear HG0.
  destruct (select_active_site_Ok _ _ _ _ _ _ _ _ Hsel)
    as (atoms & -> & -> & _ & _ & Hwa).
  assert (Hndw : NoDup (map O_index wa)).
  { rewrite Hwa. apply NoDup_map_filter. exact Hnd. }
  destruct (find_connections_water_only _ _ (Some wa) (Some pa) true wa
              conns eq_refl Hndw Hconns) as (Hpairs & Hends).
  assert (Hall : filter tagged_active_site conns = conns).
  { apply filter_all. intros c Hc. unfold tagged_active_site.
    destruct (find_connections_status _ _ (Some wa) (Some pa) true true wa
                _ c eq_refl Hconns Hc) as (wi & Hwi & Hs).
    destruct (active_water_status
                (set_active_site self
                   (Some (map Atom atoms ++ map Water wa)))
                (map Atom atoms) wa wi eq_refl Hwi) as (Hww & Hwp).
    destruct Hs as [-> | (pn & ->)]; [rewrite Hww | rewrite Hwp];
      reflexivity. }
  rewrite Hall. rewrite add_water_nodes by exact Hndw. simpl.
  rewrite add_connections_undirected; simpl; auto.
  - exists conns. rewrite <- Hwa. repeat split.
  - intros c Hc. destruct (Hends c Hc) as (_ & H1 & H2).
    rewrite map_map. simpl. auto.
  - intros e c [].
Qed.

(** The active-site-only mode needs a reference: without one both builders
    raise on the first use of [water_active], whatever the network. *)
Theorem active_site_only_needs_reference angle self box msa radius wo acr
  cutoff :
  generate_oxygen_network self box msa None radius true wo cutoff
  = Raise UnboundLocalError
  /\ generate_directed_network angle self box msa None radius true wo acr
                               cutoff
     = Raise UnboundLocalError.
Proof. split; reflexivity. Qed.

Lemma for_each_ext {A B : Type} (f g : A -> result (list B)) (l : list A) :
  (forall a, f a = g a) -> for_each f l = for_each g l.
Proof.
  intros H. induction l as [| a l IH]; simpl; [reflexivity |].
  rewrite H, IH. reflexivity.
Qed.

Lemma scan_ext f g res :
  (forall i slot, f i slot = g i slot) -> scan f res = scan g res.
Proof.
  intros H. unfold scan. apply for_each_ext.
  intros [i row]. apply for_each_ext. intros slot. apply H.
Qed.

Lemma find_directed_connections_no_angle angle angle' self cutoff aso wa pa
  wo :
  find_directed_connections angle self cutoff aso None wa pa wo
  = find_directed_connections angle' self cutoff aso None wa pa wo.
Proof.
  rewrite !find_directed_connections_eq.
  destruct (iter (scope aso wa (water_molecules self))) as [waters |];
    [| reflexivity].
  simpl.
  match goal with
  | |- bind ?m _ = bind ?m _ => destruct m as [wp |]; [| reflexivity]
  end.
  simpl.
  rewrite (scan_ext
             (wat_slot angle self cutoff aso None
                       (map H_owner (H_rows waters)) (map O_index waters)
                       (map H_coordinates (H_rows waters))
                       (map O_coordinates waters)
                       (map H_name (H_rows waters)))
             (wat_slot angle' self cutoff aso None
                       (map H_owner (H_rows waters)) (map O_index waters)
                       (map H_coordinates (H_rows waters))
                       (map O_coordinates waters)
                       (map H_name (H_rows waters)))).
  - reflexivity.
  - intros i [d ref]. reflexivity.
Qed.

(** In the all-atoms mode [generate_directed_network] does not pass
    [angle_criteria] on: the network is the one built without angle
    criterion, and no angle is computed. *)
Theorem directed_network_all_atoms_ignores_angle angle angle' self box msa
  reference radius wo acr cutoff :
  generate_directed_network angle self box msa reference radius false wo acr
                            cutoff
  = generate_directed_network angle' self box msa reference radius false wo
                              None cutoff.
Proof.
  unfold generate_directed_network.
  destruct (select_if_reference self box reference radius)
    as [[[self1 pa] wa] |]; [| reflexivity].
  simpl.
  rewrite (find_directed_connections_no_angle angle angle').
  reflexivity.
Qed.

(** ** The metrics under a selection *)

(** A selection that no edge carries leaves the empty graph. *)
Lemma edge_subgraph_no_tag G selection :
  (forall e, In e (edges G) -> edge_active_site (snd e) <> selection) ->
  edge_subgraph G (edges_tagged G selection)
  = mk_Graph (is_directed G) [] [].
Proof.
  intros H. unfold edges_tagged.
  rewrite (filter_none
             (fun e => String.eqb (edge_active_site (snd e)) selection)).
  - unfold edge_subgraph. simpl.
    rewrite (filter_none (fun _ : Z * Z * edge_data => false))
      by reflexivity.
    simpl. rewrite filter_none by reflexivity. reflexivity.
  - intros e He. apply String.eqb_neq. apply H. exact He.
Qed.

(** Under a selection that no edge of the graph carries, [get_CPL] raises
    on the empty graph, whatever its two other arguments, and
    [get_connected_components] returns no component. *)
Theorem metrics_selection_without_edges self G selection calculate_path
  exclude_single_points :
  graph self = Some G ->
  selection <> "all" ->
  (forall e, In e (edges G) -> edge_active_site (snd e) <> selection) ->
  get_CPL self selection calculate_path exclude_single_points
  = Raise NetworkXPointlessConcept
  /\ get_connected_components self selection = Ok [].
Proof.
  intros HG Hsel Htag. apply String.eqb_neq in Hsel.
  unfold get_CPL, get_connected_components. rewrite HG. simpl.
  rewrite Hsel. rewrite (edge_subgraph_no_tag _ _ Htag).
  split; reflexivity.
Qed.

(** What the all-atoms branch of the two builders does, step by step. *)
Lemma generate_oxygen_network_all self box msa radius wo cutoff self' G :
  generate_oxygen_network self box msa None radius false wo cutoff
  = Ok (self', G) ->
  exists G0 conns,
    edges G0 = [] /\ is_directed G0 = false
    /\ find_connections self cutoff None None false wo = Ok conns
    /\ self' = set_graph (set_connections self (Some conns)) (Some G)
    /\ G = fold_left add_connection conns G0.
Proof.
  intros H. unfold generate_oxygen_network, select_if_reference in H.
  simpl in H. inv_bind H. destruct v as [self2 G2]. simpl in H.
  inversion H; subst. clear H. rewrite for_loop_pure in E. simpl in E.
  inv_bind E. inv_bind E. inversion E; subst. clear E.
  exists v, v0.
  assert (Hw : forall l G,
             edges (fold_left add_water_node l G) = edges G
             /\ is_directed (fold_left add_water_node l G) = is_directed G).
  { intros l; induction l as [| w l IH]; intros G; simpl; [auto |].
    destruct (IH (add_water_node G w)) as (-> & ->). auto. }
  destruct (Hw (water_molecules self) nx_Graph) as (Hwe & Hwd).
  assert (Hv : edges v = [] /\ is_directed v = false).
  { destruct wo; simpl in E0.
    - inversion E0; subst v. auto.
    - apply for_loop_edges in E0.
      + destruct E0 as (-> & ->). auto.
      + intros G a G' Hb. inv_bind Hb. inversion Hb; subst. simpl. auto. }
  destruct Hv. repeat split; auto.
Qed.

Lemma generate_directed_network_all angle self box msa radius wo acr cutoff
  self' G :
  generate_directed_network angle self box msa None radius false wo acr
                            cutoff = Ok (self', G) ->
  exists G0 conns,
    edges G0 = [] /\ is_directed G0 = true
    /\ (wo = true
        -> G0 = fold_left add_water_node (water_molecules self) nx_DiGraph)
    /\ find_directed_connections angle self cutoff false None None None wo
       = Ok conns
    /\ self' = set_graph (set_connections self (Some conns)) (Some G)
    /\ G = fold_left add_connection conns G0.
Proof.
  intros H. unfold generate_directed_network, select_if_reference in H.
  simpl in H. inv_bind H. destruct v as [self2 G2]. simpl in H.
  inversion H; subst. clear H. rewrite for_loop_pure in E. simpl in E.
  inv_bind E. inv_bind E. inversion E; subst. clear E.
  exists v, v0.
  assert (Hw : forall l G,
             edges (fold_left add_water_node l G) = edges G
             /\ is_directed (fold_left add_water_node l G) = is_directed G).
  { intros l; induction l as [| w l IH]; intros G; simpl; [auto |].
    destruct (IH (add_water_node G w)) as (-> & ->). auto. }
  destruct (Hw (water_molecules self) nx_DiGraph) as (Hwe & Hwd).
  assert (Hv : edges v = [] /\ is_directed v = true
               /\ (wo = true
                   -> v = fold_left add_water_node (water_molecules self)
                                    nx_DiGraph)).
  { destruct wo; simpl in E0.
    - inversion E0; subst v. auto.
    - apply for_loop_edges in E0.
      + destruct E0 as (-> & ->). repeat split; auto. discriminate.
      + intros G a G' Hb. discriminate Hb. }
  destruct Hv as (? & ? & ?). repeat split; auto.
Qed.

(** A network built without reference on a network that has no active site
    tags every edge [None]: under the selections [active_site] and
    [not_active_site], and any other word than [all] and [None], the two
    metrics see the empty graph. *)
Theorem metrics_without_active_site angle self box msa radius wo acr cutoff
  self' G selection calculate_path exclude_single_points :
  active_site self = None ->
  generate_oxygen_network self box msa None radius false wo cutoff
  = Ok (self', G)
  \/ generate_directed_network angle self box msa None radius false wo acr
                               cutoff = Ok (self', G) ->
  selection <> "all" -> selection <> "None" ->
  (forall e, In e (edges G) -> edge_active_site (snd e) = "None")
  /\ get_CPL self' selection calculate_path exclude_single_points
     = Raise NetworkXPointlessConcept
  /\ get_connected_components self' selection = Ok [].
Proof.
  intros Hact H Hall Hnone.
  assert (Htags : graph self' = Some G
                  /\ forall e, In e (edges G) ->
                               edge_active_site (snd e) = "None").
  { destruct H as [H | H].
    - destruct (generate_oxygen_network_all _ _ _ _ _ _ _ _ H)
        as (G0 & conns & HG0 & _ & Hconns & -> & ->).
      split; [reflexivity |].
      apply (add_connections_tags (fun s => s = "None")).
      + rewrite HG0. intros e [].
      + intros c Hc.
        destruct (find_connections_status _ _ None None false wo
                    (water_molecules self) _ c eq_refl Hconns Hc)
          as (wi & _ & Hs).
        unfold ww_status, wp_status in Hs. rewrite Hact in Hs.
        destruct Hs as [-> | (_ & ->)]; reflexivity.
    - destruct (generate_directed_network_all _ _ _ _ _ _ _ _ _ _ H)
        as (G0 & conns & HG0 & _ & _ & Hconns & -> & ->).
      split; [reflexivity |].
      apply (add_connections_tags (fun s => s = "None")).
      + rewrite HG0. intros e [].
      + intros c Hc.
        destruct (find_directed_connections_status _ _ _ _ _ _ _ _ _ c
                    Hconns Hc) as (a & b & Hs).
        destruct (directed_status_values _ _ _ _ _ Hs) as (_ & Hn & _).
        apply Hn; [reflexivity | exact Hact]. }
  destruct Htags as (HG & Htags). split; [exact Htags |].
  apply String.eqb_neq in Hall.
  unfold get_CPL, get_connected_components. rewrite HG. simpl.
  rewrite Hall. rewrite edge_subgraph_no_tag.
  - split; reflexivity.
  - intros e He. rewrite (Htags e He). intros Heq. apply Hnone.
    symmetry; exact Heq.
Qed.

(** Under a selection the components come from an edge subgraph, which
    keeps no node without an edge. *)
Lemma connected_components_In G c :
  In c (connected_components G) ->
  exists v, In v (node_ids G)
            /\ c = reach (adj_undirected G) (number_of_nodes G) v.
Proof.
  unfold connected_components.
  assert (Hgen : forall l st,
             (forall v, In v l -> In v (node_ids G)) ->
             (forall c, In c (snd st) ->
                        exists v, In v (node_ids G)
                                  /\ c = reach (adj_undirected G)
                                               (number_of_nodes G) v) ->
             forall c,
               In c (snd (fold_left
                            (fun st v =>
                               if mem v (fst st) then st
                               else let c := reach (adj_undirected G)
                                                   (number_of_nodes G) v in
                                    (fst st ++ c, snd st ++ [c]))
                            l st)) ->
               exists v, In v (node_ids G)
                         /\ c = reach (adj_undirected G)
                                      (number_of_nodes G) v).
  { intros l; induction l as [| a l IH]; intros st Hl Hst c0 Hc0;
      simpl in Hc0; [apply Hst; exact Hc0 |].
    apply (IH _ (fun v Hv => Hl v (or_intror Hv))) in Hc0; [exact Hc0 |].
    intros c1 Hc1. destruct (mem a (fst st)); [apply Hst; exact Hc1 |].
    simpl in Hc1. apply in_app_or in Hc1. destruct Hc1 as [Hc1 | [<- | []]].
    - apply Hst; exact Hc1.
    - exists a. split; [apply Hl; left; reflexivity | reflexivity]. }
  apply Hgen; [auto | intros c0 []].
Qed.

Lemma bfs_length next fuel seen frontier depth total :
  (length seen <= length (fst (bfs next fuel seen frontier depth total)))%nat.
Proof.
  revert seen frontier depth total.
  induction fuel as [| fuel IH]; intros seen frontier depth total; simpl;
    [lia |].
  destruct (fresh seen (flat_map next frontier)) as [| x level]; simpl;
    [lia |].
  eapply Nat.le_trans; [| apply IH]. rewrite length_app. lia.
Qed.

Lemma fresh_nonempty seen l w :
  In w l -> mem w seen = false -> fresh seen l <> [].
Proof.
  intros Hw Hseen. unfold fresh.
  assert (Hgen : forall l acc,
             acc <> [] \/ In w l ->
             fold_left (fun acc v => if mem v seen || mem v acc then acc
                                     else acc ++ [v]) l acc <> []).
  { clear Hw. intros l0; induction l0 as [| a l0 IH]; intros acc H; simpl.
    - destruct H as [H | []]; exact H.
    - apply IH.
      destruct (mem a seen || mem a acc) eqn:Hm.
      + destruct H as [H | [-> | H]]; auto.
        left. rewrite Hseen in Hm. simpl in Hm.
        intros ->. discriminate.
      + left. intros Heq. apply app_eq_nil in Heq.
        destruct Heq as [_ Heq]; discriminate. }
  apply Hgen. right; exact Hw.
Qed.

Lemma reach_two next n v w :
  (1 <= n)%nat -> In w (next v) -> w <> v ->
  (2 <= length (reach next n v))%nat.
Proof.
  intros Hn Hw Hwv. unfold reach.
  destruct n as [| n]; [lia |]. simpl.
  assert (Hf : fresh [v] (next v ++ []) <> []).
  { apply (fresh_nonempty _ _ w).
    - apply in_or_app; left; exact Hw.
    - simpl. rewrite orb_false_r. apply Z.eqb_neq. exact Hwv. }
  destruct (fresh [v] (next v ++ [])) as [| x level]; [contradiction |].
  eapply Nat.le_trans; [| apply bfs_length]. simpl. lia.
Qed.

(** Under a selection other than [all], on a graph without loop on a node,
    [get_connected_components] reports no single point: every component
    has two nodes or more, the nodes without an edge of the selection
    being dropped with the edges. *)
Theorem components_under_selection self G selection sizes :
  graph self = Some G ->
  selection <> "all" ->
  (forall e, In e (edges G) -> fst (fst e) <> snd (fst e)) ->
  get_connected_components self selection = Ok sizes ->
  Forall (fun n => (2 <= n)%nat) sizes.
Proof.
  intros HG Hsel Hloop H. apply String.eqb_neq in Hsel.
  unfold get_connected_components in H. rewrite HG in H. simpl in H.
  rewrite Hsel in H. inversion H; subst sizes. clear H.
  apply Forall_forall. intros n Hn. apply in_map_iff in Hn.
  destruct Hn as (c & <- & Hc).
  set (S := edge_subgraph G (edges_tagged G selection)) in *.
  destruct (connected_components_In _ _ Hc) as (v & Hv & ->).
  unfold node_ids in Hv. apply in_map_iff in Hv.
  destruct Hv as ([v' d] & Hv' & Hin). simpl in Hv'. subst v'.
  assert (Hnodes : (1 <= number_of_nodes S)%nat).
  { unfold number_of_nodes. destruct (nodes S); [destruct Hin | simpl; lia]. }
  unfold S, edge_subgraph in Hin. simpl in Hin.
  apply filter_In in Hin. destruct Hin as (_ & Htouched). simpl in Htouched.
  apply existsb_exists in Htouched.
  destruct Htouched as ([[a b] de] & He & Hab). simpl in Hab.
  assert (HeG : In (a, b, de) (edges G)).
  { apply filter_In in He. apply He. }
  pose proof (Hloop _ HeG) as Hne. simpl in Hne.
  assert (HeS : In (a, b, de) (edges S)) by exact He.
  apply orb_true_iff in Hab. destruct Hab as [Hab | Hab];
    apply Z.eqb_eq in Hab; subst v.
  - apply (reach_two _ _ a b); [exact Hnodes | | auto].
    unfold adj_undirected. apply in_flat_map. exists (a, b, de).
    split; [exact HeS |]. rewrite Z.eqb_refl. left; reflexivity.
  - apply (reach_two _ _ b a); [exact Hnodes | | auto].
    unfold adj_undirected. apply in_flat_map. exists (a, b, de).
    split; [exact HeS |]. rewrite Z.eqb_refl.
    apply in_or_app; right. left; reflexivity.
Qed.

(** ** [get_all_coordinates] *)

Lemma flat_map_members atoms waters :
  flat_map (fun f => match f with
                     | Water w => [O_coordinates w]
                     | Atom _ => []
                     end) (map Atom atoms ++ map Water waters)
  = map O_coordinates waters
  /\ flat_map (fun f => match f with
                        | Atom a => [OtherAtom.coordinates a]
                        | Water _ => []
                        end) (map Atom atoms ++ map Water waters)
     = map OtherAtom.coordinates atoms.
Proof.
  rewrite !flat_map_app. split.
  - replace (flat_map _ (map Atom atoms)) with (@nil coord)
      by (induction atoms; simpl; auto).
    simpl. induction waters as [| w l IH]; simpl; [reflexivity |].
    rewrite IH. reflexivity.
  - replace (flat_map _ (map Water waters)) with (@nil coord)
      by (induction waters; simpl; auto).
    rewrite app_nil_r. induction atoms as [| a l IH]; simpl; [reflexivity |].
    rewrite IH. reflexivity.
Qed.

(** After [select_active_site], [get_all_coordinates] under any selection
    other than [all], [not_active_site] included, returns the oxygens of
    the waters selected and, unless [water_only], the positions of the
    atoms of the active site, those of the residues of the reference
    included; on a network without active site it raises. *)
Theorem get_all_coordinates_active_site self reference box radius self'
  active protein_active water_active selection water_only :
  select_active_site self reference box radius
  = Ok (self', (active, protein_active, water_active)) ->
  selection <> "all" ->
  get_all_coordinates self' selection true
  = Ok (map O_coordinates water_active)
  /\ (exists atoms,
         get_all_coordinates self' selection false
         = Ok (map O_coordinates water_active
               ++ map OtherAtom.coordinates atoms)
         /\ incl protein_active atoms
         /\ forall a, In a atoms ->
                      In a protein_active
                      \/ in_reference reference (OtherAtom.resid a) = true)
  /\ (active_site self = None ->
      get_all_coordinates self selection water_only = Raise TypeError).
Proof.
  intros H Hsel. apply String.eqb_neq in Hsel.
  destruct (select_active_site_Ok _ _ _ _ _ _ _ _ H)
    as (atoms & -> & -> & Hatoms & Hpa & Hwa).
  destruct (flat_map_members atoms water_active) as (Hw & Ha).
  unfold get_all_coordinates. rewrite Hsel. simpl.
  rewrite Hw, Ha.
  split; [reflexivity |]. split.
  - exists atoms. split; [reflexivity |]. split.
    + intros a Hin. rewrite Hpa in Hin. rewrite Hatoms.
      apply filter_In in Hin. destruct Hin as (Hin & Hc).
      apply filter_In. split; [exact Hin |].
      apply andb_true_iff in Hc. destruct Hc as (_ & ->).
      apply orb_true_r.
    + intros a Hin. rewrite Hatoms in Hin. rewrite Hpa.
      apply filter_In in Hin. destruct Hin as (Hin & Hc).
      destruct (in_reference reference (OtherAtom.resid a)) eqn:Hr;
        [right; reflexivity |].
      left. apply filter_In. split; [exact Hin |].
      simpl in Hc. rewrite Hr. simpl. exact Hc.
  - intros ->. reflexivity.
Qed.

(** ** The directed network of the waters *)

Lemma add_connections_nodes conns G :
  (forall c, In c conns ->
             In (index1 c) (map fst (nodes G))
             /\ In (index2 c) (map fst (nodes G))) ->
  nodes (fold_left add_connection conns G) = nodes G.
Proof.
  revert G; induction conns as [| c conns IH]; intros G H; simpl;
    [reflexivity |].
  destruct (H c (or_introl eq_refl)) as (H1 & H2).
  assert (Hn : nodes (add_connection G c) = nodes G).
  { unfold add_connection, add_edge. simpl.
    rewrite (touch_node_old _ _ H1), (touch_node_old _ _ H2). reflexivity. }
  rewrite IH; [exact Hn |].
  intros c' Hc'. rewrite Hn. apply H. right; exact Hc'.
Qed.

Lemma same_edge_directed u v e :
  same_edge true u v e = true <-> fst e = (u, v).
Proof.
  destruct e as [[a b] d]. simpl. rewrite orb_false_r, andb_true_iff.
  rewrite !Z.eqb_eq. split.
  - intros (-> & ->). reflexivity.
  - intros Heq. inversion Heq. auto.
Qed.

Lemma update_edge_directed u v d es e :
  In e (update_edge true u v d es) -> In e es \/ e = (u, v, d).
Proof.
  induction es as [| e0 es IH]; simpl.
  - intros [<- | []]. right; reflexivity.
  - destruct (same_edge true u v e0) eqn:Hs.
    + apply same_edge_directed in Hs. intros [<- | Hin]; [| auto].
      right. destruct e0 as [[a b] d0]. simpl in *. inversion Hs.
      reflexivity.
    + intros [<- | Hin]; [auto |].
      destruct (IH Hin); auto.
Qed.

Lemma update_edge_keys u v d es :
  NoDup (map fst es) -> NoDup (map fst (update_edge true u v d es)).
Proof.
  induction es as [| e0 es IH]; simpl; intros Hnd.
  - repeat constructor. intros [].
  - inversion Hnd as [| ? ? H0 Hes]; subst.
    destruct (same_edge true u v e0) eqn:Hs; simpl.
    + replace (fst (fst e0), snd (fst e0)) with (fst e0)
        by (destruct e0 as [[a b] d0]; reflexivity).
      exact Hnd.
    + constructor; [| apply IH; exact Hes].
      intros Hin. apply in_map_iff in Hin.
      destruct Hin as (e & He & Hin).
      apply update_edge_directed in Hin. destruct Hin as [Hin | ->].
      * apply H0. rewrite <- He. apply in_map. exact Hin.
      * simpl in He.
        assert (Ht : same_edge true u v e0 = true)
          by (apply same_edge_directed; symmetry; exact He).
        rewrite Ht in Hs. discriminate.
Qed.

(** In a directed graph there is one edge for an ordered pair of nodes,
    and the edges that the connections add are edges of connections. *)
Lemma add_connections_directed_edges conns G :
  is_directed G = true ->
  NoDup (map fst (edges G)) ->
  NoDup (map fst (edges (fold_left add_connection conns G)))
  /\ forall e, In e (edges (fold_left add_connection conns G)) ->
               In e (edges G) \/ exists c, In c conns /\ e = edge_of c.
Proof.
  revert G; induction conns as [| c conns IH]; intros G Hdir Hnd; simpl.
  - split; [exact Hnd | auto].
  - assert (Hdir' : is_directed (add_connection G c) = true) by exact Hdir.
    assert (Hnd' : NoDup (map fst (edges (add_connection G c)))).
    { simpl. rewrite Hdir. apply update_edge_keys. exact Hnd. }
    destruct (IH _ Hdir' Hnd') as (Hk & He).
    split; [exact Hk |].
    intros e Hin. destruct (He e Hin) as [Hin' | (c' & Hc' & ->)].
    + simpl in Hin'. rewrite Hdir in Hin'.
      apply update_edge_directed in Hin'. destruct Hin' as [Hin' | ->].
      * left; exact Hin'.
      * right. exists c. split; [left; reflexivity | reflexivity].
    + right. exists c'. split; [right; exact Hc' | reflexivity].
Qed.

(** The water-only connections of the directed finder go from a water of
    the scope to one of a higher oxygen index. *)
Lemma find_directed_connections_water_only angle self cutoff aso acr wa pa
  waters conns c :
  scope aso wa (water_molecules self) = Some waters ->
  find_directed_connections angle self cutoff aso acr wa pa true = Ok conns ->
  In c conns ->
  index1 c < index2 c
  /\ In (index1 c) (map O_index waters)
  /\ In (index2 c) (map O_index waters).
Proof.
  intros Hscope H Hc.
  destruct (find_directed_connections_split _ _ _ _ _ _ _ _ _ H)
    as (waters' & wp & ww & Hscope' & Hwp & Hww & ->).
  rewrite Hscope in Hscope'. inversion Hscope'; subst waters'.
  simpl in Hwp. subst wp. simpl in Hc.
  destruct (scan_In _ _ _ _ _ _ _ Hww Hc)
    as (r & q & [d ref] & o & Hq & Hslot & Ho & Hin).
  destruct (wat_slot_out _ _ _ _ _ _ _ _ _ _ _ _ Ho Hin)
    as (h & w & Hh & Hw & Hle & Hlt & Hx & _).
  apply nth_error_In in Hh. apply H_rows_In in Hh.
  destruct Hh as (donor & Hdonor & Hh).
  rewrite Hx. simpl. split; [exact Hlt |]. split.
  - destruct Hh as [-> | ->]; unfold H_owner; simpl; apply in_map;
      exact Hdonor.
  - apply in_map. eapply nth_error_In; eassumption.
Qed.

(** The directed network of the waters alone: the nodes are the waters,
    one WAT node each in the order of the network; there is one edge for
    an ordered pair of waters, whatever the number of hydrogens that
    connect them; every edge is the edge of a connection and goes from
    the lower to the higher oxygen index, and every connection has its
    edge. *)
Theorem directed_network_of_waters angle self box msa radius acr cutoff
  self' G :
  NoDup (map O_index (water_molecules self)) ->
  generate_directed_network angle self box msa None radius false true acr
                            cutoff = Ok (self', G) ->
  exists conns,
    find_directed_connections angle self cutoff false None None None true
    = Ok conns
    /\ connections self' = Some conns
    /\ graph self' = Some G
    /\ is_directed G = true
    /\ nodes G = map water_node (water_molecules self)
    /\ NoDup (map fst (edges G))
    /\ (forall e, In e (edges G) ->
                  fst (fst e) < snd (fst e)
                  /\ exists c, In c conns /\ e = edge_of c)
    /\ (forall c, In c conns ->
                  In (index1 c, index2 c) (map fst (edges G))).
Proof.
  intros Hnd H.
  destruct (generate_directed_network_all _ _ _ _ _ _ _ _ _ _ H)
    as (G1 & conns & _ & _ & HG1 & Hconns & -> & ->).
  rewrite (HG1 eq_refl). clear HG1.
  rewrite add_water_nodes by exact Hnd. simpl.
  set (G0 := mk_Graph true (map water_node (water_molecules self)) []).
  assert (Hends : forall c, In c conns ->
                            index1 c < index2 c
                            /\ In (index1 c) (map fst (nodes G0))
                            /\ In (index2 c) (map fst (nodes G0))).
  { intros c Hc.
    destruct (find_directed_connections_water_only angle self cutoff false
                None None None (water_molecules self) conns c eq_refl
                Hconns Hc)
      as (Hlt & H1 & H2).
    simpl. rewrite map_map. simpl. auto. }
  destruct (add_connections_directed_edges conns G0 eq_refl)
    as (Hkeys & Hedges); [constructor |].
  exists conns.
  split; [exact Hconns |]. split; [reflexivity |]. split; [reflexivity |].
  split; [apply (add_connections_directed conns G0) |].
  split.
  { rewrite add_connections_nodes; [reflexivity |].
    intros c Hc. apply Hends. exact Hc. }
  split; [exact Hkeys |]. split.
  - intros e He. destruct (Hedges e He) as [[] | (c & Hc & ->)].
    split; [apply Hends; exact Hc | exists c; auto].
  - intros c Hc.
    destruct (add_connections_has conns G0 c Hc) as (e & He & Hs).
    apply same_edge_directed in Hs. rewrite <- Hs. apply in_map. exact He.
Qed.

(** ** The networks that [add_water] and [add_atom] assemble *)

(** A network assembled by [add_water] and, for the residues that are not
    waters, [add_atom] has no connections,
    no active site, no graph, and an empty [protein_subset], which no
    method fills: under [all], [get_all_coordinates] returns the water
    oxygens in the order of the calls, also when [water_only] is unset.
    Every water carries the residue number of its oxygen, and every protein
    atom the flag [hbonding] exactly when the directed finder takes its
    name for an acceptor. *)
Theorem assembled_network self :
  assembled self ->
  protein_subset self = [] /\ connections self = None
  /\ active_site self = None /\ graph self = None
  /\ (forall water_only,
         get_all_coordinates self "all" water_only
         = Ok (map O_coordinates (water_molecules self)))
  /\ (forall w, In w (water_molecules self) ->
                WaterAtom.resid (WaterMolecule.O w) = WaterMolecule.resid w
                /\ WaterAtom.name (WaterMolecule.O w) = "O")
  /\ (forall a, In a (protein_atoms self) ->
                OtherAtom.hbonding a = is_acceptor_name (OtherAtom.name a)).
Proof.
  intros H.
  assert (Hinv : protein_subset self = [] /\ connections self = None
                 /\ active_site self = None /\ graph self = None
                 /\ (forall w, In w (water_molecules self) ->
                               WaterAtom.resid (WaterMolecule.O w)
                               = WaterMolecule.resid w
                               /\ WaterAtom.name (WaterMolecule.O w) = "O")
                 /\ (forall a, In a (protein_atoms self) ->
                               OtherAtom.hbonding a
                               = is_acceptor_name (OtherAtom.name a))).
  { induction H as [| self index o h1 h2 rn _ IH
                    | self self' index nm rnm xyz rn msa _ IH Hadd].
    - simpl. do 4 (split; [reflexivity |]).
      split; intros ? [].
    - destruct IH as (Hs & Hc & Ha & Hg & Hw & Hp).
      simpl. do 4 (split; [assumption |]).
      split; [| exact Hp].
      intros w Hin. apply in_app_or in Hin.
      destruct Hin as [Hin | [<- | []]]; [apply Hw; exact Hin |].
      split; reflexivity.
    - destruct IH as (Hs & Hc & Ha & Hg & Hw & Hp).
      unfold add_atom in Hadd.
      destruct (String.eqb rnm "WAT" || String.eqb rnm "HOH"
                || String.eqb rnm "SOL"); [discriminate |].
      inversion Hadd; subst self'. clear Hadd. simpl.
      do 4 (split; [assumption |]).
      split; [exact Hw |].
      intros a Hin. apply in_app_or in Hin.
      destruct Hin as [Hin | [<- | []]]; [apply Hp; exact Hin |].
      simpl. unfold is_acceptor_name.
      destruct (contains "O" nm), (contains "N" nm), (contains "S" nm),
        (contains "P" nm); reflexivity. }
  destruct Hinv as (Hs & Hc & Ha & Hg & Hw & Hp).
  do 4 (split; [assumption |]).
  split; [| split; assumption].
  intros water_only. unfold get_all_coordinates. simpl. rewrite Hs.
  simpl. rewrite app_nil_r. destruct water_only; reflexivity.
Qed.

(** ** The finders, the builders and the metrics on the example networks *)

(** The water and the nitrogen 1 A away, cutoff 2 A. *)
Lemma find_connections_protein_edges_witness :
  exists ps pn wi,
    scope false None (protein_atoms water_and_nitrogen) = Some ps
    /\ In pn ps /\ In wi (water_line 1 280)
    /\ le_len (sqdist (O_coordinates wi) (OtherAtom.coordinates pn)) 200
       = true
    /\ nitrogen_edge
       = mk_connection (OtherAtom.index pn) (O_index wi)
                       (OtherAtom.name pn) "WAT-PROT"
                       (wp_status water_and_nitrogen wi pn)
                       (Some (protein_classification (OtherAtom.name pn))).
Proof.
  apply (find_connections_protein_edges water_and_nitrogen 200 None None
           false false (water_line 1 280) [nitrogen_edge]).
  - reflexivity.
  - vm_compute. reflexivity.
  - left; reflexivity.
  - reflexivity.
Defined.

Lemma find_connections_protein_complete_witness :
  (within 200 (O_coordinates origin_water)
          (map OtherAtom.coordinates [nitrogen_5]) <= 10)%nat
  /\ In nitrogen_edge [nitrogen_edge].
Proof.
  assert (Hw : (within 200 (O_coordinates origin_water)
                       (map OtherAtom.coordinates [nitrogen_5]) <= 10)%nat).
  { vm_compute. lia. }
  split; [exact Hw |].
  apply (find_connections_protein_complete water_and_nitrogen 200 None None
           false (water_line 1 280) [nitrogen_5] [nitrogen_edge]
           origin_water nitrogen_5).
  - reflexivity.
  - reflexivity.
  - vm_compute. reflexivity.
  - left; reflexivity.
  - left; reflexivity.
  - reflexivity.
  - exact Hw.
Defined.

(** The hydrogen-bonded pair, cutoff 2 A, no active site. *)
Lemma find_directed_connections_tags_witness :
  site_status bonded_edge = "None"
  /\ (site_status bonded_edge = "None"
      \/ site_status bonded_edge = "active_site"
      \/ site_status bonded_edge = "not_active_site").
Proof.
  destruct (find_directed_connections_tags angle_on_x_axis
              (waters_only (hydrogen_bonded_pair 0 3)) 200 false None None
              None true [bonded_edge] bonded_edge)
    as (_ & Hnone & Hvalues).
  - vm_compute. reflexivity.
  - left; reflexivity.
  - split; [apply Hnone; reflexivity | exact Hvalues].
Defined.

Lemma find_directed_connections_water_edges_witness :
  exists donor acceptor,
    In donor (hydrogen_bonded_pair 0 3)
    /\ In acceptor (hydrogen_bonded_pair 0 3)
    /\ index1 bonded_edge = O_index donor
    /\ index2 bonded_edge = O_index acceptor
    /\ index1 bonded_edge < index2 bonded_edge
    /\ ((atom_name bonded_edge = "H1"
         /\ le_len (sqdist (H1_coordinates donor) (O_coordinates acceptor))
                   200 = true)
        \/ (atom_name bonded_edge = "H2"
            /\ le_len (sqdist (H2_coordinates donor)
                              (O_coordinates acceptor)) 200 = true)).
Proof.
  apply (find_directed_connections_water_edges angle_on_x_axis
           (waters_only (hydrogen_bonded_pair 0 3)) 200 false None None None
           true (hydrogen_bonded_pair 0 3) [bonded_edge]).
  - reflexivity.
  - vm_compute. reflexivity.
  - left; reflexivity.
  - reflexivity.
Defined.

(** A reference atom at the origin, radius 5 A, a water 3 A and a water
    10 A away. *)
Lemma select_active_site_lists_witness :
  reference_at_origin <> []
  /\ exists atoms protein_active water_active,
      select_active_site near_and_far reference_at_origin None 500
      = Ok (set_active_site near_and_far
              (Some (map Atom atoms ++ map Water water_active)),
            (map Atom atoms ++ map Water water_active, protein_active,
             water_active))
      /\ protein_active
         = filter (fun atm => negb (in_reference reference_at_origin
                                                 (OtherAtom.resid atm)))
                  atoms
      /\ (exists keep, atoms = filter keep (protein_atoms near_and_far))
      /\ (exists keep,
             water_active = filter keep (water_molecules near_and_far)).
Proof.
  assert (Hr : reference_at_origin <> []) by discriminate.
  split; [exact Hr |].
  apply (select_active_site_lists near_and_far reference_at_origin None 500
           Hr).
Defined.

(** The same network under the radii 5 A and 15 A. *)
Lemma select_active_site_monotone_witness :
  exists self'' active' protein_active' water_active',
    select_active_site near_and_far reference_at_origin None 1500
    = Ok (self'', (active', protein_active', water_active'))
    /\ incl [Water near_water] active'
    /\ incl (@nil OtherAtom.t) protein_active'
    /\ incl [near_water] water_active'.
Proof.
  apply (select_active_site_monotone near_and_far reference_at_origin None
           500 1500 [Water near_water] [] [near_water]
           (set_active_site near_and_far (Some [Water near_water]))).
  - lia.
  - vm_compute. reflexivity.
Defined.

(** The water and the nitrogen, without box and in a box of 20 A. *)
Lemma select_active_site_box_witness :
  exists self'' active' protein_active',
    select_active_site water_and_nitrogen reference_at_origin box_20 500
    = Ok (self'', (active', protein_active', water_line 1 280))
    /\ incl [Atom nitrogen_5; Water origin_water] active'
    /\ incl [nitrogen_5] protein_active'.
Proof.
  apply (select_active_site_box water_and_nitrogen reference_at_origin
           box_20 500
           (set_active_site water_and_nitrogen
              (Some [Atom nitrogen_5; Water origin_water]))
           [Atom nitrogen_5; Water origin_water] [nitrogen_5]
           (water_line 1 280)).
  vm_compute. reflexivity.
Defined.

Lemma pair_and_single_NoDup : NoDup (map O_index pair_and_single).
Proof. vm_compute. repeat constructor; simpl; intuition discriminate. Defined.

Lemma pair_and_single_run :
  generate_oxygen_network (waters_only pair_and_single) None None None 800
                          false true 330
  = Ok (pair_and_single_network, pair_and_single_graph).
Proof. vm_compute. reflexivity. Defined.

(** The oxygen network of the bonded pair and the single water. *)
Lemma oxygen_network_of_waters_witness :
  exists conns,
    find_connections (waters_only pair_and_single) 330 None None false true
    = Ok conns
    /\ connections pair_and_single_network = Some conns
    /\ graph pair_and_single_network = Some pair_and_single_graph
    /\ is_directed pair_and_single_graph = false
    /\ nodes pair_and_single_graph
       = map water_node (water_molecules (waters_only pair_and_single))
    /\ edges pair_and_single_graph = map edge_of conns.
Proof.
  apply (oxygen_network_of_waters (waters_only pair_and_single) None None
           800 330 pair_and_single_network pair_and_single_graph
           pair_and_single_NoDup pair_and_single_run).
Defined.

Lemma oxygen_network_density_witness :
  exists q, get_density pair_and_single_network "all" = Ok q
            /\ (0 <= q <= 1)%Q.
Proof.
  apply (oxygen_network_density (waters_only pair_and_single) None None
           800 330 pair_and_single_network pair_and_single_graph
           pair_and_single_NoDup).
  - simpl. lia.
  - exact pair_and_single_run.
Defined.

(** The water and the nitrogen within 5 A of the reference atom. *)
Lemma oxygen_network_active_site_tags_witness :
  exists conns,
    connections (network_of active_nitrogen_run) = Some conns
    /\ graph (network_of active_nitrogen_run)
       = Some (graph_of active_nitrogen_run)
    /\ (forall c, In c conns -> site_status c = "active_site")
    /\ (forall c, In c conns ->
                  exists e, In e (edges (graph_of active_nitrogen_run))
                            /\ same_edge false (index1 c) (index2 c) e
                               = true)
    /\ (forall e, In e (edges (graph_of active_nitrogen_run)) ->
                  edge_active_site (snd e) = "active_site").
Proof.
  apply (oxygen_network_active_site_tags water_and_nitrogen None None
           reference_at_origin 500 false 200
           (network_of active_nitrogen_run) (graph_of active_nitrogen_run)).
  vm_compute. reflexivity.
Defined.

Lemma two_waters_NoDup : NoDup (map O_index (water_molecules two_waters)).
Proof. vm_compute. repeat constructor; simpl; intuition discriminate. Defined.

Lemma oxygen_network_active_site_waters_witness :
  exists conns,
    connections (network_of active_waters_run) = Some conns
    /\ is_directed (graph_of active_waters_run) = false
    /\ nodes (graph_of active_waters_run)
       = map water_node
             (filter (fun mol => close_to None 800 (water_positions mol)
                                          reference_near_second)
                     (water_molecules two_waters))
    /\ edges (graph_of active_waters_run) = map edge_of conns.
Proof.
  apply (oxygen_network_active_site_waters two_waters None None
           reference_near_second 800 330 (network_of active_waters_run)
           (graph_of active_waters_run) two_waters_NoDup).
  vm_compute. reflexivity.
Defined.

(** The network of the bonded pair and the single water has no active
    site: its one edge is tagged [None]. *)
Lemma metrics_selection_without_edges_witness :
  get_CPL pair_and_single_network "active_site" "all" false
  = Raise NetworkXPointlessConcept
  /\ get_connected_components pair_and_single_network "active_site" = Ok [].
Proof.
  apply (metrics_selection_without_edges pair_and_single_network
           pair_and_single_graph "active_site" "all" false).
  - vm_compute. reflexivity.
  - discriminate.
  - intros e He. vm_compute in He. destruct He as [<- | []].
    simpl. discriminate.
Defined.

Lemma metrics_without_active_site_witness :
  (forall e, In e (edges pair_and_single_graph) ->
             edge_active_site (snd e) = "None")
  /\ get_CPL pair_and_single_network "not_active_site" "longest" true
     = Raise NetworkXPointlessConcept
  /\ get_connected_components pair_and_single_network "not_active_site"
     = Ok [].
Proof.
  apply (metrics_without_active_site angle_on_x_axis
           (waters_only pair_and_single) None None 800 true None 330
           pair_and_single_network pair_and_single_graph "not_active_site"
           "longest" true).
  - reflexivity.
  - left. exact pair_and_single_run.
  - discriminate.
  - discriminate.
Defined.

(** Under the selection [None] the single water is dropped: one component
    of two nodes is left of the components of sizes 2 and 1. *)
Lemma components_under_selection_witness :
  get_connected_components pair_and_single_network "all"
  = Ok [2%nat; 1%nat]
  /\ Forall (fun n => (2 <= n)%nat) [2%nat].
Proof.
  split; [vm_compute; reflexivity |].
  apply (components_under_selection pair_and_single_network
           pair_and_single_graph "None" [2%nat]).
  - vm_compute. reflexivity.
  - discriminate.
  - intros e He. vm_compute in He. destruct He as [<- | []].
    simpl. discriminate.
  - vm_compute. reflexivity.
Defined.

(** The water 3 A from the reference atom is the active site. *)
Lemma get_all_coordinates_active_site_witness :
  get_all_coordinates (set_active_site near_and_far
                         (Some [Water near_water]))
                      "not_active_site" true
  = Ok (map O_coordinates [near_water])
  /\ (exists atoms,
         get_all_coordinates (set_active_site near_and_far
                                (Some [Water near_water]))
                             "not_active_site" false
         = Ok (map O_coordinates [near_water]
               ++ map OtherAtom.coordinates atoms)
         /\ incl [] atoms
         /\ forall a, In a atoms ->
                      In a []
                      \/ in_reference reference_at_origin (OtherAtom.resid a)
                         = true)
  /\ (active_site near_and_far = None ->
      get_all_coordinates near_and_far "not_active_site" true
      = Raise TypeError).
Proof.
  apply (get_all_coordinates_active_site near_and_far reference_at_origin
           None 500 (set_active_site near_and_far (Some [Water near_water]))
           [Water near_water] [] [near_water] "not_active_site" true).
  - vm_compute. reflexivity.
  - discriminate.
Defined.

Lemma bonded_pair_NoDup :
  NoDup (map O_index (water_molecules
                        (waters_only (hydrogen_bonded_pair 0 3)))).
Proof. vm_compute. repeat constructor; simpl; intuition discriminate. Defined.

(** The directed network of the hydrogen-bonded pair. *)
Lemma directed_network_of_waters_witness :
  exists conns,
    find_directed_connections angle_on_x_axis
      (waters_only (hydrogen_bonded_pair 0 3)) 200 false None None None true
    = Ok conns
    /\ connections (network_of bonded_pair_run) = Some conns
    /\ graph (network_of bonded_pair_run) = Some (graph_of bonded_pair_run)
    /\ is_directed (graph_of bonded_pair_run) = true
    /\ nodes (graph_of bonded_pair_run)
       = map water_node
             (water_molecules (waters_only (hydrogen_bonded_pair 0 3)))
    /\ NoDup (map fst (edges (graph_of bonded_pair_run)))
    /\ (forall e, In e (edges (graph_of bonded_pair_run)) ->
                  fst (fst e) < snd (fst e)
                  /\ exists c, In c conns /\ e = edge_of c)
    /\ (forall c, In c conns ->
                  In (index1 c, index2 c)
                     (map fst (edges (graph_of bonded_pair_run)))).
Proof.
  apply (directed_network_of_waters angle_on_x_axis
           (waters_only (hydrogen_bonded_pair 0 3)) None None 800 (Some 150)
           200 (network_of bonded_pair_run) (graph_of bonded_pair_run)
           bonded_pair_NoDup).
  vm_compute. reflexivity.
Defined.

(** One call of [add_water] and one of [add_atom]. *)
Lemma assembled_network_witness :
  protein_subset one_water_one_atom = []
  /\ connections one_water_one_atom = None
  /\ active_site one_water_one_atom = None
  /\ graph one_water_one_atom = None
  /\ (forall water_only,
         get_all_coordinates one_water_one_atom "all" water_only
         = Ok (map O_coordinates (water_molecules one_water_one_atom)))
  /\ (forall w, In w (water_molecules one_water_one_atom) ->
                WaterAtom.resid (WaterMolecule.O w) = WaterMolecule.resid w
                /\ WaterAtom.name (WaterMolecule.O w) = "O")
  /\ (forall a, In a (protein_atoms one_water_one_atom) ->
                OtherAtom.hbonding a = is_acceptor_name (OtherAtom.name a)).
Proof.
  apply (assembled_network one_water_one_atom).
  apply (@assembled_atom one_water one_water_one_atom 10 "N" "ALA"
           (100, 0, 0) 5 None).
  - apply assembled_water. apply assembled_init.
  - reflexivity.
Defined.
